(** * A shallow embedding of the limit-order matching engine

    Sources embedded here:
    - Order.h / Order.cpp          (class Order)
    - Trade.h                      (struct Trade)
    - OrderBook.h / OrderBook.cpp  (struct PriceLevel, class OrderBook)
    - MatchingEngine.h / .cpp      (class MatchingEngine)

    Modelling decisions.
    - [uint64_t] values are integers in [Z]; every addition and subtraction
      the code performs on them is followed by [wrap64].
    - A [std::shared_ptr<Order>] is an index into a store of [Order]
      objects ([heap]); the id index and the per-level vectors hold such
      indexes, so both see the one object that [reduceQuantity] mutates.
      A possibly-null pointer is an [option ptr].
    - [std::map<uint64_t, PriceLevel>] is a [gmap Z PriceLevel]; [begin()]
      and [rbegin()] are its least and greatest key.
    - The book mutex, the CSV stream and the console output are not
      modelled; the operations run one after the other.
    - The two callbacks are observers: the model records the arguments they
      are called with.
    - A time point is the integer count of clock ticks.  The time stamp of a
      [Trade] is read from the clock when the trade is built and takes part
      in no decision; the record below leaves it out. *)

From Stdlib Require Import ZArith Lia Sorted.
From stdpp Require Import gmap list fin_maps sorting.

Local Open Scope Z_scope.

(** ** Machine integers *)

Definition wrap64 (z : Z) : Z := z mod 2 ^ 64.

Definition is_u64 (z : Z) : Prop := 0 <= z < 2 ^ 64.

(** ** Order.h *)

Inductive OrderSide := BUY | SELL.

#[global] Instance OrderSide_eq_dec : EqDecision OrderSide.
Proof. solve_decision. Defined.

Abbreviation ptr := nat.

(** The member [type_] is set to [LIMIT] by the constructor and read by no
    code of the book or the engine; it is left out. *)
Record Order := mkOrder {
  id_ : Z;
  side_ : OrderSide;
  price_ : Z;
  quantity_ : Z;
  remaining_quantity_ : Z;
  timestamp_ : Z
}.

(** [Order::Order(id, side, price, quantity, timestamp)] *)
Definition new_Order (id : Z) (side : OrderSide) (price quantity timestamp : Z) : Order :=
  mkOrder id side price quantity quantity timestamp.

#[global] Instance Order_inhabited : Inhabited Order :=
  populate (mkOrder 0 BUY 0 0 0 0).

Definition isFilled (o : Order) : bool := remaining_quantity_ o =? 0.

(** [Order::reduceQuantity]; the second component is the returned amount. *)
Definition reduceQuantity (o : Order) (qty : Z) : Order * Z :=
  let actual_reduction := Z.min qty (remaining_quantity_ o) in
  (mkOrder (id_ o) (side_ o) (price_ o) (quantity_ o)
           (wrap64 (remaining_quantity_ o - actual_reduction)) (timestamp_ o),
   actual_reduction).

(** [Order::isPartiallyFilled] *)
Definition isPartiallyFilled (o : Order) : bool :=
  (remaining_quantity_ o <? quantity_ o) && (0 <? remaining_quantity_ o).

(** [Order::getFilledQuantity] *)
Definition getFilledQuantity (o : Order) : Z :=
  wrap64 (quantity_ o - remaining_quantity_ o).

(** [OrderComparator::operator()] *)
Definition OrderComparator (lhs rhs : Order) : bool :=
  match side_ lhs with
  | BUY => price_ lhs <? price_ rhs
  | SELL => price_ rhs <? price_ lhs
  end.

(** Reading through a pointer.  A [shared_ptr] keeps its object alive, so
    every pointer the engine holds lies inside the store; for an index
    outside it the model reads a filled dummy order. *)
Definition deref (h : list Order) (p : ptr) : Order := h !!! p.

(** ** Trade.h *)

Record Trade := mkTrade {
  buy_order_id : Z;
  sell_order_id : Z;
  trade_price : Z;
  trade_quantity : Z
}.

(** ** OrderBook.h: struct PriceLevel *)

Record PriceLevel := mkLevel {
  price : Z;
  total_quantity : Z;
  orders : list ptr
}.

Module Level.

Definition addOrder (h : list Order) (l : PriceLevel) (order : ptr) : PriceLevel :=
  mkLevel (price l)
          (wrap64 (total_quantity l + remaining_quantity_ (deref h order)))
          (orders l ++ [order]).

(** The loop of [removeOrder]: the first entry whose id is [order_id],
    and the vector without it. *)
Fixpoint erase_first (h : list Order) (order_id : Z) (l : list ptr)
  : option (ptr * list ptr) :=
  match l with
  | [] => None
  | p :: l' =>
      if id_ (deref h p) =? order_id then Some (p, l')
      else match erase_first h order_id l' with
           | Some (q, r) => Some (q, p :: r)
           | None => None
           end
  end.

Definition removeOrder (h : list Order) (l : PriceLevel) (order_id : Z)
  : PriceLevel * bool :=
  match erase_first h order_id (orders l) with
  | Some (p, rest) =>
      (mkLevel (price l)
               (wrap64 (total_quantity l - remaining_quantity_ (deref h p)))
               rest, true)
  | None => (l, false)
  end.

Definition updateQuantity (l : PriceLevel) (order_id old_qty new_qty : Z) : PriceLevel :=
  mkLevel (price l) (wrap64 (wrap64 (total_quantity l - old_qty) + new_qty)) (orders l).

Definition isEmpty (l : PriceLevel) : bool :=
  match orders l with [] => true | _ => false end.

Definition clear (l : PriceLevel) : PriceLevel := mkLevel (price l) 0 [].

End Level.

(** ** Ordered maps: least and greatest key *)

Fixpoint list_max_opt (l : list Z) : option Z :=
  match l with
  | [] => None
  | x :: l' => Some (match list_max_opt l' with None => x | Some y => Z.max x y end)
  end.

Fixpoint list_min_opt (l : list Z) : option Z :=
  match l with
  | [] => None
  | x :: l' => Some (match list_min_opt l' with None => x | Some y => Z.min x y end)
  end.

Definition keys {A} (m : gmap Z A) : list Z := (map_to_list m).*1.

Definition max_key {A} (m : gmap Z A) : option Z := list_max_opt (keys m).
Definition min_key {A} (m : gmap Z A) : option Z := list_min_opt (keys m).

(** The keys in the order in which [begin()] ... [end()] visits them, and
    the entries in that order. *)
Definition sorted_keys {A} (m : gmap Z A) : list Z := merge_sort Z.le (keys m).

Definition entries {A} (m : gmap Z A) : list (Z * A) :=
  omap (fun k => match m !! k with Some v => Some (k, v) | None => None end)
       (sorted_keys m).

(** ** OrderBook.h / OrderBook.cpp: class OrderBook *)

Record OrderBook := mkBook {
  bids_ : gmap Z PriceLevel;
  asks_ : gmap Z PriceLevel;
  orders_ : gmap Z ptr
}.

Module Book.

Definition empty : OrderBook := mkBook ∅ ∅ ∅.

Definition getPriceLevelMap (b : OrderBook) (side : OrderSide) : gmap Z PriceLevel :=
  match side with BUY => bids_ b | SELL => asks_ b end.

(** Assignment through the reference [getPriceLevelMap] returns. *)
Definition setPriceLevelMap (b : OrderBook) (side : OrderSide) (m : gmap Z PriceLevel)
  : OrderBook :=
  match side with
  | BUY => mkBook m (asks_ b) (orders_ b)
  | SELL => mkBook (bids_ b) m (orders_ b)
  end.

Definition set_orders (b : OrderBook) (m : gmap Z ptr) : OrderBook :=
  mkBook (bids_ b) (asks_ b) m.

Definition addOrder (h : list Order) (b : OrderBook) (order : option ptr)
  : OrderBook * bool :=
  match order with
  | None => (b, false)
  | Some p =>
      let o := deref h p in
      let b1 := set_orders b (<[id_ o := p]> (orders_ b)) in
      let price_map := getPriceLevelMap b1 (side_ o) in
      match price_map !! price_ o with
      | Some l =>
          (setPriceLevelMap b1 (side_ o)
             (<[price_ o := Level.addOrder h l p]> price_map), true)
      | None =>
          let level := mkLevel (price_ o) 0 [] in
          (setPriceLevelMap b1 (side_ o)
             (<[price_ o := Level.addOrder h level p]> price_map), true)
      end
  end.

Definition removeEmptyPriceLevel (b : OrderBook) (side : OrderSide) (price : Z)
  : OrderBook :=
  let price_map := getPriceLevelMap b side in
  match price_map !! price with
  | Some l => if Level.isEmpty l then setPriceLevelMap b side (delete price price_map)
              else b
  | None => b
  end.

Definition cancelOrder (h : list Order) (b : OrderBook) (order_id : Z)
  : OrderBook * bool :=
  match orders_ b !! order_id with
  | None => (b, false)
  | Some p =>
      let o := deref h p in
      let price_map := getPriceLevelMap b (side_ o) in
      let b1 :=
        match price_map !! price_ o with
        | Some l =>
            let '(l', removed) := Level.removeOrder h l order_id in
            let b' := setPriceLevelMap b (side_ o) (<[price_ o := l']> price_map) in
            if removed && Level.isEmpty l'
            then removeEmptyPriceLevel b' (side_ o) (price_ o)
            else b'
        | None => b
        end in
      (set_orders b1 (delete order_id (orders_ b1)), true)
  end.

Definition getBestBid (b : OrderBook) : Z :=
  match max_key (bids_ b) with None => 0 | Some k => k end.

Definition getBestAsk (b : OrderBook) : Z :=
  match min_key (asks_ b) with None => 0 | Some k => k end.

Definition getOrder (b : OrderBook) (order_id : Z) : option ptr :=
  orders_ b !! order_id.

Definition getOrdersForMatching (b : OrderBook) (side : OrderSide) : list ptr :=
  let price_map := getPriceLevelMap b side in
  let best := match side with BUY => max_key price_map | SELL => min_key price_map end in
  match best with
  | None => []
  | Some k => match price_map !! k with Some l => orders l | None => [] end
  end.

Definition updateOrderQuantity (h : list Order) (b : OrderBook)
           (order_id old_qty new_qty : Z) : OrderBook :=
  match orders_ b !! order_id with
  | None => b
  | Some p =>
      let o := deref h p in
      let price_map := getPriceLevelMap b (side_ o) in
      match price_map !! price_ o with
      | Some l =>
          setPriceLevelMap b (side_ o)
            (<[price_ o := Level.updateQuantity l order_id old_qty new_qty]> price_map)
      | None => b
      end
  end.

Definition getSpread (b : OrderBook) : Z :=
  let best_bid := getBestBid b in
  let best_ask := getBestAsk b in
  if (best_bid =? 0) || (best_ask =? 0) then 0 else wrap64 (best_ask - best_bid).

Definition getBestBidQuantity (b : OrderBook) : Z :=
  match max_key (bids_ b) with
  | None => 0
  | Some k => match bids_ b !! k with Some l => total_quantity l | None => 0 end
  end.

Definition getBestAskQuantity (b : OrderBook) : Z :=
  match min_key (asks_ b) with
  | None => 0
  | Some k => match asks_ b !! k with Some l => total_quantity l | None => 0 end
  end.

Definition getOrdersAtPrice (b : OrderBook) (price : Z) (side : OrderSide) : list ptr :=
  match getPriceLevelMap b side !! price with
  | Some l => orders l
  | None => []
  end.

(** The two loops of [getMarketDepth]: the first [levels] entries of the
    bids from [rbegin()] on, and of the asks from [begin()] on, each as
    (price, total quantity). *)
Definition getMarketDepth (b : OrderBook) (levels : nat)
  : list (Z * Z) * list (Z * Z) :=
  (take levels ((fun e => (e.1, total_quantity e.2)) <$> reverse (entries (bids_ b))),
   take levels ((fun e => (e.1, total_quantity e.2)) <$> entries (asks_ b))).

Definition getOrderCount (b : OrderBook) : Z := Z.of_nat (size (orders_ b)).

Definition isEmpty (b : OrderBook) : bool := bool_decide (orders_ b = ∅).

Definition clear (b : OrderBook) : OrderBook := mkBook ∅ ∅ ∅.

Definition getBestPrices (b : OrderBook) : Z * Z := (getBestBid b, getBestAsk b).

End Book.

(** ** MatchingEngine.h / MatchingEngine.cpp

    The state the engine works on: the store of [Order] objects, the
    members of [MatchingEngine], and what the two callbacks were called
    with (oldest first). *)

Record State := mkState {
  heap : list Order;
  order_book_ : OrderBook;
  trades_ : list Trade;
  trade_count_ : Z;
  total_volume_ : Z;
  total_value_ : Z;
  order_callback_ : bool;
  trade_callback_ : bool;
  order_events : list (option ptr);
  trade_events : list Trade
}.

Module Engine.

(** [MatchingEngine::MatchingEngine], with the callbacks set or not. *)
Definition init (order_cb trade_cb : bool) : State :=
  mkState [] Book.empty [] 0 0 0 order_cb trade_cb [] [].

Definition set_heap (s : State) (h : list Order) : State :=
  mkState h (order_book_ s) (trades_ s) (trade_count_ s) (total_volume_ s)
          (total_value_ s) (order_callback_ s) (trade_callback_ s)
          (order_events s) (trade_events s).

Definition set_book (s : State) (b : OrderBook) : State :=
  mkState (heap s) b (trades_ s) (trade_count_ s) (total_volume_ s)
          (total_value_ s) (order_callback_ s) (trade_callback_ s)
          (order_events s) (trade_events s).

Definition notifyOrderCallback (s : State) (order : option ptr) : State :=
  if order_callback_ s then
    mkState (heap s) (order_book_ s) (trades_ s) (trade_count_ s) (total_volume_ s)
            (total_value_ s) (order_callback_ s) (trade_callback_ s)
            (order_events s ++ [order]) (trade_events s)
  else s.

Definition notifyTradeCallback (s : State) (trade : Trade) : State :=
  if trade_callback_ s then
    mkState (heap s) (order_book_ s) (trades_ s) (trade_count_ s) (total_volume_ s)
            (total_value_ s) (order_callback_ s) (trade_callback_ s)
            (order_events s) (trade_events s ++ [trade])
  else s.

Definition executeTrade (s : State) (buy_order sell_order : ptr)
           (trade_price trade_quantity : Z) : State * Trade :=
  let '(buy_order, sell_order) :=
    if decide (side_ (deref (heap s) buy_order) = BUY)
    then (buy_order, sell_order) else (sell_order, buy_order) in
  let trade := mkTrade (id_ (deref (heap s) buy_order))
                       (id_ (deref (heap s) sell_order))
                       trade_price trade_quantity in
  let s1 := mkState (heap s) (order_book_ s) (trades_ s ++ [trade])
                    (wrap64 (trade_count_ s + 1))
                    (wrap64 (total_volume_ s + trade_quantity))
                    (wrap64 (total_value_ s + wrap64 (trade_price * trade_quantity)))
                    (order_callback_ s) (trade_callback_ s)
                    (order_events s) (trade_events s) in
  (notifyTradeCallback s1 trade, trade).

(** One round of the [for] loop of [matchOrder] that looks for the best
    match; the accumulator is [(best_match, best_price)]. *)
Definition scan_step (h : list Order) (order : Order)
           (acc : option ptr * Z) (c : ptr) : option ptr * Z :=
  let '(best_match, best_price) := acc in
  let opposing_order := deref h c in
  if isFilled opposing_order then acc
  else
    let '(price_compatible, best_price) :=
      if bool_decide (side_ order = BUY) && bool_decide (side_ opposing_order = SELL)
         && (price_ opposing_order <=? price_ order)
      then (true, price_ opposing_order)
      else if bool_decide (side_ order = SELL) && bool_decide (side_ opposing_order = BUY)
              && (price_ order <=? price_ opposing_order)
      then (true, price_ opposing_order)
      else (false, best_price) in
    if price_compatible
       && match best_match with
          | None => true
          | Some bm => timestamp_ opposing_order <? timestamp_ (deref h bm)
          end
    then (Some c, best_price)
    else (best_match, best_price).

Definition find_best_match (h : list Order) (order : Order) (opposing_orders : list ptr)
  : option ptr * Z :=
  fold_left (scan_step h order) opposing_orders (None, 0).

Definition opposing (side : OrderSide) : OrderSide :=
  match side with BUY => SELL | SELL => BUY end.

(** Writing through a pointer: [p->reduceQuantity(qty)]. *)
Definition reduce_at (h : list Order) (p : ptr) (qty : Z) : list Order :=
  <[p := (reduceQuantity (deref h p) qty).1]> h.

(** One pass through the body of the [while] loop of [matchOrder]:
    [None] when the loop is left (the condition fails or a [break] is
    taken), otherwise the resting order that was matched and the state at
    the end of the body. *)
Definition match_iter (s : State) (order : ptr) : option (ptr * State) :=
  if isFilled (deref (heap s) order) then None
  else
    let opposing_side := opposing (side_ (deref (heap s) order)) in
    let opposing_orders := Book.getOrdersForMatching (order_book_ s) opposing_side in
    match opposing_orders with
    | [] => None
    | _ =>
        match find_best_match (heap s) (deref (heap s) order) opposing_orders with
        | (None, _) => None
        | (Some best_match, best_price) =>
            let trade_quantity :=
              Z.min (remaining_quantity_ (deref (heap s) order))
                    (remaining_quantity_ (deref (heap s) best_match)) in
            let s1 := (executeTrade s order best_match best_price trade_quantity).1 in
            let s2 := set_heap s1 (reduce_at (heap s1) order trade_quantity) in
            let s3 := set_heap s2 (reduce_at (heap s2) best_match trade_quantity) in
            let o3 := deref (heap s3) order in
            let b4 := Book.updateOrderQuantity (heap s3) (order_book_ s3) (id_ o3)
                        (wrap64 (remaining_quantity_ o3 + trade_quantity))
                        (remaining_quantity_ o3) in
            let m3 := deref (heap s3) best_match in
            let b5 := Book.updateOrderQuantity (heap s3) b4 (id_ m3)
                        (wrap64 (remaining_quantity_ m3 + trade_quantity))
                        (remaining_quantity_ m3) in
            let s5 := set_book s3 b5 in
            let s6 :=
              if isFilled (deref (heap s5) best_match) then
                notifyOrderCallback
                  (set_book s5 (Book.cancelOrder (heap s5) (order_book_ s5)
                                                 (id_ (deref (heap s5) best_match))).1)
                  (Some best_match)
              else s5 in
            Some (best_match, s6)
        end
    end.

(** The [while] loop, run for at most [fuel] passes; the counter is
    [trades_executed]. *)
Fixpoint match_loop (fuel : nat) (s : State) (order : ptr) (trades_executed : Z)
  : State * Z :=
  match fuel with
  | O => (s, trades_executed)
  | S fuel' =>
      match match_iter s order with
      | None => (s, trades_executed)
      | Some (_, s') => match_loop fuel' s' order (wrap64 (trades_executed + 1))
      end
  end.

(** Every pass fills an order object that was not filled before, so the
    body runs at most once per object of the store ([matchOrder_exits]). *)
Definition matchOrder (s : State) (order : ptr) : State * Z :=
  match_loop (length (heap s)) s order 0.

Definition submitOrder (s : State) (order : option ptr) : State * bool :=
  match order with
  | None => (s, false)
  | Some p =>
      let s1 := (matchOrder s p).1 in
      let s2 :=
        if negb (isFilled (deref (heap s1) p)) then
          notifyOrderCallback
            (set_book s1 (Book.addOrder (heap s1) (order_book_ s1) (Some p)).1)
            (Some p)
        else s1 in
      (s2, true)
  end.

Definition cancelOrder (s : State) (order_id : Z) : State * bool :=
  let '(b, cancelled) := Book.cancelOrder (heap s) (order_book_ s) order_id in
  let s1 := set_book s b in
  let s2 := if cancelled
            then notifyOrderCallback s1 (Book.getOrder (order_book_ s1) order_id)
            else s1 in
  (s2, cancelled).

(** The makers matched by the passes of the loop, each with the state it
    was matched in. *)
Fixpoint match_trace (fuel : nat) (s : State) (order : ptr) : list (State * ptr) :=
  match fuel with
  | O => []
  | S fuel' =>
      match match_iter s order with
      | None => []
      | Some (m, s') => (s, m) :: match_trace fuel' s' order
      end
  end.

(** [MatchingEngine::clear] *)
Definition clear (s : State) : State :=
  mkState (heap s) (Book.clear (order_book_ s)) [] 0 0 0
          (order_callback_ s) (trade_callback_ s) (order_events s) (trade_events s).

(** [MatchingEngine::processBatch]; the counter is [processed]. *)
Definition processBatch (s : State) (orders : list (option ptr)) : State * Z :=
  fold_left (fun acc order =>
               let '(s', ok) := submitOrder acc.1 order in
               (s', if ok then wrap64 (acc.2 + 1) else acc.2))
            orders (s, 0).

End Engine.

(** ** Callers: building an order and handing it to the engine *)

Record OrderArgs := mkArgs {
  a_id : Z;
  a_side : OrderSide;
  a_price : Z;
  a_quantity : Z;
  a_timestamp : Z
}.

(** [std::make_shared<Order>(id, side, price, quantity, timestamp)] *)
Definition make_shared (s : State) (a : OrderArgs) : State * ptr :=
  (Engine.set_heap s (heap s ++ [new_Order (a_id a) (a_side a) (a_price a)
                                           (a_quantity a) (a_timestamp a)]),
   length (heap s)).

Definition submit_new (s : State) (a : OrderArgs) : State * bool :=
  let '(s1, p) := make_shared s a in Engine.submitOrder s1 (Some p).

Inductive Op :=
| Submit (a : OrderArgs)
| Cancel (order_id : Z).

Definition step (s : State) (op : Op) : State :=
  match op with
  | Submit a => (submit_new s a).1
  | Cancel i => (Engine.cancelOrder s i).1
  end.

Definition run (ops : list Op) (s : State) : State := fold_left step ops s.


(** ** Operation sequences *)

Definition wf_args (a : OrderArgs) : Prop :=
  is_u64 (a_id a) /\ is_u64 (a_price a) /\ is_u64 (a_quantity a).

Definition wf_op (op : Op) : Prop :=
  match op with Submit a => wf_args a | Cancel i => True end.

Fixpoint submitted_ids (ops : list Op) : list Z :=
  match ops with
  | [] => []
  | Submit a :: ops' => a_id a :: submitted_ids ops'
  | Cancel _ :: ops' => submitted_ids ops'
  end.

(** Sequences of operations on 64-bit values whose submitted order ids are
    pairwise distinct. *)
Definition valid_ops (ops : list Op) : Prop :=
  Forall wf_op ops /\ NoDup (submitted_ids ops).

#[global] Instance is_u64_dec z : Decision (is_u64 z).
Proof. unfold is_u64. apply _. Defined.

#[global] Instance wf_args_dec a : Decision (wf_args a).
Proof. unfold wf_args. apply _. Defined.

#[global] Instance wf_op_dec op : Decision (wf_op op).
Proof. destruct op; cbn; apply _. Defined.

#[global] Instance valid_ops_dec ops : Decision (valid_ops ops).
Proof. unfold valid_ops. apply _. Defined.

(** ** Invariants of the book *)

(** Sum of the remaining quantities of a queue, as an integer. *)
Definition sum_remaining (h : list Order) (l : list ptr) : Z :=
  foldr (fun p acc => remaining_quantity_ (deref h p) + acc) 0 l.

(** [p] rests on [side] of the book at price [k]. *)
Definition resting_at (b : OrderBook) (side : OrderSide) (k : Z) (p : ptr) : Prop :=
  exists l, Book.getPriceLevelMap b side !! k = Some l /\ p ∈ orders l.

Definition resting (b : OrderBook) (side : OrderSide) (p : ptr) : Prop :=
  exists k, resting_at b side k p.

Record heap_ok (h : list Order) : Prop := {
  h_range : forall p o, h !! p = Some o ->
    is_u64 (id_ o) /\ is_u64 (price_ o) /\ is_u64 (quantity_ o)
    /\ 0 <= remaining_quantity_ o <= quantity_ o;
  h_ids : forall p q o o', h !! p = Some o -> h !! q = Some o' ->
    id_ o = id_ o' -> p = q
}.

Record level_ok (h : list Order) (b : OrderBook) (side : OrderSide) (k : Z)
       (l : PriceLevel) : Prop := {
  l_nonempty : orders l <> [];
  l_nodup : NoDup (orders l);
  l_total : total_quantity l = wrap64 (sum_remaining h (orders l));
  l_members : forall p, p ∈ orders l ->
    exists o, h !! p = Some o /\ side_ o = side /\ price_ o = k
              /\ orders_ b !! id_ o = Some p
}.

(** The index and the levels describe the same set of resting orders. *)
Record book_wf (h : list Order) (b : OrderBook) : Prop := {
  b_levels : forall side k l,
    Book.getPriceLevelMap b side !! k = Some l -> level_ok h b side k l;
  b_index : forall i p, orders_ b !! i = Some p ->
    exists o, h !! p = Some o /\ id_ o = i /\ resting_at b (side_ o) (price_ o) p
}.

Definition all_open (h : list Order) (b : OrderBook) : Prop :=
  forall i p, orders_ b !! i = Some p -> 0 < remaining_quantity_ (deref h p).

Definition no_cross (b : OrderBook) : Prop :=
  forall kb ka, is_Some (bids_ b !! kb) -> is_Some (asks_ b !! ka) -> kb < ka.

Definition refers (t : Trade) (i : Z) : bool :=
  (buy_order_id t =? i) || (sell_order_id t =? i).

(** Total quantity of the trades that reference order id [i]. *)
Definition traded (ts : list Trade) (i : Z) : Z :=
  foldr (fun t acc => (if refers t i then trade_quantity t else 0) + acc) 0 ts.

Record Inv (s : State) : Prop := {
  inv_heap : heap_ok (heap s);
  inv_wf : book_wf (heap s) (order_book_ s);
  inv_open : all_open (heap s) (order_book_ s);
  inv_nocross : no_cross (order_book_ s);
  inv_cons : forall p o, heap s !! p = Some o ->
    quantity_ o = remaining_quantity_ o + traded (trades_ s) (id_ o);
  inv_trades : forall t, t ∈ trades_ s ->
    (exists p o, heap s !! p = Some o /\ id_ o = buy_order_id t)
    /\ (exists p o, heap s !! p = Some o /\ id_ o = sell_order_id t)
}.

(** [price a] is strictly better than [price b] for a maker on [side]. *)
Definition better (side : OrderSide) (a b : Z) : Prop :=
  match side with BUY => b < a | SELL => a < b end.

(** Resting order [r] has priority over resting order [m]. *)
Definition beats (side : OrderSide) (r m : Order) : Prop :=
  better side (price_ r) (price_ m)
  \/ (price_ r = price_ m /\ timestamp_ r < timestamp_ m).

(** The incoming order's limit [limit] admits a match at price [k]. *)
Definition compatible (side : OrderSide) (limit k : Z) : Prop :=
  match side with BUY => k <= limit | SELL => limit <= k end.

(** Number of order objects that are not filled. *)
Definition count_open (h : list Order) : nat :=
  length (filter (fun o => isFilled o = false) h).

(** The fields [reduceQuantity] leaves alone. *)
Definition same_static (o o' : Order) : Prop :=
  id_ o' = id_ o /\ side_ o' = side_ o /\ price_ o' = price_ o
  /\ quantity_ o' = quantity_ o /\ timestamp_ o' = timestamp_ o.


(** Every remaining quantity is a 64-bit value. *)
Definition heap_u64 (h : list Order) : Prop :=
  forall p o, h !! p = Some o -> is_u64 (remaining_quantity_ o).


(** A queue whose members are open orders of one side at one price. *)
Definition uniform (h : list Order) (side : OrderSide) (k : Z) (l : list ptr) : Prop :=
  forall c, c ∈ l ->
    isFilled (deref h c) = false /\ side_ (deref h c) = side /\ price_ (deref h c) = k.


(** The book at the end of a pass in which [m] was matched for [q]. *)
Definition book_after_fill (h' : list Order) (b : OrderBook) (p m : ptr) (q : Z)
  : OrderBook :=
  let o := deref h' p in
  let b4 := Book.updateOrderQuantity h' b (id_ o)
              (wrap64 (remaining_quantity_ o + q)) (remaining_quantity_ o) in
  let mo := deref h' m in
  let b5 := Book.updateOrderQuantity h' b4 (id_ mo)
              (wrap64 (remaining_quantity_ mo + q)) (remaining_quantity_ mo) in
  if isFilled mo then (Book.cancelOrder h' b5 (id_ mo)).1 else b5.


(** Replacing, and dropping, the level at price [k] on one side. *)
Definition upd_level (b : OrderBook) (side : OrderSide) (k : Z) (l : PriceLevel)
  : OrderBook :=
  Book.setPriceLevelMap b side (<[k := l]> (Book.getPriceLevelMap b side)).

Definition del_level (b : OrderBook) (side : OrderSide) (k : Z) : OrderBook :=
  Book.setPriceLevelMap b side (delete k (Book.getPriceLevelMap b side)).

(** The queue without [m]. *)
Definition without (m : ptr) (l : list ptr) : list ptr :=
  filter (fun x => x <> m) l.

(** The book once [m], of id [i], has left level [l] at ([side], [k]). *)
Definition book_without (b : OrderBook) (side : OrderSide) (k : Z) (l : PriceLevel)
           (m : ptr) (i : Z) (rem : Z) : OrderBook :=
  let l' := mkLevel (price l) (wrap64 (total_quantity l - rem)) (without m (orders l)) in
  Book.set_orders
    (match without m (orders l) with
     | [] => del_level b side k
     | _ => upd_level b side k l'
     end)
    (delete i (orders_ b)).

(** From one store to a later one: objects stay where they are, keep their
    fixed fields, and their remaining quantity does not grow. *)
Definition heap_evolves (h h' : list Order) : Prop :=
  forall x o, h !! x = Some o ->
    exists o', h' !! x = Some o' /\ same_static o o'
      /\ 0 <= remaining_quantity_ o' <= remaining_quantity_ o.

(** The trade built when incoming order [o] meets resting order [mo] for
    quantity [q]: the ids are put on their sides, the price is the resting
    order's. *)
Definition trade_of (o mo : Order) (q : Z) : Trade :=
  match side_ o with
  | BUY => mkTrade (id_ o) (id_ mo) (price_ mo) q
  | SELL => mkTrade (id_ mo) (id_ o) (price_ mo) q
  end.

(** The quantity traded in a pass. *)
Definition pass_qty (s : State) (p m : ptr) : Z :=
  Z.min (remaining_quantity_ (deref (heap s) p))
        (remaining_quantity_ (deref (heap s) m)).

(** What one pass of the matching loop does, from state [s] to state [s'],
    when the incoming order is [p] and the matched resting order is [m]. *)
Record pass_ok (s : State) (p m : ptr) (s' : State) : Prop := {
  po_open : 0 < remaining_quantity_ (deref (heap s) p);
  po_maker : heap s !! m = Some (deref (heap s) m);
  po_maker_open : 0 < remaining_quantity_ (deref (heap s) m);
  po_distinct : p <> m;
  po_side : side_ (deref (heap s) m) = Engine.opposing (side_ (deref (heap s) p));
  po_compatible : compatible (side_ (deref (heap s) p)) (price_ (deref (heap s) p))
                             (price_ (deref (heap s) m));
  po_resting : resting_at (order_book_ s) (Engine.opposing (side_ (deref (heap s) p)))
                          (price_ (deref (heap s) m)) m;
  po_priority : forall x,
    resting (order_book_ s) (Engine.opposing (side_ (deref (heap s) p))) x ->
    ~ beats (Engine.opposing (side_ (deref (heap s) p)))
            (deref (heap s) x) (deref (heap s) m);
  po_trade : trades_ s' = trades_ s
               ++ [trade_of (deref (heap s) p) (deref (heap s) m) (pass_qty s p m)];
  po_heap : heap s' = Engine.reduce_at (Engine.reduce_at (heap s) p (pass_qty s p m)) m (pass_qty s p m);
  po_rem_p : remaining_quantity_ (deref (heap s') p)
             = remaining_quantity_ (deref (heap s) p) - (pass_qty s p m);
  po_rem_m : remaining_quantity_ (deref (heap s') m)
             = remaining_quantity_ (deref (heap s) m) - (pass_qty s p m);
  po_index : orders_ (order_book_ s')
             = if decide (remaining_quantity_ (deref (heap s') m) = 0)
               then delete (id_ (deref (heap s) m)) (orders_ (order_book_ s))
               else orders_ (order_book_ s);
  po_rest_mono : forall side x,
    resting (order_book_ s') side x -> resting (order_book_ s) side x;
  po_keys : forall side k,
    is_Some (Book.getPriceLevelMap (order_book_ s') side !! k) ->
    is_Some (Book.getPriceLevelMap (order_book_ s) side !! k)
}.

(** No order object carries id [i]. *)
Definition fresh_id (s : State) (i : Z) : Prop :=
  forall x ox, heap s !! x = Some ox -> id_ ox <> i.


(** The order behind [p] is not in the id index. *)
Definition outside (s : State) (p : ptr) : Prop :=
  orders_ (order_book_ s) !! id_ (deref (heap s) p) = None.

(** The trades of the passes recorded in a trace. *)
Definition trace_trades (p : ptr) (tr : list (State * ptr)) : list Trade :=
  map (fun e => trade_of (deref (heap e.1) p) (deref (heap e.1) e.2)
                         (pass_qty e.1 p e.2)) tr.

(** What holds at each pass of the loop started in state [s]. *)
Definition pass_at (s : State) (p : ptr) (e : State * ptr) : Prop :=
  Inv e.1 /\ outside e.1 p
  /\ heap_evolves (heap s) (heap e.1) /\ length (heap e.1) = length (heap s)
  /\ (forall side x, resting (order_book_ e.1) side x -> resting (order_book_ s) side x)
  /\ exists s', Engine.match_iter e.1 p = Some (e.2, s') /\ pass_ok e.1 p e.2 s'.

(** ** Concrete runs *)

(** Three resting asks and a buy order that sweeps two of them. *)
Definition sweep_ops : list Op :=
  [Submit (mkArgs 1 SELL 101 3 1); Submit (mkArgs 2 SELL 102 5 2);
   Submit (mkArgs 3 SELL 102 2 3)].

Definition sweep_order : OrderArgs := mkArgs 4 BUY 102 8 4.

(** Two bids at one price whose quantities add up to 2^64. *)
Definition overflow_ops : list Op :=
  [Submit (mkArgs 1 BUY 100 (2 ^ 63) 1); Submit (mkArgs 2 BUY 100 (2 ^ 63) 2)].

(** One resting bid. *)
Definition one_bid_ops : list Op := [Submit (mkArgs 1 BUY 100 10 1)].

(** Validity of a concrete sequence, by evaluation. *)
Ltac valid_ops_tac := apply (bool_decide_unpack _); vm_compute; exact I.

(** ** Running totals of a trade list *)

Definition volume (ts : list Trade) : Z :=
  foldr (fun t acc => trade_quantity t + acc) 0 ts.

Definition notional (ts : list Trade) : Z :=
  foldr (fun t acc => trade_price t * trade_quantity t + acc) 0 ts.

(** The counters agree with the trade list, and the trade callback has been
    given every trade of the list, in order, when it is set. *)
Record stats_ok (s : State) : Prop := {
  st_count : trade_count_ s = wrap64 (Z.of_nat (length (trades_ s)));
  st_volume : total_volume_ s = wrap64 (volume (trades_ s));
  st_value : total_value_ s = wrap64 (notional (trades_ s));
  st_events : trade_events s = if trade_callback_ s then trades_ s else []
}.

(** Trade [t] is between a Buy order [pb] and a Sell order [ps] of the
    store, at a price inside both limits and for a positive quantity that
    neither original quantity falls short of. *)
Definition trade_within_limits (h : list Order) (t : Trade) : Prop :=
  exists pb ps ob os,
    h !! pb = Some ob /\ h !! ps = Some os
    /\ side_ ob = BUY /\ side_ os = SELL
    /\ id_ ob = buy_order_id t /\ id_ os = sell_order_id t
    /\ price_ os <= trade_price t <= price_ ob
    /\ 0 < trade_quantity t
    /\ trade_quantity t <= quantity_ ob /\ trade_quantity t <= quantity_ os.

(** The resting orders that the passes of a trace fill completely: those
    matched when their remaining quantity was at most the incoming order's. *)
Definition filled_makers (order : ptr) (tr : list (State * ptr)) : list ptr :=
  omap (fun e : State * ptr =>
          if remaining_quantity_ (deref (heap e.1) e.2)
             <=? remaining_quantity_ (deref (heap e.1) order)
          then Some e.2 else None) tr.

(** Every queue of the book lists its orders by increasing pointer, that is
    in the order in which the order objects were created. *)
Definition fifo (b : OrderBook) : Prop :=
  forall side k, StronglySorted lt (Book.getOrdersAtPrice b k side).

(** Two resting asks at one price with one time stamp, and a buy order that
    fills the first of them and a part of the second. *)
Definition tie_ops : list Op :=
  [Submit (mkArgs 1 SELL 100 4 7); Submit (mkArgs 2 SELL 100 6 7)].

Definition tie_order : OrderArgs := mkArgs 3 BUY 100 5 9.

(** Three asks, and a bid below them. *)
Definition two_sided_ops : list Op := sweep_ops ++ [Submit (mkArgs 5 BUY 100 7 5)].

(** Two asks at one price, the second submitted with the earlier time
    stamp, and a buy order for the quantity of one of them. *)
Definition late_stamp_ops : list Op :=
  [Submit (mkArgs 1 SELL 100 5 9); Submit (mkArgs 2 SELL 100 5 7)].

Definition late_stamp_order : OrderArgs := mkArgs 3 BUY 100 5 10.
(** * Properties *)

(** ** Machine arithmetic *)

Lemma wrap64_small z : is_u64 z -> wrap64 z = z.
Proof. unfold wrap64, is_u64. intros H. apply Z.mod_small. exact H. Qed.

Lemma wrap64_range z : is_u64 (wrap64 z).
Proof. unfold wrap64, is_u64. apply Z.mod_pos_bound. lia. Qed.

Lemma wrap64_add_l a b : wrap64 (wrap64 a + b) = wrap64 (a + b).
Proof. unfold wrap64. apply Zplus_mod_idemp_l. Qed.

Lemma wrap64_sub_l a b : wrap64 (wrap64 a - b) = wrap64 (a - b).
Proof. unfold wrap64. apply Zminus_mod_idemp_l. Qed.

(** ** Least and greatest key of an ordered map *)

Lemma list_max_opt_None l : list_max_opt l = None <-> l = [].
Proof. destruct l; simpl; split; congruence. Qed.

Lemma list_min_opt_None l : list_min_opt l = None <-> l = [].
Proof. destruct l; simpl; split; congruence. Qed.

Lemma list_max_opt_Some l k :
  list_max_opt l = Some k -> k ∈ l /\ forall x, x ∈ l -> x <= k.
Proof.
  revert k. induction l as [|a l IH]; simpl; intros k Hk; [discriminate|].
  destruct (list_max_opt l) as [y|] eqn:E.
  - destruct (IH y eq_refl) as [Hy Hle]. inversion Hk; subst k. split.
    + destruct (Z.max_spec a y) as [[_ ->]|[_ ->]]; [by right | by left].
    + intros x Hx. apply elem_of_cons in Hx as [->|Hx]; [lia|].
      specialize (Hle x Hx). lia.
  - apply list_max_opt_None in E. subst l. inversion Hk; subst. split.
    + by left.
    + intros x Hx. apply list_elem_of_singleton in Hx. lia.
Qed.

Lemma list_min_opt_Some l k :
  list_min_opt l = Some k -> k ∈ l /\ forall x, x ∈ l -> k <= x.
Proof.
  revert k. induction l as [|a l IH]; simpl; intros k Hk; [discriminate|].
  destruct (list_min_opt l) as [y|] eqn:E.
  - destruct (IH y eq_refl) as [Hy Hle]. inversion Hk; subst k. split.
    + destruct (Z.min_spec a y) as [[_ ->]|[_ ->]]; [by left | by right].
    + intros x Hx. apply elem_of_cons in Hx as [->|Hx]; [lia|].
      specialize (Hle x Hx). lia.
  - apply list_min_opt_None in E. subst l. inversion Hk; subst. split.
    + by left.
    + intros x Hx. apply list_elem_of_singleton in Hx. lia.
Qed.

Section ordered_map.
Context {A : Type}.
Implicit Types m : gmap Z A.

Lemma elem_of_keys m k : k ∈ keys m <-> is_Some (m !! k).
Proof.
  unfold keys. rewrite list_elem_of_fmap. split.
  - intros [[k' v] [-> Hin]]. apply elem_of_map_to_list in Hin. eauto.
  - intros [v Hv]. exists (k, v). split; [done|]. by apply elem_of_map_to_list.
Qed.

Lemma keys_nil m : keys m = [] <-> m = ∅.
Proof.
  unfold keys. split.
  - intros H. apply fmap_nil_inv in H. by apply map_to_list_empty_iff.
  - intros ->. by rewrite map_to_list_empty.
Qed.

Lemma max_key_None m : max_key m = None <-> m = ∅.
Proof. unfold max_key. rewrite list_max_opt_None. apply keys_nil. Qed.

Lemma min_key_None m : min_key m = None <-> m = ∅.
Proof. unfold min_key. rewrite list_min_opt_None. apply keys_nil. Qed.

Lemma max_key_Some m k :
  max_key m = Some k -> is_Some (m !! k) /\ forall k', is_Some (m !! k') -> k' <= k.
Proof.
  intros H. apply list_max_opt_Some in H as [Hin Hle]. split.
  - by apply elem_of_keys.
  - intros k' Hk'. apply Hle. by apply elem_of_keys.
Qed.

Lemma min_key_Some m k :
  min_key m = Some k -> is_Some (m !! k) /\ forall k', is_Some (m !! k') -> k <= k'.
Proof.
  intros H. apply list_min_opt_Some in H as [Hin Hle]. split.
  - by apply elem_of_keys.
  - intros k' Hk'. apply Hle. by apply elem_of_keys.
Qed.

End ordered_map.

(** ** Reading and writing through pointers *)

Lemma deref_Some h p o : h !! p = Some o -> deref h p = o.
Proof. intros H. unfold deref. by apply list_lookup_total_correct. Qed.

Lemma deref_insert_eq h p x : (p < length h)%nat -> deref (<[p:=x]> h) p = x.
Proof. intros H. unfold deref. by apply list_lookup_total_insert_eq. Qed.

Lemma deref_insert_ne h p q x : p <> q -> deref (<[p:=x]> h) q = deref h q.
Proof. intros H. unfold deref. by apply list_lookup_total_insert_ne. Qed.

Lemma deref_dangling h p : (length h <= p)%nat -> deref h p = inhabitant.
Proof.
  intros H. unfold deref. rewrite list_lookup_total_alt.
  by rewrite (lookup_ge_None_2 h p H).
Qed.

Lemma deref_open_valid h p : isFilled (deref h p) = false -> h !! p = Some (deref h p).
Proof.
  intros H. destruct (h !! p) as [o|] eqn:E.
  - by rewrite (deref_Some _ _ _ E).
  - apply lookup_ge_None_1 in E. rewrite (deref_dangling _ _ E) in H. discriminate.
Qed.

Lemma deref_snoc h o : deref (h ++ [o]) (length h) = o.
Proof. apply deref_Some. by apply list_lookup_middle. Qed.

Lemma deref_app_l h h' p o : h !! p = Some o -> deref (h ++ h') p = o.
Proof. intros H. apply deref_Some. by apply lookup_app_l_Some. Qed.

Lemma same_static_refl o : same_static o o.
Proof. by repeat split. Qed.

Lemma same_static_trans o1 o2 o3 :
  same_static o1 o2 -> same_static o2 o3 -> same_static o1 o3.
Proof. unfold same_static. intros (?&?&?&?&?) (?&?&?&?&?). repeat split; congruence. Qed.

Lemma reduceQuantity_static o q : same_static o (reduceQuantity o q).1.
Proof. by repeat split. Qed.

Lemma reduceQuantity_remaining o q :
  is_u64 (remaining_quantity_ o) -> 0 <= q ->
  remaining_quantity_ (reduceQuantity o q).1
  = remaining_quantity_ o - Z.min q (remaining_quantity_ o).
Proof.
  intros Ho Hq. simpl. apply wrap64_small. unfold is_u64 in *. lia.
Qed.

Lemma reduce_at_length h p q : length (Engine.reduce_at h p q) = length h.
Proof. unfold Engine.reduce_at. apply length_insert. Qed.

Lemma reduce_at_lookup_ne h p q x : p <> x -> Engine.reduce_at h p q !! x = h !! x.
Proof. intros H. unfold Engine.reduce_at. by apply list_lookup_insert_ne. Qed.

Lemma reduce_at_lookup_eq h p q o :
  h !! p = Some o -> Engine.reduce_at h p q !! p = Some (reduceQuantity o q).1.
Proof.
  intros H. unfold Engine.reduce_at. rewrite (deref_Some _ _ _ H).
  apply list_lookup_insert_eq. by apply lookup_lt_is_Some_1; eauto.
Qed.

Lemma reduce_at_deref_ne h p q x : p <> x -> deref (Engine.reduce_at h p q) x = deref h x.
Proof. intros H. unfold Engine.reduce_at. by apply deref_insert_ne. Qed.

Lemma reduce_at_static h p q x : same_static (deref h x) (deref (Engine.reduce_at h p q) x).
Proof.
  destruct (decide (p = x)) as [->|Hne].
  - destruct (h !! x) as [o|] eqn:E.
    + rewrite (deref_Some _ _ _ (reduce_at_lookup_eq _ _ q _ E)).
      rewrite (deref_Some _ _ _ E). apply reduceQuantity_static.
    + apply lookup_ge_None_1 in E. unfold Engine.reduce_at.
      rewrite list_insert_ge by done. apply same_static_refl.
  - rewrite reduce_at_deref_ne by done. apply same_static_refl.
Qed.

(** ** Counting the orders that are still open *)

Lemma count_open_insert_le h i o' :
  (forall o, h !! i = Some o -> isFilled o' = false -> isFilled o = false) ->
  (count_open (<[i:=o']> h) <= count_open h)%nat.
Proof.
  unfold count_open. revert i. induction h as [|a h IH]; intros i H; [done|].
  destruct i as [|i]; simpl.
  - rewrite !filter_cons. specialize (H a eq_refl).
    destruct (decide (isFilled o' = false)), (decide (isFilled a = false));
      simpl; try lia. tauto.
  - rewrite !filter_cons. specialize (IH i H).
    destruct (decide (isFilled a = false)); simpl; lia.
Qed.

Lemma count_open_insert_lt h i o o' :
  h !! i = Some o -> isFilled o = false -> isFilled o' = true ->
  (count_open (<[i:=o']> h) < count_open h)%nat.
Proof.
  unfold count_open. revert i. induction h as [|a h IH]; intros i H Ho Ho'; [done|].
  destruct i as [|i]; simpl in *.
  - inversion H; subst a. rewrite !filter_cons.
    destruct (decide (isFilled o' = false)), (decide (isFilled o = false));
      simpl; try lia; congruence.
  - rewrite !filter_cons. specialize (IH i H Ho Ho').
    destruct (decide (isFilled a = false)); simpl; lia.
Qed.

Lemma count_open_length h : (count_open h <= length h)%nat.
Proof. unfold count_open. apply length_filter. Qed.

Lemma heap_u64_reduce_at h p q : heap_u64 h -> heap_u64 (Engine.reduce_at h p q).
Proof.
  intros Hh x o Hx. destruct (decide (p = x)) as [->|Hne].
  - destruct (h !! x) as [o0|] eqn:E.
    + rewrite (reduce_at_lookup_eq _ _ q _ E) in Hx. inversion Hx; subst o.
      simpl. apply wrap64_range.
    + apply lookup_ge_None_1 in E. unfold Engine.reduce_at in Hx.
      rewrite list_insert_ge in Hx by done. apply lookup_ge_None_2 in E. congruence.
  - rewrite reduce_at_lookup_ne in Hx by done. eauto.
Qed.

Lemma isFilled_false o : isFilled o = false <-> remaining_quantity_ o <> 0.
Proof. unfold isFilled. apply Z.eqb_neq. Qed.

Lemma isFilled_true o : isFilled o = true <-> remaining_quantity_ o = 0.
Proof. unfold isFilled. apply Z.eqb_eq. Qed.

(** ** The search for the best match *)

Lemma scan_step_sound h o acc c m bp :
  Engine.scan_step h o acc c = (Some m, bp) ->
  acc.1 = Some m
  \/ (m = c /\ isFilled (deref h c) = false
      /\ side_ (deref h c) = Engine.opposing (side_ o)
      /\ compatible (side_ o) (price_ o) (price_ (deref h c))).
Proof.
  destruct acc as [bm bp0]. unfold Engine.scan_step.
  destruct (isFilled (deref h c)) eqn:Hf; [intros [= -> ->]; by left|].
  destruct (bool_decide (side_ o = BUY) && bool_decide (side_ (deref h c) = SELL)
            && (price_ (deref h c) <=? price_ o)) eqn:E1.
  - apply andb_prop in E1 as [E1 E3]. apply andb_prop in E1 as [E1 E2].
    apply bool_decide_eq_true in E1, E2. apply Z.leb_le in E3.
    cbn [andb]. destruct bm as [b|]; [destruct (_ <? _)|]; intros [= <- <-];
      try (by left); right; rewrite E1, E2; repeat split; done.
  - destruct (bool_decide (side_ o = SELL) && bool_decide (side_ (deref h c) = BUY)
              && (price_ o <=? price_ (deref h c))) eqn:E2.
    + apply andb_prop in E2 as [E2 E4]. apply andb_prop in E2 as [E2 E3].
      apply bool_decide_eq_true in E2, E3. apply Z.leb_le in E4.
      cbn [andb]. destruct bm as [b|]; [destruct (_ <? _)|]; intros [= <- <-];
        try (by left); right; rewrite E2, E3; repeat split; done.
    + simpl. intros [= <- <-]. by left.
Qed.

Lemma find_best_match_sound_gen h o l acc m bp :
  fold_left (Engine.scan_step h o) l acc = (Some m, bp) ->
  acc.1 = Some m
  \/ (m ∈ l /\ isFilled (deref h m) = false
      /\ side_ (deref h m) = Engine.opposing (side_ o)
      /\ compatible (side_ o) (price_ o) (price_ (deref h m))).
Proof.
  revert acc. induction l as [|c l IH]; simpl; intros acc H.
  - left. by rewrite H.
  - destruct (IH _ H) as [Hacc|(Hin & ?)].
    + destruct (Engine.scan_step h o acc c) as [bm' bp'] eqn:E. simpl in Hacc. subst bm'.
      destruct (scan_step_sound _ _ _ _ _ _ E) as [?|(-> & ?)]; [by left|].
      right. split; [by left|done].
    + right. split; [by right|done].
Qed.

(** Whatever the loop selects is an open order of the opposite side, taken
    from the queue, at a price the incoming limit admits. *)
Lemma find_best_match_sound h o l m bp :
  Engine.find_best_match h o l = (Some m, bp) ->
  m ∈ l /\ isFilled (deref h m) = false
  /\ side_ (deref h m) = Engine.opposing (side_ o)
  /\ compatible (side_ o) (price_ o) (price_ (deref h m)).
Proof.
  intros H. apply find_best_match_sound_gen in H as [H|H]; [discriminate|done].
Qed.

Lemma scan_step_compatible h o k c bm bp :
  isFilled (deref h c) = false -> side_ (deref h c) = Engine.opposing (side_ o) ->
  price_ (deref h c) = k -> compatible (side_ o) (price_ o) k ->
  Engine.scan_step h o (bm, bp) c
  = (match bm with
     | None => Some c
     | Some b => if timestamp_ (deref h c) <? timestamp_ (deref h b) then Some c else Some b
     end, k).
Proof.
  intros Hf Hs Hp Hc. unfold Engine.scan_step. rewrite Hf, Hs, Hp.
  destruct (side_ o); simpl in *.
  - assert ((k <=? price_ o) = true) as -> by by apply Z.leb_le.
    simpl. destruct bm as [b|]; [|done]. by destruct (_ <? _).
  - assert ((price_ o <=? k) = true) as -> by by apply Z.leb_le.
    simpl. destruct bm as [b|]; [|done]. by destruct (_ <? _).
Qed.

Lemma scan_step_incompatible h o k c acc :
  side_ (deref h c) = Engine.opposing (side_ o) ->
  price_ (deref h c) = k -> ~ compatible (side_ o) (price_ o) k ->
  Engine.scan_step h o acc c = acc.
Proof.
  intros Hs Hp Hc. destruct acc as [bm bp]. unfold Engine.scan_step.
  destruct (isFilled _); [done|]. rewrite Hs, Hp.
  destruct (side_ o); simpl in *.
  - assert ((k <=? price_ o) = false) as -> by (apply Z.leb_gt; lia). done.
  - assert ((price_ o <=? k) = false) as -> by (apply Z.leb_gt; lia). done.
Qed.

Lemma scan_uniform_from h o k l b bp :
  uniform h (Engine.opposing (side_ o)) k l -> compatible (side_ o) (price_ o) k ->
  exists m bp', fold_left (Engine.scan_step h o) l (Some b, bp) = (Some m, bp')
    /\ (l <> [] -> bp' = k)
    /\ (m = b \/ m ∈ l)
    /\ timestamp_ (deref h m) <= timestamp_ (deref h b)
    /\ forall c, c ∈ l -> timestamp_ (deref h m) <= timestamp_ (deref h c).
Proof.
  intros Hu Hc. revert b bp Hu. induction l as [|c l IH]; intros b bp Hu.
  - exists b, bp. simpl. repeat split; [done|by left|lia|].
    intros c Hin. by apply not_elem_of_nil in Hin.
  - cbn [fold_left]. destruct (Hu c) as (Hf & Hs & Hp); [by left|].
    rewrite (scan_step_compatible _ _ k) by done.
    assert (uniform h (Engine.opposing (side_ o)) k l) as Hu'.
    { intros x Hx. apply Hu. by right. }
    destruct (timestamp_ (deref h c) <? timestamp_ (deref h b)) eqn:Ets.
    + apply Z.ltb_lt in Ets.
      destruct (IH c k Hu') as (m & bp' & Hfold & Hbp & Hm & Hle & Hall).
      exists m, k. assert (bp' = k) as -> by (destruct l; [simpl in Hfold; congruence|by apply Hbp]).
      repeat split; [done|..].
      * right. destruct Hm as [->|Hm]; [by left|by right].
      * lia.
      * intros x Hx. apply elem_of_cons in Hx as [->|Hx]; [done|by apply Hall].
    + apply Z.ltb_ge in Ets.
      destruct (IH b k Hu') as (m & bp' & Hfold & Hbp & Hm & Hle & Hall).
      exists m, k. assert (bp' = k) as -> by (destruct l; [simpl in Hfold; congruence|by apply Hbp]).
      repeat split; [done|..].
      * destruct Hm as [->|Hm]; [by left|right; by right].
      * done.
      * intros x Hx. apply elem_of_cons in Hx as [->|Hx]; [lia|by apply Hall].
Qed.

(** On a level of the book the search returns the order with the earliest
    time stamp, and the level's price. *)
Lemma find_best_match_uniform h o k l :
  uniform h (Engine.opposing (side_ o)) k l -> l <> [] ->
  compatible (side_ o) (price_ o) k ->
  exists m, Engine.find_best_match h o l = (Some m, k)
    /\ m ∈ l /\ forall c, c ∈ l -> timestamp_ (deref h m) <= timestamp_ (deref h c).
Proof.
  intros Hu Hne Hc. destruct l as [|c l]; [done|].
  unfold Engine.find_best_match. cbn [fold_left].
  destruct (Hu c) as (Hf & Hs & Hp); [by left|].
  rewrite (scan_step_compatible _ _ k) by done.
  assert (uniform h (Engine.opposing (side_ o)) k l) as Hu'.
  { intros x Hx. apply Hu. by right. }
  destruct (scan_uniform_from h o k l c k Hu' Hc) as (m & bp' & Hfold & Hbp & Hm & Hle & Hall).
  exists m. assert (bp' = k) as -> by (destruct l; [simpl in Hfold; congruence|by apply Hbp]).
  repeat split; [done|..].
  - destruct Hm as [->|Hm]; [by left|by right].
  - intros x Hx. apply elem_of_cons in Hx as [->|Hx]; [done|by apply Hall].
Qed.

Lemma find_best_match_none h o k l :
  uniform h (Engine.opposing (side_ o)) k l ->
  ~ compatible (side_ o) (price_ o) k ->
  Engine.find_best_match h o l = (None, 0).
Proof.
  intros Hu Hc. unfold Engine.find_best_match. generalize (@None ptr, 0).
  induction l as [|c l IH]; intros acc; [done|]. cbn [fold_left].
  destruct (Hu c) as (Hf & Hs & Hp); [by left|].
  rewrite (scan_step_incompatible _ _ k) by done.
  apply IH. intros x Hx. apply Hu. by right.
Qed.

(** ** One pass of the matching loop *)

Lemma notifyOrderCallback_heap s x : heap (Engine.notifyOrderCallback s x) = heap s.
Proof. unfold Engine.notifyOrderCallback. by destruct (order_callback_ s). Qed.

Lemma notifyOrderCallback_book s x :
  order_book_ (Engine.notifyOrderCallback s x) = order_book_ s.
Proof. unfold Engine.notifyOrderCallback. by destruct (order_callback_ s). Qed.

Lemma notifyOrderCallback_trades s x :
  trades_ (Engine.notifyOrderCallback s x) = trades_ s.
Proof. unfold Engine.notifyOrderCallback. by destruct (order_callback_ s). Qed.

Lemma executeTrade_proj s a b pr q :
  heap (Engine.executeTrade s a b pr q).1 = heap s
  /\ order_book_ (Engine.executeTrade s a b pr q).1 = order_book_ s
  /\ trades_ (Engine.executeTrade s a b pr q).1
     = trades_ s ++ [(Engine.executeTrade s a b pr q).2].
Proof.
  unfold Engine.executeTrade, Engine.notifyTradeCallback.
  destruct (decide _); simpl; by destruct (trade_callback_ s).
Qed.

Lemma match_iter_Some s p m s' :
  Engine.match_iter s p = Some (m, s') ->
  let h := heap s in
  let q := Z.min (remaining_quantity_ (deref h p)) (remaining_quantity_ (deref h m)) in
  let h' := Engine.reduce_at (Engine.reduce_at h p q) m q in
  isFilled (deref h p) = false
  /\ (exists bp,
       Engine.find_best_match h (deref h p)
         (Book.getOrdersForMatching (order_book_ s) (Engine.opposing (side_ (deref h p))))
       = (Some m, bp)
       /\ trades_ s' = trades_ s ++ [(Engine.executeTrade s p m bp q).2])
  /\ heap s' = h'
  /\ order_book_ s' = book_after_fill h' (order_book_ s) p m q.
Proof.
  unfold Engine.match_iter. intros H.
  destruct (isFilled (deref (heap s) p)) eqn:Hf; [discriminate|].
  destruct (Book.getOrdersForMatching _ _) as [|c l] eqn:El; [discriminate|].
  destruct (Engine.find_best_match _ _ _) as [[bm|] bp] eqn:Ef; [|discriminate].
  injection H as <- <-.
  pose proof (executeTrade_proj s p bm bp
    (Z.min (remaining_quantity_ (deref (heap s) p))
           (remaining_quantity_ (deref (heap s) bm)))) as (Hh1 & Hb1 & Ht1).
  cbn zeta. split; [done|]. split.
  - exists bp. split; [done|].
    cbn [Engine.set_heap Engine.set_book heap order_book_ trades_].
    match goal with |- context [if ?c then Engine.notifyOrderCallback _ _ else _] =>
      destruct c end.
    + rewrite notifyOrderCallback_trades. simpl. exact Ht1.
    + simpl. exact Ht1.
  - cbn [Engine.set_heap Engine.set_book heap order_book_ trades_].
    rewrite Hh1, Hb1. unfold book_after_fill.
    match goal with |- context [if ?c then Engine.notifyOrderCallback _ _ else _] =>
      destruct c end.
    + by rewrite notifyOrderCallback_heap, notifyOrderCallback_book.
    + done.
Qed.

Lemma match_iter_None_filled s p :
  isFilled (deref (heap s) p) = true -> Engine.match_iter s p = None.
Proof. intros H. unfold Engine.match_iter. by rewrite H. Qed.

Lemma match_iter_static s p m s' x :
  Engine.match_iter s p = Some (m, s') ->
  same_static (deref (heap s) x) (deref (heap s') x).
Proof.
  intros H. apply match_iter_Some in H as (_ & _ & -> & _).
  eapply same_static_trans; apply reduce_at_static.
Qed.

Lemma match_iter_length s p m s' :
  Engine.match_iter s p = Some (m, s') -> length (heap s') = length (heap s).
Proof.
  intros H. apply match_iter_Some in H as (_ & _ & -> & _).
  by rewrite !reduce_at_length.
Qed.

Lemma match_iter_u64 s p m s' :
  Engine.match_iter s p = Some (m, s') -> heap_u64 (heap s) -> heap_u64 (heap s').
Proof.
  intros H Hu. apply match_iter_Some in H as (_ & _ & -> & _).
  by do 2 apply heap_u64_reduce_at.
Qed.

Lemma count_open_reduce_le h p q :
  heap_u64 h -> 0 <= q ->
  (count_open (Engine.reduce_at h p q) <= count_open h)%nat.
Proof.
  intros Hu Hq. unfold Engine.reduce_at. apply count_open_insert_le.
  intros o Ho. rewrite (deref_Some _ _ _ Ho). rewrite !isFilled_false.
  pose proof (Hu _ _ Ho) as Hr.
  rewrite reduceQuantity_remaining by done. unfold is_u64 in Hr. lia.
Qed.

Lemma count_open_reduce_lt h p q o :
  heap_u64 h -> h !! p = Some o -> 0 < remaining_quantity_ o <= q ->
  (count_open (Engine.reduce_at h p q) < count_open h)%nat.
Proof.
  intros Hu Ho Hq. unfold Engine.reduce_at. rewrite (deref_Some _ _ _ Ho).
  apply (count_open_insert_lt h p o); [done|..].
  - apply isFilled_false. lia.
  - apply isFilled_true. pose proof (Hu _ _ Ho) as Hr.
    rewrite reduceQuantity_remaining by (done || lia). lia.
Qed.

(** Every pass fills an order that was open. *)
Lemma match_iter_count s p m s' :
  heap_u64 (heap s) ->
  Engine.match_iter s p = Some (m, s') ->
  (count_open (heap s') < count_open (heap s))%nat.
Proof.
  intros Hu H. apply match_iter_Some in H as (Hp & (bp & Hfind & _) & -> & _).
  apply find_best_match_sound in Hfind as (_ & Hm & _).
  pose proof (deref_open_valid _ _ Hp) as Hpv.
  pose proof (deref_open_valid _ _ Hm) as Hmv.
  set (o := deref (heap s) p) in *. set (mo := deref (heap s) m) in *.
  pose proof (Hu _ _ Hpv) as Hpr. pose proof (Hu _ _ Hmv) as Hmr.
  apply isFilled_false in Hp, Hm. unfold is_u64 in Hpr, Hmr.
  set (q := Z.min (remaining_quantity_ o) (remaining_quantity_ mo)).
  assert (0 < q) as Hq by (unfold q; lia).
  destruct (decide (remaining_quantity_ o <= remaining_quantity_ mo)) as [Hle|Hgt].
  - (* the incoming order is filled *)
    eapply Nat.le_lt_trans.
    + apply count_open_reduce_le; [by apply heap_u64_reduce_at|lia].
    + apply (count_open_reduce_lt _ _ _ o); [done..|]. unfold q. lia.
  - (* the maker is filled *)
    assert (p <> m) as Hne by (intros ->; unfold o, mo in *; lia).
    eapply Nat.lt_le_trans.
    + apply (count_open_reduce_lt _ _ _ mo); [by apply heap_u64_reduce_at|..].
      * by rewrite reduce_at_lookup_ne.
      * unfold q. lia.
    + apply count_open_reduce_le; [done|lia].
Qed.

Lemma match_loop_exits fuel s p n :
  heap_u64 (heap s) -> (count_open (heap s) <= fuel)%nat ->
  Engine.match_iter (Engine.match_loop fuel s p n).1 p = None.
Proof.
  revert s n. induction fuel as [|fuel IH]; intros s n Hu Hc; simpl.
  - destruct (Engine.match_iter s p) as [[m s']|] eqn:E; [|done].
    pose proof (match_iter_count _ _ _ _ Hu E). lia.
  - destruct (Engine.match_iter s p) as [[m s']|] eqn:E; [|done].
    apply IH.
    + eapply match_iter_u64; eauto.
    + pose proof (match_iter_count _ _ _ _ Hu E). lia.
Qed.

(** The loop is left by its own condition or by a [break], never because
    the bound on the number of passes was reached. *)
Lemma matchOrder_exits s p :
  heap_u64 (heap s) -> Engine.match_iter (Engine.matchOrder s p).1 p = None.
Proof.
  intros Hu. unfold Engine.matchOrder. apply match_loop_exits; [done|].
  apply count_open_length.
Qed.

(** ** Elementary facts about the book operations *)

Lemma get_set_same b side m :
  Book.getPriceLevelMap (Book.setPriceLevelMap b side m) side = m.
Proof. by destruct side. Qed.

Lemma get_set_other b side side' m :
  side' <> side ->
  Book.getPriceLevelMap (Book.setPriceLevelMap b side m) side'
  = Book.getPriceLevelMap b side'.
Proof. by destruct side, side'. Qed.

Lemma set_set b side m m' :
  Book.setPriceLevelMap (Book.setPriceLevelMap b side m) side m'
  = Book.setPriceLevelMap b side m'.
Proof. by destruct side. Qed.

Lemma orders_set b side m : orders_ (Book.setPriceLevelMap b side m) = orders_ b.
Proof. by destruct side. Qed.

Lemma get_set_orders b m side :
  Book.getPriceLevelMap (Book.set_orders b m) side = Book.getPriceLevelMap b side.
Proof. by destruct side. Qed.

Lemma lookup_upd_level b side k v side' k' :
  Book.getPriceLevelMap (upd_level b side k v) side' !! k'
  = if decide (side' = side /\ k' = k) then Some v
    else Book.getPriceLevelMap b side' !! k'.
Proof.
  unfold upd_level. destruct (decide (side' = side)) as [->|Hs].
  - rewrite get_set_same. destruct (decide (k' = k)) as [->|Hk].
    + rewrite lookup_insert_eq. by rewrite decide_True.
    + rewrite lookup_insert_ne by done. rewrite decide_False by tauto. done.
  - rewrite get_set_other by done. rewrite decide_False by tauto. done.
Qed.

Lemma lookup_del_level b side k side' k' :
  Book.getPriceLevelMap (del_level b side k) side' !! k'
  = if decide (side' = side /\ k' = k) then None
    else Book.getPriceLevelMap b side' !! k'.
Proof.
  unfold del_level. destruct (decide (side' = side)) as [->|Hs].
  - rewrite get_set_same. destruct (decide (k' = k)) as [->|Hk].
    + rewrite lookup_delete_eq. by rewrite decide_True.
    + rewrite lookup_delete_ne by done. rewrite decide_False by tauto. done.
  - rewrite get_set_other by done. rewrite decide_False by tauto. done.
Qed.

Lemma orders_upd_level b side k v : orders_ (upd_level b side k v) = orders_ b.
Proof. apply orders_set. Qed.

Lemma orders_del_level b side k : orders_ (del_level b side k) = orders_ b.
Proof. apply orders_set. Qed.

(** *** Sums over a queue *)

Lemma sum_remaining_app h l1 l2 :
  sum_remaining h (l1 ++ l2) = sum_remaining h l1 + sum_remaining h l2.
Proof.
  unfold sum_remaining. induction l1 as [|x l1 IH]; simpl; [done|]. rewrite IH. lia.
Qed.

Lemma sum_remaining_ext h h' l :
  (forall x, x ∈ l ->
     remaining_quantity_ (deref h' x) = remaining_quantity_ (deref h x)) ->
  sum_remaining h' l = sum_remaining h l.
Proof.
  unfold sum_remaining. induction l as [|x l IH]; intros H; simpl; [done|].
  rewrite H by by left. rewrite IH; [done|]. intros y Hy. apply H. by right.
Qed.

Lemma sum_remaining_update h h' l m :
  NoDup l -> m ∈ l ->
  (forall x, x ∈ l -> x <> m ->
     remaining_quantity_ (deref h' x) = remaining_quantity_ (deref h x)) ->
  sum_remaining h' l
  = sum_remaining h l - remaining_quantity_ (deref h m)
    + remaining_quantity_ (deref h' m).
Proof.
  induction l as [|x l IH]; intros Hnd Hin H.
  - by apply not_elem_of_nil in Hin.
  - apply NoDup_cons in Hnd as [Hx Hnd]. cbn [sum_remaining foldr].
    fold (sum_remaining h' l). fold (sum_remaining h l).
    apply elem_of_cons in Hin as [<-|Hin].
    + rewrite (sum_remaining_ext h h' l); [lia|].
      intros y Hy. apply H; [by right|]. intros ->. done.
    + rewrite IH; [|done|done|].
      * rewrite (H x); [lia|by left|]. intros ->. done.
      * intros y Hy. apply H. by right.
Qed.

Lemma without_notin m l : m ∉ l -> without m l = l.
Proof.
  unfold without. induction l as [|x l IH]; intros H; [done|].
  rewrite filter_cons. apply not_elem_of_cons in H as [Hne Hl].
  rewrite decide_True by done. by rewrite IH.
Qed.

Lemma elem_of_without m l x : x ∈ without m l <-> x <> m /\ x ∈ l.
Proof. unfold without. by rewrite list_elem_of_filter. Qed.

Lemma NoDup_without m l : NoDup l -> NoDup (without m l).
Proof. unfold without. apply NoDup_filter. Qed.

Lemma sum_remaining_without h l m :
  NoDup l -> m ∈ l ->
  sum_remaining h (without m l)
  = sum_remaining h l - remaining_quantity_ (deref h m).
Proof.
  induction l as [|x l IH]; intros Hnd Hin.
  - by apply not_elem_of_nil in Hin.
  - apply NoDup_cons in Hnd as [Hx Hnd]. unfold without. rewrite filter_cons.
    fold (without m l). cbn [sum_remaining foldr]. fold (sum_remaining h l).
    destruct (decide (x <> m)) as [Hne|Heq].
    + apply elem_of_cons in Hin as [->|Hin]; [done|].
      cbn [sum_remaining foldr]. fold (sum_remaining h (without m l)).
      rewrite IH by done. lia.
    + assert (x = m) as -> by (destruct (decide (x = m)); tauto).
      rewrite without_notin by done. lia.
Qed.

(** *** [removeOrder] *)

Lemma erase_first_found h i l m :
  NoDup l -> m ∈ l -> id_ (deref h m) = i ->
  (forall x, x ∈ l -> id_ (deref h x) = i -> x = m) ->
  Level.erase_first h i l = Some (m, without m l).
Proof.
  induction l as [|x l IH]; intros Hnd Hin Hid Huniq.
  - by apply not_elem_of_nil in Hin.
  - apply NoDup_cons in Hnd as [Hx Hnd]. simpl. unfold without. rewrite filter_cons.
    fold (without m l).
    destruct (id_ (deref h x) =? i) eqn:E.
    + apply Z.eqb_eq in E. assert (x = m) as -> by (apply Huniq; [by left|done]).
      rewrite decide_False by tauto. by rewrite without_notin.
    + apply Z.eqb_neq in E. apply elem_of_cons in Hin as [->|Hin]; [done|].
      rewrite IH; [|done..|].
      * rewrite decide_True; [done|]. intros ->. done.
      * intros y Hy. apply Huniq. by right.
Qed.

Lemma erase_first_notfound h i l :
  (forall x, x ∈ l -> id_ (deref h x) <> i) -> Level.erase_first h i l = None.
Proof.
  induction l as [|x l IH]; intros H; [done|]. simpl.
  destruct (id_ (deref h x) =? i) eqn:E.
  - apply Z.eqb_eq in E. exfalso. apply (H x); [by left|done].
  - rewrite IH; [done|]. intros y Hy. apply H. by right.
Qed.

(** ** What the book operations compute on a consistent book *)

Lemma updateOrderQuantity_unknown h b i old new :
  orders_ b !! i = None -> Book.updateOrderQuantity h b i old new = b.
Proof. intros H. unfold Book.updateOrderQuantity. by rewrite H. Qed.

Lemma updateOrderQuantity_known h b i m l old new :
  orders_ b !! i = Some m ->
  Book.getPriceLevelMap b (side_ (deref h m)) !! price_ (deref h m) = Some l ->
  Book.updateOrderQuantity h b i old new
  = upd_level b (side_ (deref h m)) (price_ (deref h m))
              (Level.updateQuantity l i old new).
Proof. intros H Hl. unfold Book.updateOrderQuantity. by rewrite H, Hl. Qed.

Lemma cancelOrder_unknown h b i :
  orders_ b !! i = None -> Book.cancelOrder h b i = (b, false).
Proof. intros H. unfold Book.cancelOrder. by rewrite H. Qed.

Lemma cancelOrder_known h b i m l :
  orders_ b !! i = Some m ->
  Book.getPriceLevelMap b (side_ (deref h m)) !! price_ (deref h m) = Some l ->
  Level.erase_first h i (orders l) = Some (m, without m (orders l)) ->
  Book.cancelOrder h b i
  = (book_without b (side_ (deref h m)) (price_ (deref h m)) l m i
                  (remaining_quantity_ (deref h m)), true).
Proof.
  intros H Hl He. unfold Book.cancelOrder, Level.removeOrder, book_without.
  rewrite H, Hl, He. cbn [andb]. unfold Level.isEmpty. cbn [orders].
  destruct (without m (orders l)) as [|x rest] eqn:Ew.
  - unfold Book.removeEmptyPriceLevel. rewrite get_set_same, lookup_insert_eq.
    cbn [Level.isEmpty orders]. rewrite set_set, delete_insert_eq.
    fold (del_level b (side_ (deref h m)) (price_ (deref h m))).
    by rewrite orders_del_level.
  - fold (upd_level b (side_ (deref h m)) (price_ (deref h m))
            (mkLevel (price l)
               (wrap64 (total_quantity l - remaining_quantity_ (deref h m)))
               (x :: rest))).
    by rewrite orders_upd_level.
Qed.

Lemma addOrder_known h b p :
  Book.addOrder h b (Some p)
  = (upd_level (Book.set_orders b (<[id_ (deref h p) := p]> (orders_ b)))
       (side_ (deref h p)) (price_ (deref h p))
       (Level.addOrder h
          (default (mkLevel (price_ (deref h p)) 0 [])
             (Book.getPriceLevelMap b (side_ (deref h p)) !! price_ (deref h p)))
          p), true).
Proof.
  unfold Book.addOrder. cbn zeta. rewrite get_set_orders.
  by destruct (Book.getPriceLevelMap b _ !! _).
Qed.

Lemma lookup_book_without b side k l m i r side' k' :
  Book.getPriceLevelMap (book_without b side k l m i r) side' !! k'
  = if decide (side' = side /\ k' = k)
    then match without m (orders l) with
         | [] => None
         | _ => Some (mkLevel (price l) (wrap64 (total_quantity l - r))
                              (without m (orders l)))
         end
    else Book.getPriceLevelMap b side' !! k'.
Proof.
  unfold book_without. rewrite get_set_orders.
  destruct (without m (orders l)).
  - apply lookup_del_level.
  - apply lookup_upd_level.
Qed.

Lemma orders_book_without b side k l m i r :
  orders_ (book_without b side k l m i r) = delete i (orders_ b).
Proof. done. Qed.

(** ** Consistency of the book is kept *)

Lemma member_level h b side k l p o :
  book_wf h b -> Book.getPriceLevelMap b side !! k = Some l -> p ∈ orders l ->
  h !! p = Some o ->
  side_ o = side /\ price_ o = k /\ orders_ b !! id_ o = Some p.
Proof.
  intros Hwf Hl Hp Ho.
  destruct (l_members _ _ _ _ _ (b_levels _ _ Hwf _ _ _ Hl) _ Hp) as (o' & Ho' & ?).
  by assert (o' = o) as -> by congruence.
Qed.

Lemma index_level h b i m mo :
  book_wf h b -> orders_ b !! i = Some m -> h !! m = Some mo ->
  id_ mo = i
  /\ exists l, Book.getPriceLevelMap b (side_ mo) !! price_ mo = Some l /\ m ∈ orders l.
Proof.
  intros Hwf Hi Hm. destruct (b_index _ _ Hwf _ _ Hi) as (o & Ho & Hid & Hrest).
  assert (o = mo) as -> by congruence. done.
Qed.

(** Consistency after an order left its level and the index. *)
Lemma book_without_wf h b i m mo l :
  book_wf h b -> orders_ b !! i = Some m -> h !! m = Some mo ->
  Book.getPriceLevelMap b (side_ mo) !! price_ mo = Some l ->
  book_wf h (book_without b (side_ mo) (price_ mo) l m i (remaining_quantity_ mo)).
Proof.
  intros Hwf Hi Hm Hl.
  destruct (index_level _ _ _ _ _ Hwf Hi Hm) as (Hid & l0 & Hl0 & Hin).
  assert (l0 = l) as -> by congruence.
  pose proof (b_levels _ _ Hwf _ _ _ Hl) as Hlok.
  assert (forall x ox, h !! x = Some ox -> orders_ b !! id_ ox = Some x -> x <> m ->
            delete i (orders_ b) !! id_ ox = Some x) as Hkeep.
  { intros x ox Hx Hix Hne. rewrite lookup_delete_ne; [done|].
    intros Hc. subst i. congruence. }
  split.
  - intros side k l' Hl'. rewrite lookup_book_without in Hl'.
    destruct (decide (side = side_ mo /\ k = price_ mo)) as [[-> ->]|Hne].
    + destruct (without m (orders l)) as [|y rest] eqn:Ew; [discriminate|].
      injection Hl' as <-. rewrite <- Ew. split; cbn [orders total_quantity].
      * rewrite Ew. done.
      * apply NoDup_without, Hlok.
      * rewrite (l_total _ _ _ _ _ Hlok), wrap64_sub_l.
        rewrite sum_remaining_without; [|apply Hlok|done].
        by rewrite (deref_Some _ _ _ Hm).
      * intros x Hx. apply elem_of_without in Hx as [Hne Hx].
        destruct (l_members _ _ _ _ _ Hlok _ Hx) as (ox & Hox & Hs & Hp & Hix).
        exists ox. repeat split; [done..|].
        rewrite orders_book_without. by apply (Hkeep x).
    + pose proof (b_levels _ _ Hwf _ _ _ Hl') as Hlok'. split; try apply Hlok'.
      intros x Hx.
      destruct (l_members _ _ _ _ _ Hlok' _ Hx) as (ox & Hox & Hs & Hp & Hix).
      exists ox. repeat split; [done..|].
      rewrite orders_book_without. apply (Hkeep x); [done..|].
      intros ->. assert (ox = mo) as -> by congruence. apply Hne; split; congruence.
  - intros j x Hj. rewrite orders_book_without in Hj.
    apply lookup_delete_Some in Hj as [Hji Hj].
    destruct (b_index _ _ Hwf _ _ Hj) as (ox & Hox & Hidx & lx & Hlx & Hxin).
    exists ox. repeat split; [done..|].
    assert (x <> m) as Hxm by (intros ->; congruence).
    unfold resting_at. rewrite lookup_book_without.
    destruct (decide (side_ ox = side_ mo /\ price_ ox = price_ mo)) as [[Hs Hp]|Hne].
    + rewrite Hs, Hp in Hlx. assert (lx = l) as -> by congruence.
      assert (x ∈ without m (orders l)) as Hw by by apply elem_of_without.
      destruct (without m (orders l)) as [|y rest] eqn:Ew.
      * by apply not_elem_of_nil in Hw.
      * eexists. split; [done|]. exact Hw.
    + eauto.
Qed.

Lemma wrap64_fill a b c : wrap64 (wrap64 (a - wrap64 (c + b)) + c) = wrap64 (a - b).
Proof.
  unfold wrap64. rewrite Zplus_mod_idemp_l.
  replace (a - (c + b) mod 2 ^ 64 + c) with ((a + c) - (c + b) mod 2 ^ 64) by lia.
  rewrite Zminus_mod_idemp_r. f_equal. lia.
Qed.

(** Consistency after a resting order was filled for [q]: the store changes
    at [m] alone (as far as the book can see) and the level's aggregate is
    lowered by [q]. *)
Lemma fill_wf h h' b i m mo mo' l q t :
  book_wf h b -> orders_ b !! i = Some m -> h !! m = Some mo ->
  h' !! m = Some mo' -> same_static mo mo' ->
  remaining_quantity_ mo' = remaining_quantity_ mo - q ->
  (forall j x, orders_ b !! j = Some x -> x <> m -> h' !! x = h !! x) ->
  Book.getPriceLevelMap b (side_ mo) !! price_ mo = Some l ->
  t = wrap64 (total_quantity l - q) ->
  book_wf h' (upd_level b (side_ mo) (price_ mo) (mkLevel (price l) t (orders l))).
Proof.
  intros Hwf Hi Hm Hm' Hss Hrem Hframe Hl ->.
  destruct (index_level _ _ _ _ _ Hwf Hi Hm) as (Hid & l0 & Hl0 & Hin).
  assert (l0 = l) as -> by congruence.
  assert (forall side k lx x, Book.getPriceLevelMap b side !! k = Some lx ->
            x ∈ orders lx ->
            exists ox ox', h !! x = Some ox /\ h' !! x = Some ox'
              /\ same_static ox ox' /\ side_ ox = side /\ price_ ox = k
              /\ orders_ b !! id_ ox = Some x
              /\ (x <> m -> ox' = ox)) as Hmem.
  { intros side k lx x Hlx Hx.
    destruct (l_members _ _ _ _ _ (b_levels _ _ Hwf _ _ _ Hlx) _ Hx)
      as (ox & Hox & Hs & Hp & Hix).
    destruct (decide (x = m)) as [->|Hne].
    - assert (ox = mo) as -> by congruence. exists mo, mo'.
      split_and!; try done.
    - exists ox, ox. rewrite (Hframe _ _ Hix Hne).
      split_and!; try done. }
  assert (forall side k lx, Book.getPriceLevelMap b side !! k = Some lx ->
            forall x, x ∈ orders lx ->
            exists o, h' !! x = Some o /\ side_ o = side /\ price_ o = k
              /\ orders_ (upd_level b (side_ mo) (price_ mo)
                            (mkLevel (price l) (wrap64 (total_quantity l - q))
                                     (orders l))) !! id_ o = Some x) as Hmem'.
  { intros side k lx Hlx x Hx.
    destruct (Hmem _ _ _ _ Hlx Hx)
      as (ox & ox' & Hox & Hox' & (S1 & S2 & S3 & _) & Hs & Hp & Hix & _).
    exists ox'. rewrite orders_upd_level, S1, S2, S3. done. }
  split.
  - intros side k l' Hl'. rewrite lookup_upd_level in Hl'.
    destruct (decide (side = side_ mo /\ k = price_ mo)) as [[-> ->]|Hne].
    + injection Hl' as <-. pose proof (b_levels _ _ Hwf _ _ _ Hl) as Hlok.
      split; cbn [orders total_quantity]; try apply Hlok.
      * rewrite (l_total _ _ _ _ _ Hlok), wrap64_sub_l. f_equal.
        rewrite (sum_remaining_update h h' (orders l) m); [| apply Hlok | done |].
        -- rewrite (deref_Some _ _ _ Hm), (deref_Some _ _ _ Hm'). lia.
        -- intros x Hx Hne.
           destruct (Hmem _ _ _ _ Hl Hx) as (ox & ox' & Hox & Hox' & _ & _ & _ & _ & Heq).
           rewrite (deref_Some _ _ _ Hox), (deref_Some _ _ _ Hox').
           by rewrite (Heq Hne).
      * by apply (Hmem' _ _ _ Hl).
    + pose proof (b_levels _ _ Hwf _ _ _ Hl') as Hlok'.
      split; try apply Hlok'.
      * rewrite (l_total _ _ _ _ _ Hlok'). f_equal. symmetry.
        apply sum_remaining_ext. intros x Hx.
        destruct (Hmem _ _ _ _ Hl' Hx) as (ox & ox' & Hox & Hox' & _ & Hs & Hp & _ & Heq).
        rewrite (deref_Some _ _ _ Hox), (deref_Some _ _ _ Hox').
        rewrite Heq; [done|]. intros ->.
        assert (ox = mo) as -> by congruence. apply Hne; split; congruence.
      * by apply (Hmem' _ _ _ Hl').
  - intros j x Hj. rewrite orders_upd_level in Hj.
    destruct (b_index _ _ Hwf _ _ Hj) as (ox & Hox & Hidx & lx & Hlx & Hxin).
    destruct (Hmem _ _ _ _ Hlx Hxin)
      as (ox0 & ox' & Hox0 & Hox' & (S1 & S2 & S3 & _) & _).
    assert (ox0 = ox) as -> by congruence.
    exists ox'. rewrite S1, S2, S3. repeat split; [done..|].
    unfold resting_at. rewrite lookup_upd_level.
    destruct (decide _) as [[Hs Hp]|Hne].
    + rewrite Hs, Hp in Hlx. assert (lx = l) as -> by congruence.
      eexists. split; [done|]. done.
    + eauto.
Qed.

(** Consistency after an order that is not in the book was added. *)
Lemma addOrder_wf h b p o :
  book_wf h b -> h !! p = Some o -> orders_ b !! id_ o = None ->
  book_wf h (Book.addOrder h b (Some p)).1.
Proof.
  intros Hwf Hp Hnew. rewrite addOrder_known. cbn [fst].
  rewrite (deref_Some _ _ _ Hp).
  set (l0 := default (mkLevel (price_ o) 0 [])
               (Book.getPriceLevelMap b (side_ o) !! price_ o)).
  set (b1 := Book.set_orders b (<[id_ o := p]> (orders_ b))).
  assert (forall side k lx x, Book.getPriceLevelMap b side !! k = Some lx ->
            x ∈ orders lx ->
            x <> p /\ exists ox, h !! x = Some ox /\ side_ ox = side /\ price_ ox = k
              /\ <[id_ o := p]> (orders_ b) !! id_ ox = Some x) as Hmem.
  { intros side k lx x Hlx Hx.
    destruct (l_members _ _ _ _ _ (b_levels _ _ Hwf _ _ _ Hlx) _ Hx)
      as (ox & Hox & Hs & Hk & Hix).
    assert (id_ ox <> id_ o) as Hne by (intros E; rewrite E in Hix; congruence).
    split.
    - intros ->. assert (ox = o) by congruence. congruence.
    - exists ox. rewrite lookup_insert_ne by done. done. }
  assert (NoDup (orders l0) /\ total_quantity l0 = wrap64 (sum_remaining h (orders l0))
          /\ forall x, x ∈ orders l0 ->
               x <> p /\ exists ox, h !! x = Some ox /\ side_ ox = side_ o
                 /\ price_ ox = price_ o
                 /\ <[id_ o := p]> (orders_ b) !! id_ ox = Some x) as (Hnd0 & Ht0 & Hm0).
  { unfold l0. destruct (Book.getPriceLevelMap b (side_ o) !! price_ o) as [l|] eqn:El.
    - pose proof (b_levels _ _ Hwf _ _ _ El) as Hlok. cbn [default].
      split_and!; [apply Hlok|apply Hlok|]. intros x Hx. by apply (Hmem _ _ _ _ El).
    - cbn [default orders total_quantity]. split_and!; [constructor|done|].
      intros x Hx. by apply not_elem_of_nil in Hx. }
  split.
  - intros side k l' Hl'. rewrite lookup_upd_level in Hl'.
    destruct (decide (side = side_ o /\ k = price_ o)) as [[-> ->]|Hne].
    + injection Hl' as <-. unfold Level.addOrder. split; cbn [orders total_quantity].
      * by destruct (orders l0).
      * apply NoDup_app. split_and!; [done| |apply NoDup_singleton].
        intros x Hx Hxp. apply list_elem_of_singleton in Hxp.
        by destruct (Hm0 x Hx).
      * rewrite Ht0, wrap64_add_l, sum_remaining_app. f_equal.
        cbn [sum_remaining foldr]. lia.
      * intros x Hx. apply elem_of_app in Hx as [Hx|Hx].
        -- destruct (Hm0 x Hx) as (_ & ox & ?). exists ox.
           by rewrite orders_upd_level.
        -- apply list_elem_of_singleton in Hx as ->. exists o.
           rewrite orders_upd_level. cbn [b1 Book.set_orders orders_].
           by rewrite lookup_insert_eq.
    + unfold b1 in Hl'. rewrite get_set_orders in Hl'.
      pose proof (b_levels _ _ Hwf _ _ _ Hl') as Hlok'. split; try apply Hlok'.
      intros x Hx. destruct (Hmem _ _ _ _ Hl' Hx) as (_ & ox & ?). exists ox.
      by rewrite orders_upd_level.
  - intros j x Hj. rewrite orders_upd_level in Hj. cbn [b1 Book.set_orders orders_] in Hj.
    unfold resting_at. apply lookup_insert_Some in Hj as [[<- <-]|[Hne Hj]].
    + exists o. split_and!; [done..|]. rewrite lookup_upd_level, decide_True by done.
      eexists. split; [done|]. unfold Level.addOrder. cbn [orders].
      apply elem_of_app. right. by apply list_elem_of_singleton.
    + destruct (b_index _ _ Hwf _ _ Hj) as (ox & Hox & Hidx & lx & Hlx & Hxin).
      exists ox. split_and!; [done..|]. rewrite lookup_upd_level.
      destruct (decide _) as [[Hs Hk]|Hne'].
      * eexists. split; [done|]. unfold Level.addOrder. cbn [orders].
        apply elem_of_app. left. unfold l0. rewrite <- Hs, <- Hk, Hlx. done.
      * unfold b1. rewrite get_set_orders. eauto.
Qed.

(** Where the book stands after [addOrder]. *)
Lemma addOrder_resting h b p :
  orders_ (Book.addOrder h b (Some p)).1 !! id_ (deref h p) = Some p
  /\ resting_at (Book.addOrder h b (Some p)).1 (side_ (deref h p))
                (price_ (deref h p)) p.
Proof.
  rewrite addOrder_known. cbn [fst]. split.
  - rewrite orders_upd_level. cbn [Book.set_orders orders_]. by rewrite lookup_insert_eq.
  - unfold resting_at. rewrite lookup_upd_level, decide_True by done.
    eexists. split; [done|]. unfold Level.addOrder. cbn [orders].
    apply elem_of_app. right. by apply list_elem_of_singleton.
Qed.

Lemma addOrder_keys h b p side k :
  is_Some (Book.getPriceLevelMap (Book.addOrder h b (Some p)).1 side !! k) <->
  (side = side_ (deref h p) /\ k = price_ (deref h p))
  \/ is_Some (Book.getPriceLevelMap b side !! k).
Proof.
  rewrite addOrder_known. cbn [fst]. rewrite lookup_upd_level, get_set_orders.
  destruct (decide _) as [Heq|Hne].
  - split; [by left|eauto].
  - split; [by right|]. intros [?|?]; done.
Qed.

(** ** Cancelling on a consistent book *)

Lemma cancel_book_spec h b i m :
  heap_ok h -> book_wf h b -> orders_ b !! i = Some m ->
  exists l,
    Book.getPriceLevelMap b (side_ (deref h m)) !! price_ (deref h m) = Some l
    /\ m ∈ orders l
    /\ Book.cancelOrder h b i
       = (book_without b (side_ (deref h m)) (price_ (deref h m)) l m i
                       (remaining_quantity_ (deref h m)), true).
Proof.
  intros Hh Hwf Hi.
  destruct (b_index _ _ Hwf _ _ Hi) as (mo & Hm & Hid & l & Hl & Hin).
  rewrite (deref_Some _ _ _ Hm). exists l. split_and!; [done..|].
  pose proof (cancelOrder_known h b i m l Hi) as Hc.
  rewrite (deref_Some _ _ _ Hm) in Hc. apply Hc; [done|].
  pose proof (b_levels _ _ Hwf _ _ _ Hl) as Hlok.
  apply erase_first_found; [apply Hlok|done|by rewrite (deref_Some _ _ _ Hm)|].
  intros x Hx Hidx.
  destruct (l_members _ _ _ _ _ Hlok _ Hx) as (ox & Hox & _).
  rewrite (deref_Some _ _ _ Hox) in Hidx.
  eapply (h_ids _ Hh); eauto. congruence.
Qed.

Lemma book_without_keys b side k l m i r side' k' :
  is_Some (Book.getPriceLevelMap (book_without b side k l m i r) side' !! k') ->
  Book.getPriceLevelMap b side !! k = Some l ->
  is_Some (Book.getPriceLevelMap b side' !! k').
Proof.
  rewrite lookup_book_without. intros H Hl.
  destruct (decide _) as [[-> ->]|Hne]; [by rewrite Hl|done].
Qed.

Lemma book_without_resting b side k l m i r side' x :
  Book.getPriceLevelMap b side !! k = Some l ->
  resting (book_without b side k l m i r) side' x -> resting b side' x.
Proof.
  intros Hl (k' & l' & Hl' & Hx). rewrite lookup_book_without in Hl'.
  destruct (decide _) as [[-> ->]|Hne].
  - destruct (without m (orders l)) as [|y rest] eqn:Ew; [discriminate|].
    injection Hl' as <-. cbn [orders] in Hx. rewrite <- Ew in Hx.
    apply elem_of_without in Hx as [Hxm Hx]. exists k, l. done.
  - by exists k', l'.
Qed.

Lemma upd_level_resting b side k l l' side' x :
  Book.getPriceLevelMap b side !! k = Some l -> orders l' = orders l ->
  resting (upd_level b side k l') side' x <-> resting b side' x.
Proof.
  intros Hl Ho. split.
  - intros (k' & lx & Hlx & Hx). rewrite lookup_upd_level in Hlx.
    destruct (decide _) as [[-> ->]|Hne].
    + injection Hlx as <-. rewrite Ho in Hx. by exists k, l.
    + by exists k', lx.
  - intros (k' & lx & Hlx & Hx).
    destruct (decide (side' = side /\ k' = k)) as [[-> ->]|Hne].
    + exists k, l'. unfold resting_at. rewrite lookup_upd_level, decide_True by done.
      split; [done|]. rewrite Ho. congruence.
    + exists k', lx. unfold resting_at. rewrite lookup_upd_level, decide_False by done.
      done.
Qed.

Lemma upd_level_keys b side k l l' side' k' :
  Book.getPriceLevelMap b side !! k = Some l ->
  is_Some (Book.getPriceLevelMap (upd_level b side k l') side' !! k') <->
  is_Some (Book.getPriceLevelMap b side' !! k').
Proof.
  intros Hl. rewrite lookup_upd_level.
  destruct (decide _) as [[-> ->]|Hne]; [|done]. rewrite Hl. split; eauto.
Qed.

(** ** The best level *)

Lemma getOrdersForMatching_spec b side :
  (Book.getPriceLevelMap b side = ∅ /\ Book.getOrdersForMatching b side = [])
  \/ exists k l, Book.getPriceLevelMap b side !! k = Some l
       /\ Book.getOrdersForMatching b side = orders l
       /\ forall k', is_Some (Book.getPriceLevelMap b side !! k') -> ~ better side k' k.
Proof.
  unfold Book.getOrdersForMatching. destruct side; cbn [Book.getPriceLevelMap].
  - destruct (max_key (bids_ b)) as [k|] eqn:E.
    + apply max_key_Some in E as [[l Hl] Hmax]. right. exists k, l. rewrite Hl.
      split_and!; [done..|]. intros k' Hk'. specialize (Hmax k' Hk'). simpl. lia.
    + apply max_key_None in E. by left.
  - destruct (min_key (asks_ b)) as [k|] eqn:E.
    + apply min_key_Some in E as [[l Hl] Hmin]. right. exists k, l. rewrite Hl.
      split_and!; [done..|]. intros k' Hk'. specialize (Hmin k' Hk'). simpl. lia.
    + apply min_key_None in E. by left.
Qed.

Lemma level_uniform h b side k l :
  book_wf h b -> all_open h b -> Book.getPriceLevelMap b side !! k = Some l ->
  uniform h side k (orders l).
Proof.
  intros Hwf Hopen Hl c Hc.
  destruct (l_members _ _ _ _ _ (b_levels _ _ Hwf _ _ _ Hl) _ Hc) as (oc & Hoc & Hs & Hk & Hi).
  pose proof (Hopen _ _ Hi) as Hpos. rewrite (deref_Some _ _ _ Hoc) in *.
  split_and!; [|done..]. apply isFilled_false. lia.
Qed.

(** ** The store across a pass *)

Lemma heap_ok_insert h x o o' :
  heap_ok h -> h !! x = Some o -> same_static o o' ->
  0 <= remaining_quantity_ o' <= remaining_quantity_ o ->
  heap_ok (<[x:=o']> h).
Proof.
  intros Hh Hx (S1 & S2 & S3 & S4 & S5) Hr.
  assert (forall y oy, <[x:=o']> h !! y = Some oy ->
            exists oy0, h !! y = Some oy0 /\ id_ oy = id_ oy0 /\ price_ oy = price_ oy0
              /\ quantity_ oy = quantity_ oy0
              /\ 0 <= remaining_quantity_ oy <= remaining_quantity_ oy0) as Hback.
  { intros y oy Hy. apply list_lookup_insert_Some in Hy as [(-> & -> & _)|[Hne Hy]].
    - exists o. split_and!; try done; lia.
    - exists oy. destruct (h_range _ Hh _ _ Hy) as (_ & _ & _ & ?).
      split_and!; try done; lia. }
  split.
  - intros y oy Hy. destruct (Hback _ _ Hy) as (oy0 & Hy0 & E1 & E2 & E3 & E4).
    destruct (h_range _ Hh _ _ Hy0) as (R1 & R2 & R3 & R4).
    rewrite E1, E2, E3. split_and!; try done; lia.
  - intros y z oy oz Hy Hz Hid.
    destruct (Hback _ _ Hy) as (oy0 & Hy0 & E1 & _).
    destruct (Hback _ _ Hz) as (oz0 & Hz0 & F1 & _).
    eapply (h_ids _ Hh); eauto. congruence.
Qed.

Lemma pass_heap h p m q o mo :
  heap_ok h -> h !! p = Some o -> h !! m = Some mo -> p <> m ->
  0 <= q -> q <= remaining_quantity_ o -> q <= remaining_quantity_ mo ->
  let h' := Engine.reduce_at (Engine.reduce_at h p q) m q in
  heap_ok h'
  /\ h' !! p = Some (reduceQuantity o q).1
  /\ h' !! m = Some (reduceQuantity mo q).1
  /\ (forall x, x <> p -> x <> m -> h' !! x = h !! x)
  /\ remaining_quantity_ (reduceQuantity o q).1 = remaining_quantity_ o - q
  /\ remaining_quantity_ (reduceQuantity mo q).1 = remaining_quantity_ mo - q.
Proof.
  intros Hh Hp Hm Hne Hq Hqo Hqm h'.
  destruct (h_range _ Hh _ _ Hp) as (_ & _ & Ho1 & Ho2).
  destruct (h_range _ Hh _ _ Hm) as (_ & _ & Hm1 & Hm2).
  assert (is_u64 (remaining_quantity_ o)) as Hou by (unfold is_u64 in *; lia).
  assert (is_u64 (remaining_quantity_ mo)) as Hmu by (unfold is_u64 in *; lia).
  assert (remaining_quantity_ (reduceQuantity o q).1 = remaining_quantity_ o - q) as Ero
    by (rewrite reduceQuantity_remaining by done; lia).
  assert (remaining_quantity_ (reduceQuantity mo q).1 = remaining_quantity_ mo - q) as Erm
    by (rewrite reduceQuantity_remaining by done; lia).
  assert (Engine.reduce_at h p q !! m = Some mo) as Hm1'
    by by rewrite reduce_at_lookup_ne.
  split_and!; try done.
  - unfold h', Engine.reduce_at at 1. rewrite (deref_Some _ _ _ Hm1').
    apply (heap_ok_insert _ _ mo); [|done|apply reduceQuantity_static|lia].
    unfold Engine.reduce_at. rewrite (deref_Some _ _ _ Hp).
    apply (heap_ok_insert _ _ o); [done|done|apply reduceQuantity_static|lia].
  - unfold h'. rewrite reduce_at_lookup_ne by done. by apply reduce_at_lookup_eq.
  - unfold h'. by apply reduce_at_lookup_eq.
  - intros x Hxp Hxm. unfold h'. by rewrite !reduce_at_lookup_ne.
Qed.

(** ** The book across a pass *)

Lemma book_after_fill_spec h b p m q o mo l :
  heap_ok h -> book_wf h b ->
  h !! p = Some o -> orders_ b !! id_ o = None ->
  h !! m = Some mo -> orders_ b !! id_ mo = Some m ->
  Book.getPriceLevelMap b (side_ mo) !! price_ mo = Some l ->
  0 <= q -> q <= remaining_quantity_ o -> q <= remaining_quantity_ mo ->
  let h' := Engine.reduce_at (Engine.reduce_at h p q) m q in
  let b' := book_after_fill h' b p m q in
  book_wf h' b'
  /\ orders_ b' = (if decide (remaining_quantity_ mo - q = 0)
                   then delete (id_ mo) (orders_ b) else orders_ b)
  /\ (forall side x, resting b' side x -> resting b side x)
  /\ (forall side k, is_Some (Book.getPriceLevelMap b' side !! k) ->
                     is_Some (Book.getPriceLevelMap b side !! k)).
Proof.
  intros Hh Hwf Hp Hnew Hm Hi Hl Hq Hqo Hqm h' b'.
  assert (p <> m) as Hne by (intros ->; assert (o = mo) by congruence; congruence).
  destruct (pass_heap h p m q o mo Hh Hp Hm Hne Hq Hqo Hqm)
    as (Hh' & Hp' & Hm' & Hother & Ero & Erm).
  fold h' in Hh', Hp', Hm', Hother.
  set (mo1 := (reduceQuantity mo q).1) in *.
  set (b5 := upd_level b (side_ mo) (price_ mo)
               (mkLevel (price l) (wrap64 (total_quantity l - q)) (orders l))).
  assert (book_wf h' b5) as Hwf5.
  { apply (fill_wf h h' b (id_ mo) m mo mo1 l q); try done.
    intros j x Hj Hxm. apply Hother; [|done].
      intros ->. destruct (b_index _ _ Hwf _ _ Hj) as (ox & Hox & Hidx & _).
      assert (ox = o) as -> by congruence. congruence. }
  assert (Book.updateOrderQuantity h'
            (Book.updateOrderQuantity h' b (id_ (deref h' p))
               (wrap64 (remaining_quantity_ (deref h' p) + q))
               (remaining_quantity_ (deref h' p)))
            (id_ (deref h' m))
            (wrap64 (remaining_quantity_ (deref h' m) + q))
            (remaining_quantity_ (deref h' m)) = b5) as Hb5.
  { rewrite (deref_Some _ _ _ Hp'), (deref_Some _ _ _ Hm').
    rewrite (updateOrderQuantity_unknown h' b (id_ (reduceQuantity o q).1)) by exact Hnew.
    rewrite (updateOrderQuantity_known h' b (id_ mo1) m l);
      rewrite ?(deref_Some _ _ _ Hm'); try done.
    unfold b5, Level.updateQuantity. cbn [side_ price_ mo1 reduceQuantity fst].
    do 2 f_equal. apply wrap64_fill. }
  assert (orders_ b5 !! id_ mo = Some m) as Hi5 by by (unfold b5; rewrite orders_upd_level).
  assert (forall side x, resting b5 side x <-> resting b side x) as Hrest5.
  { intros side x. by apply (upd_level_resting _ _ _ l). }
  assert (forall side k, is_Some (Book.getPriceLevelMap b5 side !! k)
                         <-> is_Some (Book.getPriceLevelMap b side !! k)) as Hkeys5.
  { intros side k. by apply (upd_level_keys _ _ _ l). }
  unfold b', book_after_fill. rewrite Hb5. rewrite (deref_Some _ _ _ Hm').
  change (id_ mo1) with (id_ mo).
  destruct (isFilled mo1) eqn:Hf.
  - apply isFilled_true in Hf.
    destruct (cancel_book_spec h' b5 (id_ mo) m Hh' Hwf5 Hi5) as (l5 & Hl5 & Hin5 & ->).
    rewrite (deref_Some _ _ _ Hm') in *. cbn [fst].
    split_and!.
    + by apply (book_without_wf h' b5 (id_ mo) m mo1 l5).
    + rewrite orders_book_without. rewrite decide_True by lia.
      unfold b5. by rewrite orders_upd_level.
    + intros side x Hx. apply Hrest5. by eapply book_without_resting.
    + intros side k Hk. apply Hkeys5. by eapply book_without_keys.
  - apply isFilled_false in Hf. split_and!; try done.
    + rewrite decide_False by lia. unfold b5. by rewrite orders_upd_level.
    + intros side x. by apply Hrest5.
    + intros side k. by apply Hkeys5.
Qed.

(** ** Trades *)

Lemma traded_app ts t i :
  traded (ts ++ [t]) i = traded ts i + (if refers t i then trade_quantity t else 0).
Proof.
  unfold traded. induction ts as [|t0 ts IH]; simpl; [lia|]. rewrite IH. lia.
Qed.

Lemma refers_trade_of o mo q i :
  refers (trade_of o mo q) i = (id_ o =? i) || (id_ mo =? i).
Proof.
  unfold refers, trade_of. destruct (side_ o); cbn [buy_order_id sell_order_id];
    [done|apply orb_comm].
Qed.

Lemma executeTrade_trade s p m :
  side_ (deref (heap s) m) = Engine.opposing (side_ (deref (heap s) p)) ->
  forall q,
  (Engine.executeTrade s p m (price_ (deref (heap s) m)) q).2
  = trade_of (deref (heap s) p) (deref (heap s) m) q.
Proof.
  intros Hs q. unfold Engine.executeTrade, trade_of.
  destruct (decide (side_ (deref (heap s) p) = BUY)) as [E|E].
  - by rewrite E.
  - destruct (side_ (deref (heap s) p)); [done|]. done.
Qed.

(** ** One pass on a state that satisfies the invariant *)

Lemma pass_analysis s p m s' :
  Inv s ->
  orders_ (order_book_ s) !! id_ (deref (heap s) p) = None ->
  Engine.match_iter s p = Some (m, s') ->
  let h := heap s in
  let o := deref h p in
  let mo := deref h m in
  let opp := Engine.opposing (side_ o) in
  h !! p = Some o /\ h !! m = Some mo
  /\ 0 < remaining_quantity_ o /\ 0 < remaining_quantity_ mo
  /\ side_ mo = opp /\ compatible (side_ o) (price_ o) (price_ mo)
  /\ orders_ (order_book_ s) !! id_ mo = Some m
  /\ (exists l, Book.getPriceLevelMap (order_book_ s) opp !! price_ mo = Some l
        /\ m ∈ orders l
        /\ (forall c, c ∈ orders l -> timestamp_ mo <= timestamp_ (deref h c))
        /\ forall k', is_Some (Book.getPriceLevelMap (order_book_ s) opp !! k') ->
                      ~ better opp k' (price_ mo))
  /\ trades_ s' = trades_ s ++ [trade_of o mo (pass_qty s p m)]
  /\ heap s' = Engine.reduce_at (Engine.reduce_at h p (pass_qty s p m)) m (pass_qty s p m)
  /\ order_book_ s' = book_after_fill (heap s') (order_book_ s) p m (pass_qty s p m).
Proof.
  intros HI Hnew Hit h o mo opp.
  destruct (match_iter_Some _ _ _ _ Hit) as (Hpf & (bp & Hfind & Htr) & Hheap & Hbook).
  fold h in Hpf, Hfind, Hheap. fold o in Hpf, Hfind. fold opp in Hfind.
  pose proof (inv_heap _ HI) as Hh. pose proof (inv_wf _ HI) as Hwf.
  pose proof (inv_open _ HI) as Hopen.
  pose proof (deref_open_valid _ _ Hpf) as Hpv. fold h o in Hpv.
  destruct (getOrdersForMatching_spec (order_book_ s) opp)
    as [[_ Hnil]|(k & l & Hl & Hres & Hbest)].
  { rewrite Hnil in Hfind. discriminate. }
  rewrite Hres in Hfind.
  pose proof (level_uniform _ _ _ _ _ Hwf Hopen Hl) as Hu.
  destruct (find_best_match_sound _ _ _ _ _ Hfind) as (Hmin & Hmf & Hms & Hmc).
  fold mo in Hmf, Hms, Hmc.
  destruct (Hu m Hmin) as (_ & _ & Hmk). fold h mo in Hmk.
  assert (orders l <> []) as Hne by (intros E; rewrite E in Hmin; by apply not_elem_of_nil in Hmin).
  rewrite Hmk in Hmc.
  destruct (find_best_match_uniform h o k (orders l) Hu Hne Hmc) as (m' & Hfind' & _ & Hts).
  rewrite Hfind in Hfind'. injection Hfind' as <- ->.
  pose proof (deref_open_valid _ _ Hmf) as Hmv. fold h mo in Hmv.
  destruct (member_level _ _ _ _ _ _ _ Hwf Hl Hmin Hmv) as (_ & _ & Hmi).
  destruct (h_range _ Hh _ _ Hpv) as (_ & _ & _ & Hor).
  destruct (h_range _ Hh _ _ Hmv) as (_ & _ & _ & Hmr).
  apply isFilled_false in Hpf, Hmf.
  split_and!; try done; try lia.
  - by rewrite Hmk.
  - exists l. rewrite Hmk. split_and!; done.
  - rewrite Htr. rewrite <- Hmk. unfold mo, h. by rewrite executeTrade_trade.
  - by rewrite Hheap.
Qed.

Lemma pass_spec s p m s' :
  Inv s ->
  orders_ (order_book_ s) !! id_ (deref (heap s) p) = None ->
  Engine.match_iter s p = Some (m, s') ->
  pass_ok s p m s' /\ Inv s'
  /\ orders_ (order_book_ s') !! id_ (deref (heap s') p) = None.
Proof.
  intros HI Hnew Hit.
  destruct (pass_analysis _ _ _ _ HI Hnew Hit)
    as (Hp & Hm & Hop & Hom & Hside & Hcomp & Hmi & (l & Hl & Hin & Hts & Hbest)
        & Htr & Hheap & Hbook).
  pose proof (inv_heap _ HI) as Hh. pose proof (inv_wf _ HI) as Hwf.
  pose proof (inv_open _ HI) as Hopen.
  set (h := heap s) in *. set (o := deref h p) in *. set (mo := deref h m) in *.
  set (opp := Engine.opposing (side_ o)) in *. set (q := pass_qty s p m) in *.
  set (b := order_book_ s) in *.
  assert (q = Z.min (remaining_quantity_ o) (remaining_quantity_ mo)) as Hq by done.
  assert (p <> m) as Hne by (intros E; rewrite <- E in Hm; fold o in Hm; congruence).
  assert (Book.getPriceLevelMap b (side_ mo) !! price_ mo = Some l) as Hl2
    by by rewrite Hside.
  destruct (pass_heap h p m q o mo Hh Hp Hm Hne) as (Hh' & Hp' & Hm' & Hother & Ero & Erm);
    [lia..|].
  destruct (book_after_fill_spec h b p m q o mo l Hh Hwf Hp Hnew Hm Hmi Hl2)
    as (Hwf' & Hidx' & Hrest' & Hkeys'); [lia..|].
  rewrite <- Hheap in Hh', Hp', Hm', Hother, Hwf', Hidx', Hrest', Hkeys'.
  rewrite <- Hbook in Hwf', Hidx', Hrest', Hkeys'.
  assert (forall j x, orders_ b !! j = Some x -> x <> p) as Hnotp.
  { intros j x Hj ->. destruct (b_index _ _ Hwf _ _ Hj) as (ox & Hox & Hidx & _).
    assert (ox = o) as -> by congruence. congruence. }
  split_and!.
  - (* the pass *)
    subst h o mo opp q b. split; try done.
    + by exists l.
    + intros x (kx & lx & Hlx & Hx) [Hb|[Hpe Hlt]].
      * destruct (level_uniform _ _ _ _ _ Hwf Hopen Hlx x Hx) as (_ & _ & Hk).
        rewrite Hk in Hb. eapply Hbest; [|exact Hb]. eauto.
      * destruct (level_uniform _ _ _ _ _ Hwf Hopen Hlx x Hx) as (_ & _ & Hk).
        rewrite Hk in Hpe. subst kx.
        assert (lx = l) as -> by congruence. specialize (Hts x Hx). lia.
    + by rewrite (deref_Some _ _ _ Hp').
    + by rewrite (deref_Some _ _ _ Hm').
    + rewrite Hidx', (deref_Some _ _ _ Hm'), Erm.
      by destruct (decide _).
  - (* the invariant *)
    split; try done.
    + intros j x Hj. rewrite Hidx' in Hj.
      assert (orders_ b !! j = Some x /\ (x = m -> remaining_quantity_ mo - q <> 0))
        as [Hj0 Hxm].
      { destruct (decide (remaining_quantity_ mo - q = 0)) as [E|E].
        - apply lookup_delete_Some in Hj as [Hji Hj]. split; [done|].
          intros ->. destruct (b_index _ _ Hwf _ _ Hj) as (ox & Hox & Hidx & _).
          assert (ox = mo) as -> by congruence. congruence.
        - done. }
      destruct (decide (x = m)) as [->|Hxne].
      * rewrite (deref_Some _ _ _ Hm'), Erm. specialize (Hxm eq_refl). lia.
      * pose proof (Hopen _ _ Hj0) as Hpos.
        destruct (b_index _ _ Hwf _ _ Hj0) as (ox & Hox & _).
        rewrite <- (Hother x) in Hox by eauto.
        fold h in Hpos. rewrite (deref_Some _ _ _ Hox).
        destruct (b_index _ _ Hwf _ _ Hj0) as (ox0 & Hox0 & _).
        rewrite (deref_Some _ _ _ Hox0) in Hpos.
        rewrite (Hother x) in Hox by eauto. congruence.
    + intros kb ka Hkb Hka. apply (inv_nocross _ HI).
      * by apply (Hkeys' BUY).
      * by apply (Hkeys' SELL).
    + intros x ox' Hx. rewrite Htr, traded_app, refers_trade_of.
      cbn [trade_quantity]. replace (trade_quantity (trade_of o mo q)) with q
        by (unfold trade_of; by destruct (side_ o)).
      destruct (decide (x = p)) as [->|Hxp]; [|destruct (decide (x = m)) as [->|Hxm]].
      * assert (ox' = (reduceQuantity o q).1) as -> by congruence.
        rewrite Ero. cbn [quantity_ id_ reduceQuantity fst].
        rewrite Z.eqb_refl. cbn [orb]. rewrite (inv_cons _ HI _ _ Hp). lia.
      * assert (ox' = (reduceQuantity mo q).1) as -> by congruence.
        rewrite Erm. cbn [quantity_ id_ reduceQuantity fst].
        rewrite Z.eqb_refl, orb_true_r. rewrite (inv_cons _ HI _ _ Hm). lia.
      * rewrite Hother in Hx by done.
        assert (id_ o <> id_ ox') as N1
          by (intros E; apply Hxp; symmetry; eapply (h_ids _ Hh); eauto).
        assert (id_ mo <> id_ ox') as N2
          by (intros E; apply Hxm; symmetry; eapply (h_ids _ Hh); eauto).
        apply Z.eqb_neq in N1, N2. rewrite N1, N2. cbn [orb].
        rewrite (inv_cons _ HI _ _ Hx). lia.
    + assert (forall x ox, h !! x = Some ox ->
                exists ox', heap s' !! x = Some ox' /\ id_ ox' = id_ ox) as Hkeep.
      { intros x ox Hx.
        destruct (decide (x = p)) as [->|Hxp]; [|destruct (decide (x = m)) as [->|Hxm]].
        - eexists. split; [exact Hp'|]. assert (ox = o) as -> by congruence. done.
        - eexists. split; [exact Hm'|]. assert (ox = mo) as -> by congruence. done.
        - exists ox. by rewrite Hother. }
      intros t Ht. rewrite Htr in Ht. apply elem_of_app in Ht as [Ht|Ht].
      * destruct (inv_trades _ HI _ Ht) as [(x & ox & Hx & Hxi) (y & oy & Hy & Hyi)].
        destruct (Hkeep _ _ Hx) as (ox' & Hx' & Ex).
        destruct (Hkeep _ _ Hy) as (oy' & Hy' & Ey).
        split; [exists x, ox'|exists y, oy']; split; congruence.
      * apply list_elem_of_singleton in Ht as ->.
        destruct (Hkeep _ _ Hp) as (o' & Ho' & Eo).
        destruct (Hkeep _ _ Hm) as (mo' & Hmo' & Em).
        unfold trade_of. destruct (side_ o); cbn [buy_order_id sell_order_id];
          split; eauto.
  - (* the incoming order is still outside the book *)
    rewrite (deref_Some _ _ _ Hp'). cbn [id_ reduceQuantity fst]. rewrite Hidx'.
    destruct (decide _); [|done]. rewrite lookup_delete_None. by right.
Qed.

(** ** The invariant is kept by every operation *)

Lemma Inv_ext s s' :
  heap s' = heap s -> order_book_ s' = order_book_ s -> trades_ s' = trades_ s ->
  Inv s -> Inv s'.
Proof.
  intros E1 E2 E3 [H1 H2 H3 H4 H5 H6]. split; rewrite ?E1, ?E2, ?E3; done.
Qed.

Lemma Inv_init cb1 cb2 : Inv (Engine.init cb1 cb2).
Proof.
  split; cbn.
  - split; intros p; intros; by rewrite lookup_nil in *.
  - split.
    + intros side k l Hl. destruct side; cbn in Hl; by rewrite lookup_empty in Hl.
    + intros i p Hi. cbn in Hi. by rewrite lookup_empty in Hi.
  - intros i p Hi. cbn in Hi. by rewrite lookup_empty in Hi.
  - intros kb ka [? Hkb]. cbn in Hkb. by rewrite lookup_empty in Hkb.
  - intros p o Hp. by rewrite lookup_nil in Hp.
  - intros t Ht. by apply not_elem_of_nil in Ht.
Qed.

Lemma cancel_Inv s i : Inv s -> Inv (Engine.cancelOrder s i).1.
Proof.
  intros HI. unfold Engine.cancelOrder.
  pose proof (inv_heap _ HI) as Hh. pose proof (inv_wf _ HI) as Hwf.
  destruct (orders_ (order_book_ s) !! i) as [m|] eqn:Hi.
  - destruct (cancel_book_spec _ _ _ _ Hh Hwf Hi) as (l & Hl & Hin & ->). cbn [fst].
    destruct (b_index _ _ Hwf _ _ Hi) as (mo & Hm & Hid & _).
    rewrite (deref_Some _ _ _ Hm) in *.
    eapply (Inv_ext (Engine.set_book s _));
      [apply notifyOrderCallback_heap|apply notifyOrderCallback_book
      |apply notifyOrderCallback_trades|].
    split; cbn [Engine.set_book heap order_book_ trades_]; try apply HI.
    + by apply (book_without_wf _ _ _ _ mo).
    + intros j x Hj. rewrite orders_book_without in Hj.
      apply lookup_delete_Some in Hj as [_ Hj]. by apply (inv_open _ HI j).
    + intros kb ka Hkb Hka. apply (inv_nocross _ HI).
      * by apply (book_without_keys _ _ _ _ _ _ _ BUY) in Hkb.
      * by apply (book_without_keys _ _ _ _ _ _ _ SELL) in Hka.
  - rewrite cancelOrder_unknown by done. cbn [fst].
    eapply Inv_ext; [..|exact HI]; done.
Qed.

Lemma book_wf_heap_mono h h' b :
  book_wf h b -> (forall x ox, h !! x = Some ox -> h' !! x = Some ox) ->
  book_wf h' b.
Proof.
  intros Hwf Hmono. split.
  - intros side k l Hl. pose proof (b_levels _ _ Hwf _ _ _ Hl) as Hlok.
    split; try apply Hlok.
    + rewrite (l_total _ _ _ _ _ Hlok). f_equal. symmetry.
      apply sum_remaining_ext. intros x Hx.
      destruct (l_members _ _ _ _ _ Hlok _ Hx) as (ox & Hox & _).
      by rewrite (deref_Some _ _ _ Hox), (deref_Some _ _ _ (Hmono _ _ Hox)).
    + intros x Hx. destruct (l_members _ _ _ _ _ Hlok _ Hx) as (ox & Hox & ?).
      exists ox. split; [by apply Hmono|done].
  - intros i x Hi. destruct (b_index _ _ Hwf _ _ Hi) as (ox & Hox & ?).
    exists ox. split; [by apply Hmono|done].
Qed.

Lemma traded_fresh ts i :
  (forall t, t ∈ ts -> buy_order_id t <> i /\ sell_order_id t <> i) ->
  traded ts i = 0.
Proof.
  unfold traded. induction ts as [|t ts IH]; intros H; simpl; [done|].
  rewrite IH by (intros t' Ht'; apply H; by right).
  destruct (H t) as [N1 N2]; [by left|]. unfold refers.
  apply Z.eqb_neq in N1, N2. by rewrite N1, N2.
Qed.

Lemma make_shared_Inv s a :
  Inv s -> wf_args a -> fresh_id s (a_id a) ->
  let s0 := (make_shared s a).1 in
  let p := (make_shared s a).2 in
  Inv s0
  /\ heap s0 !! p = Some (new_Order (a_id a) (a_side a) (a_price a)
                                    (a_quantity a) (a_timestamp a))
  /\ orders_ (order_book_ s0) !! a_id a = None
  /\ order_book_ s0 = order_book_ s /\ trades_ s0 = trades_ s.
Proof.
  intros HI (Wi & Wp & Wq) Hfresh. cbn [make_shared fst snd Engine.set_heap].
  set (o := new_Order _ _ _ _ _).
  pose proof (inv_heap _ HI) as Hh. pose proof (inv_wf _ HI) as Hwf.
  assert (forall x ox, heap s !! x = Some ox -> (heap s ++ [o]) !! x = Some ox) as Hmono
    by (intros; by apply lookup_app_l_Some).
  assert (forall x ox, (heap s ++ [o]) !! x = Some ox ->
            heap s !! x = Some ox \/ (x = length (heap s) /\ ox = o)) as Hback.
  { intros x ox Hx. apply lookup_snoc_Some in Hx as [[_ ?]|[? ?]]; [by left|right; done]. }
  assert (orders_ (order_book_ s) !! a_id a = None) as Hnone.
  { destruct (orders_ (order_book_ s) !! a_id a) as [x|] eqn:E; [|done].
    destruct (b_index _ _ Hwf _ _ E) as (ox & Hox & Hid & _).
    by destruct (Hfresh _ _ Hox). }
  split_and!; try done.
  - split; cbn [Engine.set_heap heap order_book_ trades_].
    + split.
      * intros x ox Hx. destruct (Hback _ _ Hx) as [Hx'|[-> ->]].
        -- by apply (h_range _ Hh x).
        -- cbn. unfold is_u64 in *. split_and!; lia.
      * intros x y ox oy Hx Hy Hid.
        destruct (Hback _ _ Hx) as [Hx'|[-> ->]], (Hback _ _ Hy) as [Hy'|[-> ->]].
        -- by eapply (h_ids _ Hh).
        -- by destruct (Hfresh _ _ Hx').
        -- by destruct (Hfresh _ _ Hy').
        -- done.
    + by eapply book_wf_heap_mono.
    + intros i x Hi. pose proof (inv_open _ HI _ _ Hi) as Hpos.
      destruct (b_index _ _ Hwf _ _ Hi) as (ox & Hox & _).
      by rewrite (deref_Some _ _ _ (Hmono _ _ Hox)), <- (deref_Some _ _ _ Hox).
    + apply HI.
    + intros x ox Hx. destruct (Hback _ _ Hx) as [Hx'|[-> ->]].
      * by apply (inv_cons _ HI x).
      * cbn [o new_Order quantity_ remaining_quantity_ id_].
        rewrite traded_fresh; [lia|]. intros t Ht.
        destruct (inv_trades _ HI _ Ht) as [(x & ox & Hx' & <-) (y & oy & Hy' & <-)].
        split; by eapply Hfresh.
    + intros t Ht.
      destruct (inv_trades _ HI _ Ht) as [(x & ox & Hx' & E1) (y & oy & Hy' & E2)].
      split; [exists x, ox|exists y, oy]; split; auto.
  - by apply list_lookup_middle.
Qed.

(** When the loop is left with the incoming order still open, no resting
    order of the other side is at a price it admits. *)
Lemma exit_incompatible s p :
  Inv s -> isFilled (deref (heap s) p) = false ->
  Engine.match_iter s p = None ->
  forall k, is_Some (Book.getPriceLevelMap (order_book_ s)
                       (Engine.opposing (side_ (deref (heap s) p))) !! k) ->
            ~ compatible (side_ (deref (heap s) p)) (price_ (deref (heap s) p)) k.
Proof.
  intros HI Hpf Hit k' Hk'. unfold Engine.match_iter in Hit. rewrite Hpf in Hit.
  set (o := deref (heap s) p) in *. set (opp := Engine.opposing (side_ o)) in *.
  destruct (getOrdersForMatching_spec (order_book_ s) opp)
    as [[Hempty _]|(k & l & Hl & Hres & Hbest)].
  { rewrite Hempty, lookup_empty in Hk'. by destruct Hk'. }
  rewrite Hres in Hit.
  pose proof (level_uniform _ _ _ _ _ (inv_wf _ HI) (inv_open _ HI) Hl) as Hu.
  pose proof (l_nonempty _ _ _ _ _ (b_levels _ _ (inv_wf _ HI) _ _ _ Hl)) as Hne.
  assert (~ compatible (side_ o) (price_ o) k) as Hnc.
  { intros Hc.
    destruct (find_best_match_uniform (heap s) o k (orders l) Hu Hne Hc) as (m & Hf & _).
    rewrite Hf in Hit. by destruct (orders l). }
  specialize (Hbest k' Hk'). unfold opp in Hbest.
  destruct (side_ o); simpl in *; lia.
Qed.

(** ** The store only evolves *)

Lemma heap_evolves_refl h : heap_ok h -> heap_evolves h h.
Proof.
  intros Hh x o Hx. exists o. split_and!; [done|apply same_static_refl| |lia].
  destruct (h_range _ Hh _ _ Hx) as (_ & _ & _ & ?). lia.
Qed.

Lemma heap_evolves_trans h1 h2 h3 :
  heap_evolves h1 h2 -> heap_evolves h2 h3 -> heap_evolves h1 h3.
Proof.
  intros H12 H23 x o Hx. destruct (H12 _ _ Hx) as (o2 & Hx2 & S12 & R12).
  destruct (H23 _ _ Hx2) as (o3 & Hx3 & S23 & R23).
  exists o3. split_and!; [done|by eapply same_static_trans|lia|lia].
Qed.

Lemma heap_evolves_deref h h' x :
  heap_evolves h h' -> length h' = length h ->
  same_static (deref h x) (deref h' x)
  /\ remaining_quantity_ (deref h' x) <= remaining_quantity_ (deref h x).
Proof.
  intros He Hlen. destruct (h !! x) as [o|] eqn:E.
  - destruct (He _ _ E) as (o' & E' & Hs & Hr).
    rewrite (deref_Some _ _ _ E), (deref_Some _ _ _ E'). split; [done|lia].
  - apply lookup_ge_None_1 in E. rewrite !deref_dangling by lia.
    split; [apply same_static_refl|lia].
Qed.

Lemma pass_evolves s p m s' :
  Inv s -> pass_ok s p m s' ->
  heap_evolves (heap s) (heap s') /\ length (heap s') = length (heap s).
Proof.
  intros HI Hpo. pose proof (inv_heap _ HI) as Hh.
  pose proof (po_open _ _ _ _ Hpo) as Hop. pose proof (po_maker_open _ _ _ _ Hpo) as Hom.
  pose proof (po_maker _ _ _ _ Hpo) as Hm.
  assert (heap s !! p = Some (deref (heap s) p)) as Hp.
  { apply deref_open_valid. apply isFilled_false. lia. }
  destruct (pass_heap (heap s) p m (pass_qty s p m) _ _ Hh Hp Hm (po_distinct _ _ _ _ Hpo))
    as (_ & Hp' & Hm' & Hother & Ero & Erm); [unfold pass_qty; lia..|].
  rewrite <- (po_heap _ _ _ _ Hpo) in Hp', Hm', Hother.
  split.
  - intros x ox Hx.
    destruct (decide (x = p)) as [->|Hxp]; [|destruct (decide (x = m)) as [->|Hxm]].
    + assert (ox = deref (heap s) p) as -> by congruence.
      eexists. split_and!; [exact Hp'|apply reduceQuantity_static|..];
        rewrite Ero; unfold pass_qty; lia.
    + assert (ox = deref (heap s) m) as -> by congruence.
      eexists. split_and!; [exact Hm'|apply reduceQuantity_static|..];
        rewrite Erm; unfold pass_qty; lia.
    + exists ox. rewrite Hother by done.
      destruct (h_range _ Hh _ _ Hx) as (_ & _ & _ & ?).
      split_and!; [done|apply same_static_refl|lia|lia].
  - rewrite (po_heap _ _ _ _ Hpo). by rewrite !reduce_at_length.
Qed.

(** ** The matching loop *)

Lemma match_trace_facts fuel s p :
  Inv s -> outside s p -> Forall (pass_at s p) (Engine.match_trace fuel s p).
Proof.
  revert s. induction fuel as [|fuel IH]; intros s HI Hout; cbn [Engine.match_trace].
  - constructor.
  - destruct (Engine.match_iter s p) as [[m s']|] eqn:E; [|constructor].
    destruct (pass_spec _ _ _ _ HI Hout E) as (Hpo & HI' & Hout').
    destruct (pass_evolves _ _ _ _ HI Hpo) as (Hev & Hlen).
    constructor.
    + unfold pass_at. cbn [fst snd]. split_and!; try done.
      * apply heap_evolves_refl, HI.
      * eauto.
    + eapply Forall_impl; [apply (IH s' HI' Hout')|].
      intros [s_i m_i] (H1 & H2 & H3 & H4 & H5 & H6). unfold pass_at. cbn [fst snd] in *.
      split_and!; try done.
      * by eapply heap_evolves_trans.
      * lia.
      * intros side x Hx. apply (po_rest_mono _ _ _ _ Hpo). by apply H5.
Qed.

Lemma match_loop_facts fuel s p n :
  Inv s -> outside s p ->
  let s1 := (Engine.match_loop fuel s p n).1 in
  Inv s1 /\ outside s1 p
  /\ heap_evolves (heap s) (heap s1) /\ length (heap s1) = length (heap s)
  /\ (forall side x, resting (order_book_ s1) side x -> resting (order_book_ s) side x)
  /\ (forall side k, is_Some (Book.getPriceLevelMap (order_book_ s1) side !! k) ->
                     is_Some (Book.getPriceLevelMap (order_book_ s) side !! k))
  /\ trades_ s1 = trades_ s ++ trace_trades p (Engine.match_trace fuel s p).
Proof.
  revert s n. induction fuel as [|fuel IH]; intros s n HI Hout;
    cbn [Engine.match_loop Engine.match_trace].
  - cbn [fst trace_trades map]. rewrite app_nil_r. split_and!; try done.
    apply heap_evolves_refl, HI.
  - destruct (Engine.match_iter s p) as [[m s']|] eqn:E.
    + destruct (pass_spec _ _ _ _ HI Hout E) as (Hpo & HI' & Hout').
      destruct (pass_evolves _ _ _ _ HI Hpo) as (Hev & Hlen).
      destruct (IH s' (wrap64 (n + 1)) HI' Hout') as (H1 & H2 & H3 & H4 & H5 & H6 & H7).
      split_and!; try done.
      * by eapply heap_evolves_trans.
      * lia.
      * intros side x Hx. apply (po_rest_mono _ _ _ _ Hpo). by apply H5.
      * intros side k Hk. apply (po_keys _ _ _ _ Hpo). by apply H6.
      * rewrite H7, (po_trade _ _ _ _ Hpo). cbn [trace_trades map fst snd].
        by rewrite <- app_assoc.
    + cbn [fst trace_trades map]. rewrite app_nil_r. split_and!; try done.
      apply heap_evolves_refl, HI.
Qed.

Lemma heap_ok_u64 h : heap_ok h -> heap_u64 h.
Proof.
  intros Hh p o Hp. destruct (h_range _ Hh _ _ Hp) as (_ & _ & ? & ?).
  unfold is_u64 in *. lia.
Qed.

(** ** Submitting a new order *)

Lemma submit_new_unfold s a :
  let s0 := (make_shared s a).1 in
  let p := length (heap s) in
  let s1 := (Engine.matchOrder s0 p).1 in
  submit_new s a
  = (if negb (isFilled (deref (heap s1) p))
     then Engine.notifyOrderCallback
            (Engine.set_book s1 (Book.addOrder (heap s1) (order_book_ s1) (Some p)).1)
            (Some p)
     else s1, true).
Proof. done. Qed.

Lemma submit_new_spec s a :
  Inv s -> wf_args a -> fresh_id s (a_id a) ->
  let s0 := (make_shared s a).1 in
  let p := length (heap s) in
  let s1 := (Engine.matchOrder s0 p).1 in
  let s2 := (submit_new s a).1 in
  Inv s0 /\ outside s0 p
  /\ Inv s1 /\ outside s1 p /\ Engine.match_iter s1 p = None
  /\ heap_evolves (heap s0) (heap s1) /\ length (heap s1) = length (heap s0)
  /\ Inv s2 /\ heap s2 = heap s1 /\ trades_ s2 = trades_ s1
  /\ order_book_ s2
     = (if isFilled (deref (heap s1) p) then order_book_ s1
        else (Book.addOrder (heap s1) (order_book_ s1) (Some p)).1).
Proof.
  intros HI Hwa Hfresh s0 p s1 s2.
  destruct (make_shared_Inv s a HI Hwa Hfresh) as (HI0 & Hp0 & Hnone0 & Hb0 & Ht0).
  fold s0 in HI0, Hp0, Hnone0, Hb0, Ht0. cbn [make_shared snd] in Hp0. fold p in Hp0.
  assert (outside s0 p) as Hout0.
  { unfold outside. by rewrite (deref_Some _ _ _ Hp0). }
  destruct (match_loop_facts (length (heap s0)) s0 p 0 HI0 Hout0)
    as (HI1 & Hout1 & Hev & Hlen & Hrest & Hkeys & Htr).
  fold (Engine.matchOrder s0 p) in HI1, Hout1, Hev, Hlen, Hrest, Hkeys, Htr.
  fold s1 in HI1, Hout1, Hev, Hlen, Hrest, Hkeys, Htr.
  assert (Engine.match_iter s1 p = None) as Hexit.
  { apply matchOrder_exits, heap_ok_u64, HI0. }
  assert (s2 = if negb (isFilled (deref (heap s1) p))
               then Engine.notifyOrderCallback
                      (Engine.set_book s1
                         (Book.addOrder (heap s1) (order_book_ s1) (Some p)).1) (Some p)
               else s1) as Hs2 by done.
  split_and!; try done.
  - (* the invariant after the order is added, or dropped *)
    rewrite Hs2. destruct (isFilled (deref (heap s1) p)) eqn:Hf; cbn [negb]; [done|].
    pose proof (deref_open_valid _ _ Hf) as Hp1.
    eapply (Inv_ext (Engine.set_book s1 _));
      [apply notifyOrderCallback_heap|apply notifyOrderCallback_book
      |apply notifyOrderCallback_trades|].
    split; cbn [Engine.set_book heap order_book_ trades_]; try apply HI1.
    + eapply addOrder_wf; [apply HI1|exact Hp1|exact Hout1].
    + intros j x Hj. rewrite addOrder_known in Hj. cbn [fst] in Hj.
      rewrite orders_upd_level in Hj. cbn [Book.set_orders orders_] in Hj.
      apply lookup_insert_Some in Hj as [[_ <-]|[_ Hj]].
      * apply isFilled_false in Hf.
        destruct (h_range _ (inv_heap _ HI1) _ _ Hp1) as (_ & _ & _ & ?). lia.
      * by apply (inv_open _ HI1 j).
    + intros kb ka Hkb Hka.
      apply (addOrder_keys _ _ _ BUY) in Hkb. apply (addOrder_keys _ _ _ SELL) in Hka.
      pose proof (exit_incompatible s1 p HI1 Hf Hexit) as Hinc.
      destruct Hkb as [[Hsb ->]|Hkb], Hka as [[Hsa ->]|Hka].
      * congruence.
      * rewrite <- Hsb in Hinc. specialize (Hinc ka Hka). simpl in Hinc. lia.
      * rewrite <- Hsa in Hinc. specialize (Hinc kb Hkb). simpl in Hinc. lia.
      * by apply (inv_nocross _ HI1).
  - rewrite Hs2. destruct (isFilled _); cbn [negb]; [done|].
    by rewrite notifyOrderCallback_heap.
  - rewrite Hs2. destruct (isFilled _); cbn [negb]; [done|].
    by rewrite notifyOrderCallback_trades.
  - rewrite Hs2. destruct (isFilled _); cbn [negb]; [done|].
    by rewrite notifyOrderCallback_book.
Qed.

(** ** Sequences of operations *)

Lemma run_snoc ops op s : run (ops ++ [op]) s = step (run ops s) op.
Proof. unfold run. by rewrite fold_left_app. Qed.

Lemma submitted_ids_snoc ops op :
  submitted_ids (ops ++ [op])
  = submitted_ids ops ++ match op with Submit a => [a_id a] | Cancel _ => [] end.
Proof.
  induction ops as [|o ops IH]; simpl.
  - by destruct op.
  - destruct o; simpl; by rewrite IH.
Qed.

Lemma valid_ops_snoc ops op :
  valid_ops (ops ++ [op]) ->
  valid_ops ops /\ wf_op op
  /\ match op with Submit a => a_id a ∉ submitted_ids ops | Cancel _ => True end.
Proof.
  unfold valid_ops. rewrite Forall_app, submitted_ids_snoc.
  intros [[Hf Hop] Hnd]. apply (proj1 (Forall_singleton _ _)) in Hop.
  destruct op as [a|i].
  - apply NoDup_app in Hnd as (Hnd & Hdisj & _). split_and!; try done.
    intros Hin. apply (Hdisj _ Hin). by apply list_elem_of_singleton.
  - rewrite app_nil_r in Hnd. done.
Qed.

Lemma evolves_ids h h' :
  heap_evolves h h' -> length h' = length h -> id_ <$> h' = id_ <$> h.
Proof.
  intros He Hlen. apply list_eq. intros x. rewrite !list_lookup_fmap.
  destruct (h !! x) as [o|] eqn:E.
  - destruct (He _ _ E) as (o' & -> & (Hid & _) & _). cbn. by rewrite Hid.
  - apply lookup_ge_None_1 in E. rewrite lookup_ge_None_2 by lia. done.
Qed.

Lemma cancel_heap s i : heap (Engine.cancelOrder s i).1 = heap s.
Proof.
  unfold Engine.cancelOrder. destruct (Book.cancelOrder _ _ _) as [b [|]]; cbn [fst].
  - by rewrite notifyOrderCallback_heap.
  - done.
Qed.

Lemma cancel_trades s i : trades_ (Engine.cancelOrder s i).1 = trades_ s.
Proof.
  unfold Engine.cancelOrder. destruct (Book.cancelOrder _ _ _) as [b [|]]; cbn [fst].
  - by rewrite notifyOrderCallback_trades.
  - done.
Qed.

Lemma fresh_id_ids s i : i ∉ id_ <$> heap s -> fresh_id s i.
Proof.
  intros Hnot x ox Hx <-. apply Hnot. apply list_elem_of_fmap. exists ox.
  split; [done|]. by eapply list_elem_of_lookup_2.
Qed.

Lemma step_Inv s op :
  Inv s -> wf_op op ->
  match op with Submit a => a_id a ∉ id_ <$> heap s | Cancel _ => True end ->
  Inv (step s op)
  /\ id_ <$> heap (step s op)
     = (id_ <$> heap s) ++ match op with Submit a => [a_id a] | Cancel _ => [] end.
Proof.
  intros HI Hwf Hfresh. destruct op as [a|i]; cbn [step].
  - apply fresh_id_ids in Hfresh.
    destruct (submit_new_spec s a HI Hwf Hfresh)
      as (_ & _ & _ & _ & _ & Hev & Hlen & HI2 & Hh2 & _).
    split; [done|]. rewrite Hh2, (evolves_ids _ _ Hev Hlen).
    cbn [make_shared fst Engine.set_heap heap]. by rewrite fmap_app.
  - split; [by apply cancel_Inv|]. by rewrite cancel_heap, app_nil_r.
Qed.

(** Every state reached from the empty engine by a valid sequence of
    operations satisfies the invariant, and the ids of the order objects
    are the submitted ids, in order. *)
Lemma run_Inv ops cb1 cb2 :
  valid_ops ops ->
  Inv (run ops (Engine.init cb1 cb2))
  /\ id_ <$> heap (run ops (Engine.init cb1 cb2)) = submitted_ids ops.
Proof.
  induction ops as [|op ops IH] using rev_ind; intros Hv.
  - split; [apply Inv_init|done].
  - apply valid_ops_snoc in Hv as (Hv & Hwf & Hfresh).
    destruct (IH Hv) as [HI Hids]. rewrite run_snoc, submitted_ids_snoc.
    destruct (step_Inv _ op HI Hwf) as [HI' Hids'].
    + destruct op; [by rewrite Hids|done].
    + split; [done|]. by rewrite Hids', Hids.
Qed.

Lemma run_fresh ops cb1 cb2 a :
  valid_ops (ops ++ [Submit a]) ->
  Inv (run ops (Engine.init cb1 cb2)) /\ wf_args a
  /\ fresh_id (run ops (Engine.init cb1 cb2)) (a_id a).
Proof.
  intros Hv. apply valid_ops_snoc in Hv as (Hv & Hwf & Hfresh).
  destruct (run_Inv ops cb1 cb2 Hv) as [HI Hids].
  split_and!; [done..|]. apply fresh_id_ids. by rewrite Hids.
Qed.

(** ** Priority along the passes of one submission *)

Lemma beats_static side r r' m m' :
  same_static r r' -> same_static m m' -> beats side r' m' <-> beats side r m.
Proof.
  intros (_ & _ & Hp1 & _ & Ht1) (_ & _ & Hp2 & _ & Ht2).
  unfold beats. by rewrite Hp1, Hp2, Ht1, Ht2.
Qed.

Lemma pass_at_side s p e :
  pass_at s p e ->
  side_ (deref (heap e.1) p) = side_ (deref (heap s) p).
Proof.
  intros (_ & _ & Hev & Hlen & _).
  destruct (heap_evolves_deref _ _ p Hev Hlen) as [(_ & Hs & _) _]. done.
Qed.

Lemma pass_at_priority s p e :
  pass_at s p e ->
  let opp := Engine.opposing (side_ (deref (heap s) p)) in
  resting (order_book_ e.1) opp e.2
  /\ forall r, resting (order_book_ e.1) opp r ->
       ~ beats opp (deref (heap e.1) r) (deref (heap e.1) e.2).
Proof.
  intros Hpa opp. pose proof (pass_at_side _ _ _ Hpa) as Hside.
  destruct Hpa as (_ & _ & _ & _ & _ & s' & _ & Hpo).
  unfold opp. rewrite <- Hside. split.
  - eexists. apply (po_resting _ _ _ _ Hpo).
  - apply (po_priority _ _ _ _ Hpo).
Qed.

Lemma trace_sorted fuel s p h0 :
  Inv s -> outside s p ->
  (forall x, same_static (deref h0 x) (deref (heap s) x)) ->
  StronglySorted
    (fun m1 m2 => ~ beats (Engine.opposing (side_ (deref h0 p)))
                          (deref h0 m2) (deref h0 m1))
    (Engine.match_trace fuel s p).*2.
Proof.
  revert s. induction fuel as [|fuel IH]; intros s HI Hout Hst; cbn [Engine.match_trace].
  - constructor.
  - destruct (Engine.match_iter s p) as [[m s']|] eqn:E; [|constructor].
    destruct (pass_spec _ _ _ _ HI Hout E) as (Hpo & HI' & Hout').
    cbn [fmap list_fmap snd]. constructor.
    + apply (IH s' HI' Hout'). intros x.
      eapply same_static_trans; [apply Hst|]. by eapply match_iter_static.
    + apply Forall_fmap, Forall_forall. intros [s_i m_i] Hin. cbn [snd compose].
      pose proof (match_trace_facts fuel s' p HI' Hout') as Hall.
      rewrite Forall_forall in Hall. specialize (Hall _ Hin).
      destruct (pass_at_priority _ _ _ Hall) as [Hrest _]. cbn [fst snd] in Hrest.
      destruct Hall as (_ & _ & _ & _ & Hmono & _). cbn [fst] in Hmono.
      apply Hmono in Hrest. apply (po_rest_mono _ _ _ _ Hpo) in Hrest.
      pose proof (match_iter_static _ _ _ _ p E) as (_ & Hsp & _).
      rewrite Hsp in Hrest.
      pose proof (po_priority _ _ _ _ Hpo _ Hrest) as Hnb.
      destruct (Hst p) as (_ & Hs0 & _). rewrite <- Hs0.
      intros Hb. apply Hnb. by apply (beats_static _ _ _ _ _ (Hst m_i) (Hst m)).
Qed.

(** C1 (as the code has it). Price-time priority, the time being the
    order's own time stamp [timestamp_], which the caller gives to the
    constructor and which need not follow the order of submission. A valid
    sequence of operations (64-bit values, pairwise distinct submitted ids)
    is run from the empty engine and one more order is submitted.  For
    every pass of the matching loop of that submission, in the state the
    pass starts from: the matched order rests on the opposing side, and no
    order resting on the opposing side has a strictly better price, or the
    same price and a strictly earlier time stamp.  The trades the
    submission adds to the trade list are those of the passes, in the order
    of the passes, and along the passes the matched orders come best price
    first and, at one price, earliest time stamp first; after the last pass
    the loop is left. *)
Theorem price_time_priority ops cb1 cb2 a :
  valid_ops (ops ++ [Submit a]) ->
  let s := run ops (Engine.init cb1 cb2) in
  let s0 := (make_shared s a).1 in
  let p := (make_shared s a).2 in
  let opp := Engine.opposing (a_side a) in
  let tr := Engine.match_trace (length (heap s0)) s0 p in
  (forall s_i m, (s_i, m) ∈ tr ->
     resting (order_book_ s_i) opp m
     /\ forall r, resting (order_book_ s_i) opp r ->
          ~ beats opp (deref (heap s_i) r) (deref (heap s_i) m))
  /\ Engine.match_iter (Engine.matchOrder s0 p).1 p = None
  /\ trades_ (submit_new s a).1 = trades_ s ++ trace_trades p tr
  /\ StronglySorted
       (fun m1 m2 => ~ beats opp (deref (heap s0) m2) (deref (heap s0) m1)) tr.*2.
Proof.
  intros Hv s s0 p opp tr.
  destruct (run_fresh _ cb1 cb2 _ Hv) as (HI & Hwa & Hfresh). fold s in HI, Hfresh.
  destruct (submit_new_spec s a HI Hwa Hfresh)
    as (HI0 & Hout0 & _ & _ & _ & _ & _ & _ & _ & Htr2 & _).
  fold s0 in HI0, Hout0. change (length (heap s)) with p in Hout0.
  assert (deref (heap s0) p = new_Order (a_id a) (a_side a) (a_price a)
                                        (a_quantity a) (a_timestamp a)) as Hp0
    by apply deref_snoc.
  assert (side_ (deref (heap s0) p) = a_side a) as Hside by by rewrite Hp0.
  split_and!.
  - intros s_i m Hin.
    pose proof (match_trace_facts (length (heap s0)) s0 p HI0 Hout0) as Hall.
    rewrite Forall_forall in Hall. specialize (Hall _ Hin).
    pose proof (pass_at_priority _ _ _ Hall) as Hpr. cbn [fst snd] in Hpr.
    rewrite Hside in Hpr. exact Hpr.
  - apply matchOrder_exits, heap_ok_u64, HI0.
  - etransitivity; [exact Htr2|].
    destruct (match_loop_facts (length (heap s0)) s0 p 0 HI0 Hout0)
      as (_ & _ & _ & _ & _ & _ & Htr).
    etransitivity; [exact Htr|]. reflexivity.
  - unfold opp. rewrite <- Hside. apply trace_sorted; [done..|].
    intros x. apply same_static_refl.
Qed.

(** C2. Pricing rule and sides of a trade. In the setting of C1, every
    pass of the matching loop appends exactly one trade; its price is the
    price of the matched resting order (the maker), its [buy_order_id] is
    the id of the participant on the Buy side and its [sell_order_id] the id
    of the participant on the Sell side, whichever of the two is the
    incoming order.  The trades a submission adds are the trades of its
    passes, and cancelling adds none. *)
Theorem trade_price_and_sides ops cb1 cb2 a :
  valid_ops (ops ++ [Submit a]) ->
  let s := run ops (Engine.init cb1 cb2) in
  let s0 := (make_shared s a).1 in
  let p := (make_shared s a).2 in
  let tr := Engine.match_trace (length (heap s0)) s0 p in
  (forall s_i m, (s_i, m) ∈ tr ->
     let o := deref (heap s_i) p in
     let mo := deref (heap s_i) m in
     exists s' t,
       Engine.match_iter s_i p = Some (m, s')
       /\ trades_ s' = trades_ s_i ++ [t]
       /\ resting (order_book_ s_i) (Engine.opposing (a_side a)) m
       /\ trade_price t = price_ mo
       /\ ((side_ o = BUY /\ side_ mo = SELL
            /\ buy_order_id t = id_ o /\ sell_order_id t = id_ mo)
           \/ (side_ o = SELL /\ side_ mo = BUY
               /\ buy_order_id t = id_ mo /\ sell_order_id t = id_ o)))
  /\ trades_ (submit_new s a).1 = trades_ s ++ trace_trades p tr
  /\ forall i, trades_ (Engine.cancelOrder s i).1 = trades_ s.
Proof.
  intros Hv s s0 p tr.
  destruct (run_fresh _ cb1 cb2 _ Hv) as (HI & Hwa & Hfresh). fold s in HI, Hfresh.
  destruct (submit_new_spec s a HI Hwa Hfresh)
    as (HI0 & Hout0 & _ & _ & _ & _ & _ & _ & _ & Htr2 & _).
  fold s0 in HI0, Hout0. change (length (heap s)) with p in Hout0.
  assert (side_ (deref (heap s0) p) = a_side a) as Hside
    by (unfold s0, p; cbn [make_shared fst snd Engine.set_heap heap];
        by rewrite deref_snoc).
  split_and!.
  - intros s_i m Hin o mo.
    pose proof (match_trace_facts (length (heap s0)) s0 p HI0 Hout0) as Hall.
    rewrite Forall_forall in Hall. specialize (Hall _ Hin).
    destruct (pass_at_priority _ _ _ Hall) as [Hrest _]. cbn [fst snd] in Hrest.
    rewrite Hside in Hrest.
    destruct Hall as (_ & _ & _ & _ & _ & s' & Hit & Hpo). cbn [fst snd] in Hit, Hpo.
    exists s', (trade_of o mo (pass_qty s_i p m)).
    split_and!; [done|apply (po_trade _ _ _ _ Hpo)|done|..].
    + unfold trade_of. by destruct (side_ o).
    + pose proof (po_side _ _ _ _ Hpo) as Hs. fold o mo in Hs.
      unfold trade_of. destruct (side_ o); cbn in *; [left|right]; done.
  - etransitivity; [exact Htr2|].
    destruct (match_loop_facts (length (heap s0)) s0 p 0 HI0 Hout0)
      as (_ & _ & _ & _ & _ & _ & Htr).
    etransitivity; [exact Htr|]. reflexivity.
  - intros i. apply cancel_trades.
Qed.

(** ** Monotonicity along a run *)

Lemma step_evolves s op :
  Inv s -> wf_op op ->
  match op with Submit a => a_id a ∉ id_ <$> heap s | Cancel _ => True end ->
  heap_evolves (heap s) (heap (step s op)).
Proof.
  intros HI Hwf Hfresh. destruct op as [a|i]; cbn [step].
  - apply fresh_id_ids in Hfresh.
    destruct (submit_new_spec s a HI Hwf Hfresh)
      as (HI0 & _ & _ & _ & _ & Hev & _ & _ & -> & _).
    eapply heap_evolves_trans; [|exact Hev].
    intros x ox Hx. exists ox. destruct (h_range _ (inv_heap _ HI) _ _ Hx) as (_ & _ & _ & ?).
    split_and!; [|apply same_static_refl|lia|lia].
    cbn [make_shared fst Engine.set_heap heap]. by apply lookup_app_l_Some.
  - rewrite cancel_heap. apply heap_evolves_refl, HI.
Qed.

Lemma run_app ops1 ops2 s : run (ops1 ++ ops2) s = run ops2 (run ops1 s).
Proof. unfold run. by rewrite fold_left_app. Qed.

Lemma valid_ops_app_l ops1 ops2 : valid_ops (ops1 ++ ops2) -> valid_ops ops1.
Proof.
  induction ops2 as [|op ops2 IH] using rev_ind.
  - by rewrite app_nil_r.
  - rewrite app_assoc. intros Hv. apply valid_ops_snoc in Hv as (Hv & _). by apply IH.
Qed.

Lemma run_evolves ops1 ops2 cb1 cb2 :
  valid_ops (ops1 ++ ops2) ->
  heap_evolves (heap (run ops1 (Engine.init cb1 cb2)))
               (heap (run (ops1 ++ ops2) (Engine.init cb1 cb2))).
Proof.
  induction ops2 as [|op ops2 IH] using rev_ind; intros Hv.
  - rewrite app_nil_r in *. apply heap_evolves_refl. by apply run_Inv.
  - rewrite app_assoc in *. apply valid_ops_snoc in Hv as (Hv & Hwf & Hfresh).
    destruct (run_Inv _ cb1 cb2 Hv) as [HI Hids].
    eapply heap_evolves_trans; [by apply IH|].
    rewrite run_snoc. apply step_evolves; [done..|].
    destruct op; [by rewrite Hids|done].
Qed.

(** In a state that satisfies the invariant a filled order is nowhere in
    the book. *)
Lemma filled_not_in_book s p o :
  Inv s -> heap s !! p = Some o -> remaining_quantity_ o = 0 ->
  orders_ (order_book_ s) !! id_ o = None
  /\ forall side, ~ resting (order_book_ s) side p.
Proof.
  intros HI Hp Hr.
  assert (forall x, orders_ (order_book_ s) !! id_ o = Some x -> False) as Hno.
  { intros x Hx. destruct (b_index _ _ (inv_wf _ HI) _ _ Hx) as (ox & Hox & Hid & _).
    assert (x = p) as -> by (eapply (h_ids _ (inv_heap _ HI)); eauto).
    pose proof (inv_open _ HI _ _ Hx) as Hpos.
    rewrite (deref_Some _ _ _ Hp) in Hpos. lia. }
  split.
  - destruct (orders_ (order_book_ s) !! id_ o) as [x|] eqn:E; [|done].
    by destruct (Hno x).
  - intros side (k & l & Hl & Hin).
    destruct (member_level _ _ _ _ _ _ _ (inv_wf _ HI) Hl Hin Hp) as (_ & _ & Hi).
    by apply (Hno p).
Qed.

Lemma outside_not_resting s p o :
  Inv s -> heap s !! p = Some o -> orders_ (order_book_ s) !! id_ o = None ->
  forall side, ~ resting (order_book_ s) side p.
Proof.
  intros HI Hp Hnone side (k & l & Hl & Hin).
  destruct (member_level _ _ _ _ _ _ _ (inv_wf _ HI) Hl Hin Hp) as (_ & _ & Hi).
  congruence.
Qed.

(** C3. Resting the residue. For every state and every order handed to
    [submitOrder]: the call returns true, and when the matching loop is
    left (in state [s1]) the order is added to the book, on its own side at
    its own limit price and under its id, if its remaining quantity is not
    zero, and the state is left as it is if its remaining quantity is zero.
    For a new order submitted after a valid sequence of operations run from
    the empty engine: the loop is indeed left at [s1] and the order is not
    in the book there; if its remaining quantity is positive it is then in
    the id index and in the level of its own side at its own limit price,
    and in no other level; if it is zero the order is neither in the index
    nor in any level, and this stays so in every state reached by further
    operations.  So the order is in the book after the submission exactly
    when its remaining quantity is positive. *)
Theorem rest_iff_remaining :
  (forall s p,
     let s1 := (Engine.matchOrder s p).1 in
     let s2 := (Engine.submitOrder s (Some p)).1 in
     let o := deref (heap s1) p in
     (Engine.submitOrder s (Some p)).2 = true
     /\ (remaining_quantity_ o <> 0 ->
           order_book_ s2 = (Book.addOrder (heap s1) (order_book_ s1) (Some p)).1
           /\ orders_ (order_book_ s2) !! id_ o = Some p
           /\ resting_at (order_book_ s2) (side_ o) (price_ o) p)
     /\ (remaining_quantity_ o = 0 -> s2 = s1))
  /\ forall ops cb1 cb2 a,
     valid_ops (ops ++ [Submit a]) ->
     let s := run ops (Engine.init cb1 cb2) in
     let s0 := (make_shared s a).1 in
     let p := (make_shared s a).2 in
     let s1 := (Engine.matchOrder s0 p).1 in
     let s2 := (submit_new s a).1 in
     let r := remaining_quantity_ (deref (heap s1) p) in
     Engine.match_iter s1 p = None
     /\ (orders_ (order_book_ s1) !! a_id a = None
         /\ forall side, ~ resting (order_book_ s1) side p)
     /\ 0 <= r
     /\ (0 < r ->
           orders_ (order_book_ s2) !! a_id a = Some p
           /\ resting_at (order_book_ s2) (a_side a) (a_price a) p
           /\ forall side k, resting_at (order_book_ s2) side k p ->
                side = a_side a /\ k = a_price a)
     /\ (r = 0 ->
           order_book_ s2 = order_book_ s1
           /\ orders_ (order_book_ s2) !! a_id a = None
           /\ (forall side, ~ resting (order_book_ s2) side p)
           /\ forall ops',
                valid_ops (ops ++ [Submit a] ++ ops') ->
                let s' := run (ops ++ [Submit a] ++ ops') (Engine.init cb1 cb2) in
                orders_ (order_book_ s') !! a_id a = None
                /\ forall side, ~ resting (order_book_ s') side p)
     /\ (orders_ (order_book_ s2) !! a_id a = Some p <-> 0 < r).
Proof.
  split.
  { intros s p s1 s2 o. unfold s2. cbn [Engine.submitOrder fst snd]. fold s1. fold o.
    split_and!; [done|..].
    - intros Hnz. assert (isFilled o = false) as -> by by apply isFilled_false.
      cbn [negb]. rewrite notifyOrderCallback_book. cbn [Engine.set_book order_book_].
      split; [done|]. apply addOrder_resting.
    - intros Hz. assert (isFilled o = true) as -> by by apply isFilled_true.
      done. }
  intros ops cb1 cb2 a Hv s s0 p s1 s2 r.
  destruct (run_fresh _ cb1 cb2 _ Hv) as (HI & Hwa & Hfresh). fold s in HI, Hfresh.
  destruct (submit_new_spec s a HI Hwa Hfresh)
    as (HI0 & Hout0 & HI1 & Hout1 & Hexit & Hev & Hlen & HI2 & Hh2 & Htr2 & Hb2).
  change (Inv s1) in HI1. change (Inv s2) in HI2.
  change (outside s1 p) in Hout1. change (Engine.match_iter s1 p = None) in Hexit.
  change (heap_evolves (heap s0) (heap s1)) in Hev.
  change (heap s2 = heap s1) in Hh2.
  change (order_book_ s2
          = if isFilled (deref (heap s1) p) then order_book_ s1
            else (Book.addOrder (heap s1) (order_book_ s1) (Some p)).1) in Hb2.
  assert (heap s0 !! p = Some (new_Order (a_id a) (a_side a) (a_price a)
                                         (a_quantity a) (a_timestamp a))) as Hp0
    by by apply list_lookup_middle.
  destruct (Hev _ _ Hp0) as (o1 & Hp1 & (Sid & Sside & Sprice & _) & Hr1).
  cbn [new_Order id_ side_ price_] in Sid, Sside, Sprice.
  assert (deref (heap s1) p = o1) as Hd1 by by apply deref_Some.
  unfold outside in Hout1. rewrite Hd1, Sid in Hout1.
  assert (r = remaining_quantity_ o1) as Hr by (unfold r; by rewrite Hd1).
  assert (forall side, ~ resting (order_book_ s1) side p) as Hnr1.
  { eapply outside_not_resting; eauto. by rewrite Sid. }
  assert (0 < r ->
          orders_ (order_book_ s2) !! a_id a = Some p
          /\ resting_at (order_book_ s2) (a_side a) (a_price a) p
          /\ forall side k, resting_at (order_book_ s2) side k p ->
               side = a_side a /\ k = a_price a) as Hpos.
  { intros Hpos. rewrite Hb2.
    assert (isFilled (deref (heap s1) p) = false) as ->
      by (apply isFilled_false; fold r; lia).
    destruct (addOrder_resting (heap s1) (order_book_ s1) p) as [Hi Hra].
    rewrite Hd1 in Hi, Hra. rewrite Sid in Hi. rewrite Sside, Sprice in Hra.
    split_and!; [done..|].
    intros side k (l & Hl & Hin).
    assert (isFilled (deref (heap s1) p) = false) as Hf
      by (apply isFilled_false; fold r; lia).
    pose proof (inv_wf _ HI2) as Hwf2. rewrite Hh2, Hb2, Hf in Hwf2.
    destruct (member_level _ _ _ _ _ _ _ Hwf2 Hl Hin Hp1) as (? & ? & _).
    split; congruence. }
  assert (r = 0 ->
          order_book_ s2 = order_book_ s1
          /\ orders_ (order_book_ s2) !! a_id a = None
          /\ forall side, ~ resting (order_book_ s2) side p) as Hzero.
  { intros Hz. rewrite Hb2.
    assert (isFilled (deref (heap s1) p) = true) as ->
      by (apply isFilled_true; by fold r).
    done. }
  split_and!; try done.
  - lia.
  - intros Hz. destruct (Hzero Hz) as (E1 & E2 & E3). split_and!; try done.
    intros ops' Hv' s'.
    rewrite app_assoc in Hv'. unfold s'. rewrite app_assoc.
    pose proof (run_evolves (ops ++ [Submit a]) ops' cb1 cb2 Hv') as Hev'.
    destruct (run_Inv _ cb1 cb2 Hv') as [HI' _].
    rewrite run_snoc in Hev'. fold s in Hev'. cbn [step] in Hev'. fold s2 in Hev'.
    rewrite Hh2 in Hev'. destruct (Hev' _ _ Hp1) as (o' & Hp' & (Sid' & _) & Hr').
    rewrite <- Sid, <- Sid'.
    eapply filled_not_in_book; [exact HI'|exact Hp'|lia].
  - split; [|by intros H; apply Hpos].
    intros Hi. destruct (decide (r = 0)) as [Hz|Hnz]; [|lia].
    destruct (Hzero Hz) as (_ & E2 & _). congruence.
Qed.

(** C4. No resting cross. After every operation of a valid sequence run
    from the empty engine: if both sides of the book are non-empty the best
    ask is strictly greater than the best bid; and no order in the book
    admits a match with any level of the opposing side, that is, an order
    whose limit still crosses the opposing side does not rest. *)
Theorem no_resting_cross ops cb1 cb2 :
  valid_ops ops ->
  let s := run ops (Engine.init cb1 cb2) in
  let b := order_book_ s in
  (bids_ b <> ∅ -> asks_ b <> ∅ -> Book.getBestBid b < Book.getBestAsk b)
  /\ forall i p, orders_ b !! i = Some p ->
       let o := deref (heap s) p in
       forall k, is_Some (Book.getPriceLevelMap b (Engine.opposing (side_ o)) !! k) ->
                 ~ compatible (side_ o) (price_ o) k.
Proof.
  intros Hv s b. destruct (run_Inv ops cb1 cb2 Hv) as [HI _]. fold s in HI.
  pose proof (inv_nocross _ HI) as Hnc. fold b in Hnc. split.
  - intros Hb Ha. unfold Book.getBestBid, Book.getBestAsk.
    destruct (max_key (bids_ b)) as [kb|] eqn:Eb; [|by apply max_key_None in Eb].
    destruct (min_key (asks_ b)) as [ka|] eqn:Ea; [|by apply min_key_None in Ea].
    apply max_key_Some in Eb as [Hkb _]. apply min_key_Some in Ea as [Hka _].
    by apply Hnc.
  - intros i p Hi o k Hk.
    destruct (b_index _ _ (inv_wf _ HI) _ _ Hi) as (ox & Hox & _ & l & Hl & _).
    fold b in Hl. unfold o in *. rewrite (deref_Some _ _ _ Hox) in *.
    destruct (side_ ox); cbn in *.
    + specialize (Hnc (price_ ox) k (ex_intro _ l Hl) Hk). lia.
    + specialize (Hnc k (price_ ox) Hk (ex_intro _ l Hl)). lia.
Qed.

(** C5 (as the code has it). After every operation of a valid sequence
    run from the empty engine, every level present in the bid or ask map
    has a non-empty queue, and its [total_quantity] is the sum of the
    remaining quantities of the orders in its queue reduced modulo 2^64;
    it is that sum itself whenever the sum is below 2^64. *)
Theorem aggregate_consistency ops cb1 cb2 :
  valid_ops ops ->
  let s := run ops (Engine.init cb1 cb2) in
  forall side k l,
    Book.getPriceLevelMap (order_book_ s) side !! k = Some l ->
    orders l <> []
    /\ total_quantity l = wrap64 (sum_remaining (heap s) (orders l))
    /\ (sum_remaining (heap s) (orders l) < 2 ^ 64 ->
        total_quantity l = sum_remaining (heap s) (orders l)).
Proof.
  intros Hv s side k l Hl. destruct (run_Inv ops cb1 cb2 Hv) as [HI _]. fold s in HI.
  pose proof (b_levels _ _ (inv_wf _ HI) _ _ _ Hl) as Hlok.
  split_and!; [apply Hlok|apply Hlok|].
  intros Hlt. rewrite (l_total _ _ _ _ _ Hlok). apply wrap64_small. split; [|done].
  assert (forall q, (forall x, x ∈ q -> x ∈ orders l) -> 0 <= sum_remaining (heap s) q) as Hnn.
  { induction q as [|x q IH]; intros Hq; cbn [sum_remaining foldr]; [lia|].
    fold (sum_remaining (heap s) q).
    destruct (l_members _ _ _ _ _ Hlok x) as (ox & Hox & _); [apply Hq; by left|].
    destruct (h_range _ (inv_heap _ HI) _ _ Hox) as (_ & _ & _ & ?).
    rewrite (deref_Some _ _ _ Hox).
    assert (0 <= sum_remaining (heap s) q) by (apply IH; intros y Hy; apply Hq; by right).
    lia. }
  by apply Hnn.
Qed.

(** C6. Conservation of quantity. After every operation of a valid
    sequence run from the empty engine, for every order object ever created
    the original quantity is the remaining quantity plus the quantities of
    all trades in the trade list that reference its id.  One more valid
    operation leaves every order where it is, with its fixed fields, and
    with a remaining quantity that is not negative and not greater than
    before.  In every pass of the matching loop of a further submission the
    same equation holds when the pass starts, and the trade the pass emits,
    of quantity [q], lowers the remaining quantities of the incoming order
    and of the matched order by exactly [q] and changes no other order. *)
Theorem quantity_conservation ops cb1 cb2 :
  valid_ops ops ->
  let s := run ops (Engine.init cb1 cb2) in
  (forall p o, heap s !! p = Some o ->
     quantity_ o = remaining_quantity_ o + traded (trades_ s) (id_ o))
  /\ (forall op, valid_ops (ops ++ [op]) -> heap_evolves (heap s) (heap (step s op)))
  /\ forall a, valid_ops (ops ++ [Submit a]) ->
       let s0 := (make_shared s a).1 in
       let p := (make_shared s a).2 in
       forall s_i m, (s_i, m) ∈ Engine.match_trace (length (heap s0)) s0 p ->
         (forall x o, heap s_i !! x = Some o ->
            quantity_ o = remaining_quantity_ o + traded (trades_ s_i) (id_ o))
         /\ exists s' t,
              Engine.match_iter s_i p = Some (m, s')
              /\ trades_ s' = trades_ s_i ++ [t]
              /\ 0 < trade_quantity t
              /\ refers t (id_ (deref (heap s_i) p)) = true
              /\ refers t (id_ (deref (heap s_i) m)) = true
              /\ remaining_quantity_ (deref (heap s') p)
                 = remaining_quantity_ (deref (heap s_i) p) - trade_quantity t
              /\ remaining_quantity_ (deref (heap s') m)
                 = remaining_quantity_ (deref (heap s_i) m) - trade_quantity t
              /\ forall x, x <> p -> x <> m -> heap s' !! x = heap s_i !! x.
Proof.
  intros Hv s. destruct (run_Inv ops cb1 cb2 Hv) as [HI Hids]. fold s in HI, Hids.
  split_and!.
  - apply (inv_cons _ HI).
  - intros op Hv'. apply valid_ops_snoc in Hv' as (_ & Hwf & Hfresh).
    apply step_evolves; [done..|]. destruct op; [by rewrite Hids|done].
  - intros a Hv' s0 p s_i m Hin.
    destruct (run_fresh _ cb1 cb2 _ Hv') as (_ & Hwa & Hfresh). fold s in Hfresh.
    destruct (submit_new_spec s a HI Hwa Hfresh) as (HI0 & Hout0 & _).
    pose proof (match_trace_facts (length (heap s0)) s0 p HI0 Hout0) as Hall.
    rewrite Forall_forall in Hall. specialize (Hall _ Hin).
    destruct Hall as (HIi & _ & _ & _ & _ & s' & Hit & Hpo). cbn [fst snd] in *.
    split; [apply (inv_cons _ HIi)|].
    exists s', (trade_of (deref (heap s_i) p) (deref (heap s_i) m) (pass_qty s_i p m)).
    pose proof (po_open _ _ _ _ Hpo) as Hop.
    pose proof (po_maker_open _ _ _ _ Hpo) as Hom.
    assert (trade_quantity (trade_of (deref (heap s_i) p) (deref (heap s_i) m)
                                     (pass_qty s_i p m)) = pass_qty s_i p m) as Hq
      by (unfold trade_of; by destruct (side_ _)).
    rewrite Hq, !refers_trade_of, !Z.eqb_refl, orb_true_r.
    split_and!; try done.
    + apply (po_trade _ _ _ _ Hpo).
    + unfold pass_qty. lia.
    + apply (po_rem_p _ _ _ _ Hpo).
    + apply (po_rem_m _ _ _ _ Hpo).
    + intros x Hxp Hxm. rewrite (po_heap _ _ _ _ Hpo).
      by rewrite !reduce_at_lookup_ne.
Qed.

Lemma match_loop_static fuel s p n x :
  same_static (deref (heap s) x) (deref (heap (Engine.match_loop fuel s p n).1) x).
Proof.
  revert s n. induction fuel as [|fuel IH]; intros s n; cbn [Engine.match_loop].
  - apply same_static_refl.
  - destruct (Engine.match_iter s p) as [[m s']|] eqn:E; [|apply same_static_refl].
    eapply same_static_trans; [apply (match_iter_static _ _ _ _ x E)|apply IH].
Qed.

Lemma addOrder_appends h b p :
  let o := deref h p in
  let r := Book.addOrder h b (Some p) in
  r.2 = true
  /\ orders_ r.1 !! id_ o = Some p
  /\ (exists l', Book.getPriceLevelMap r.1 (side_ o) !! price_ o = Some l'
        /\ orders l'
           = match Book.getPriceLevelMap b (side_ o) !! price_ o with
             | Some l => orders l
             | None => []
             end ++ [p])
  /\ r.1 <> b.
Proof.
  intros o r. unfold r. rewrite addOrder_known. cbn [fst snd]. fold o.
  assert (Book.getPriceLevelMap
            (upd_level (Book.set_orders b (<[id_ o:=p]> (orders_ b))) (side_ o) (price_ o)
               (Level.addOrder h
                  (default (mkLevel (price_ o) 0 [])
                           (Book.getPriceLevelMap b (side_ o) !! price_ o)) p))
            (side_ o) !! price_ o
          = Some (Level.addOrder h
                    (default (mkLevel (price_ o) 0 [])
                             (Book.getPriceLevelMap b (side_ o) !! price_ o)) p)) as Hl
    by (rewrite lookup_upd_level; by rewrite decide_True).
  split_and!.
  - done.
  - rewrite orders_upd_level. cbn [Book.set_orders orders_]. by rewrite lookup_insert_eq.
  - eexists. split; [exact Hl|]. unfold Level.addOrder. cbn [orders].
    by destruct (Book.getPriceLevelMap b (side_ o) !! price_ o).
  - intros E. rewrite E in Hl. unfold Level.addOrder in Hl.
    destruct (Book.getPriceLevelMap b (side_ o) !! price_ o) as [l|]; [|done].
    injection Hl as Hl. apply (f_equal orders) in Hl. cbn [orders default] in Hl.
    apply (f_equal length) in Hl. rewrite length_app in Hl. cbn in Hl. lia.
Qed.

(** C7 (as the code has it). There is no duplicate check. For every store,
    every book and every order whose id is already in the id index:
    [addOrder] returns true, overwrites the index entry of that id with the
    order and appends the order to the queue of the level at its price on
    its side, so the book is not the book it was. [submitOrder] returns
    true as well: it first runs the matching loop; an order that is left
    with open quantity is then added in the same way (its id's index entry
    is overwritten with it and it is appended to the queue of its level, so
    the book is not the book matching left); an order that matching fills
    completely is not added, and the state is the one matching left. *)
Theorem addOrder_duplicate_accepted h b p :
  is_Some (orders_ b !! id_ (deref h p)) ->
  let o := deref h p in
  let r := Book.addOrder h b (Some p) in
  r.2 = true
  /\ orders_ r.1 !! id_ o = Some p
  /\ (exists l', Book.getPriceLevelMap r.1 (side_ o) !! price_ o = Some l'
        /\ orders l'
           = match Book.getPriceLevelMap b (side_ o) !! price_ o with
             | Some l => orders l
             | None => []
             end ++ [p])
  /\ r.1 <> b
  /\ forall s, heap s = h -> order_book_ s = b ->
       let s1 := (Engine.matchOrder s p).1 in
       let r' := Engine.submitOrder s (Some p) in
       r'.2 = true
       /\ (isFilled (deref (heap s1) p) = true -> r'.1 = s1)
       /\ (isFilled (deref (heap s1) p) = false ->
             heap r'.1 = heap s1
             /\ orders_ (order_book_ r'.1) !! id_ o = Some p
             /\ (exists l',
                   Book.getPriceLevelMap (order_book_ r'.1) (side_ o) !! price_ o = Some l'
                   /\ orders l'
                      = match Book.getPriceLevelMap (order_book_ s1) (side_ o) !! price_ o with
                        | Some l => orders l
                        | None => []
                        end ++ [p])
             /\ order_book_ r'.1 <> order_book_ s1).
Proof.
  intros _ o r.
  destruct (addOrder_appends h b p) as (A1 & A2 & A3 & A4).
  split; [exact A1|]. split; [exact A2|]. split; [exact A3|]. split; [exact A4|].
  intros s Hh Hb s1 r'. unfold r'. cbn [Engine.submitOrder fst snd]. fold s1.
  split; [done|].
  destruct (isFilled (deref (heap s1) p)) eqn:Hf; cbn [negb].
  - split; [done|discriminate].
  - split; [discriminate|]. intros _.
    rewrite notifyOrderCallback_heap, notifyOrderCallback_book.
    cbn [Engine.set_book heap order_book_].
    destruct (match_loop_static (length (heap s)) s p 0 p) as (Hid & Hside & Hprice & _).
    fold (Engine.matchOrder s p) in Hid, Hside, Hprice. fold s1 in Hid, Hside, Hprice.
    rewrite Hh in Hid, Hside, Hprice. fold o in Hid, Hside, Hprice.
    destruct (addOrder_appends (heap s1) (order_book_ s1) p) as (_ & B2 & B3 & B4).
    cbn zeta in B2, B3, B4. rewrite Hid in B2. rewrite Hside, Hprice in B3.
    split; [done|]. split; [exact B2|]. split; [exact B3|exact B4].
Qed.

(** C8 (as the code has it). [submitOrder] does not validate the quantity:
    in every state, submitting a new order whose original quantity is zero
    returns true; the matching loop does not run, no trade is emitted, no
    callback is called, nothing is added to the book, and the engine is
    left exactly as it was (only the order object itself has been
    created). *)
Theorem zero_quantity_accepted s a :
  a_quantity a = 0 ->
  submit_new s a = ((make_shared s a).1, true)
  /\ order_book_ (submit_new s a).1 = order_book_ s
  /\ trades_ (submit_new s a).1 = trades_ s
  /\ trade_count_ (submit_new s a).1 = trade_count_ s
  /\ total_volume_ (submit_new s a).1 = total_volume_ s
  /\ total_value_ (submit_new s a).1 = total_value_ s
  /\ order_events (submit_new s a).1 = order_events s
  /\ trade_events (submit_new s a).1 = trade_events s.
Proof.
  intros Hz.
  assert (submit_new s a = ((make_shared s a).1, true)) as E.
  { rewrite submit_new_unfold. cbn zeta.
    assert (isFilled (deref (heap (make_shared s a).1) (length (heap s))) = true) as Hf.
    { cbn [make_shared fst Engine.set_heap heap]. rewrite deref_snoc.
      apply isFilled_true. cbn. exact Hz. }
    assert ((Engine.matchOrder (make_shared s a).1 (length (heap s))).1
            = (make_shared s a).1) as ->.
    { unfold Engine.matchOrder. destruct (length (heap (make_shared s a).1)); [done|].
      cbn [Engine.match_loop]. by rewrite (match_iter_None_filled _ _ Hf). }
    by rewrite Hf. }
  rewrite E. done.
Qed.

(** C9. Idempotent cancel. In every state: cancelling an id that is not in
    the id index returns false and changes nothing (bid map, ask map, index
    and the rest of the engine state), both in the book and in the engine;
    cancelling an id that is in the index returns true; and once an id has
    been cancelled, cancelling it again returns false. *)
Theorem cancel_unknown_is_noop s i :
  (orders_ (order_book_ s) !! i = None ->
     Book.cancelOrder (heap s) (order_book_ s) i = (order_book_ s, false)
     /\ Engine.cancelOrder s i = (s, false))
  /\ (is_Some (orders_ (order_book_ s) !! i) ->
     (Book.cancelOrder (heap s) (order_book_ s) i).2 = true
     /\ (Engine.cancelOrder s i).2 = true)
  /\ (Engine.cancelOrder (Engine.cancelOrder s i).1 i).2 = false.
Proof.
  assert (forall h b j, orders_ (Book.cancelOrder h b j).1 !! j = None) as Hgone.
  { intros h b j. unfold Book.cancelOrder.
    destruct (orders_ b !! j) eqn:E; cbn [fst]; [|done].
    cbn [Book.set_orders orders_]. apply lookup_delete_eq. }
  split_and!.
  - intros Hi. unfold Engine.cancelOrder. rewrite cancelOrder_unknown by done.
    split; [done|]. by destruct s.
  - intros [m Hm]. unfold Engine.cancelOrder, Book.cancelOrder. rewrite Hm. done.
  - assert (orders_ (order_book_ (Engine.cancelOrder s i).1) !! i = None) as Hi.
    { unfold Engine.cancelOrder.
      pose proof (Hgone (heap s) (order_book_ s) i) as Hg.
      destruct (Book.cancelOrder (heap s) (order_book_ s) i) as [b [|]]; cbn [fst] in *.
      - by rewrite notifyOrderCallback_book.
      - done. }
    unfold Engine.cancelOrder at 1. by rewrite cancelOrder_unknown.
Qed.

(** C10. The cancel notification carries no order. In every state,
    cancelling an id that is in the id index returns true; the id is no
    longer in the index when the engine looks it up for the callback, so the
    order callback, when one is set, is called once, with the null pointer;
    when none is set nothing is called. *)
Theorem cancel_notifies_null s i :
  is_Some (orders_ (order_book_ s) !! i) ->
  let r := Engine.cancelOrder s i in
  r.2 = true
  /\ Book.getOrder (Book.cancelOrder (heap s) (order_book_ s) i).1 i = None
  /\ order_events r.1
     = (if order_callback_ s then order_events s ++ [None] else order_events s).
Proof.
  intros [m Hm] r. unfold r, Engine.cancelOrder, Book.getOrder.
  assert (orders_ (Book.cancelOrder (heap s) (order_book_ s) i).1 !! i = None) as Hgone.
  { unfold Book.cancelOrder. rewrite Hm. cbn [fst Book.set_orders orders_].
    apply lookup_delete_eq. }
  assert ((Book.cancelOrder (heap s) (order_book_ s) i).2 = true) as Ht
    by (unfold Book.cancelOrder; by rewrite Hm).
  destruct (Book.cancelOrder (heap s) (order_book_ s) i) as [b c].
  cbn [fst snd] in *. subst c. cbn [fst snd Engine.set_book order_book_].
  rewrite Hgone. split_and!; [done..|].
  unfold Engine.notifyOrderCallback.
  cbn [Engine.set_book order_callback_ order_events].
  by destruct (order_callback_ s).
Qed.

(** ** The model on small books *)

(** A sell order for 4 meets a resting bid for 10 at the same price. *)
Example simple_cross :
  let s := run [Submit (mkArgs 1 BUY 100 10 1); Submit (mkArgs 2 SELL 100 4 2)]
               (Engine.init false false) in
  trades_ s = [mkTrade 1 2 100 4]
  /\ bids_ (order_book_ s) !! 100 = Some (mkLevel 100 6 [0%nat])
  /\ asks_ (order_book_ s) = ∅
  /\ Book.getBestBid (order_book_ s) = 100
  /\ Book.getBestAsk (order_book_ s) = 0.
Proof. vm_compute. repeat split; reflexivity. Qed.

(** A buy order sweeps the best ask level and part of the next one. *)
Example sweep_two_levels :
  let s := run (sweep_ops ++ [Submit sweep_order]) (Engine.init false false) in
  trades_ s = [mkTrade 4 1 101 3; mkTrade 4 2 102 5]
  /\ asks_ (order_book_ s) !! 101 = None
  /\ asks_ (order_book_ s) !! 102 = Some (mkLevel 102 2 [2%nat])
  /\ orders_ (order_book_ s) !! 4 = None
  /\ bids_ (order_book_ s) = ∅.
Proof. vm_compute. repeat split; reflexivity. Qed.

(** Two bids at one price: the earlier one is matched first and leaves the
    book, the later one keeps its residue. *)
Example time_priority_within_level :
  let s := run [Submit (mkArgs 1 BUY 100 4 1); Submit (mkArgs 2 BUY 100 4 2);
                Submit (mkArgs 3 SELL 100 5 3)] (Engine.init false false) in
  trades_ s = [mkTrade 1 3 100 4; mkTrade 2 3 100 1]
  /\ bids_ (order_book_ s) !! 100 = Some (mkLevel 100 3 [1%nat])
  /\ orders_ (order_book_ s) !! 1 = None.
Proof. vm_compute. repeat split; reflexivity. Qed.

(** The key of time priority is the order's time stamp: of two bids at one
    price the one with the earlier time stamp is matched first, also when
    it was added later. *)
Example earlier_time_stamp_first :
  let s := run [Submit (mkArgs 1 BUY 100 4 9); Submit (mkArgs 2 BUY 100 4 5);
                Submit (mkArgs 3 SELL 100 5 10)] (Engine.init false false) in
  trades_ s = [mkTrade 2 3 100 4; mkTrade 1 3 100 1].
Proof. vm_compute. reflexivity. Qed.

(** A second order with the id of a resting order is accepted and matched,
    here against the resting order of the same id; it is filled, so it is
    not added, the index keeps the resting order, and the level's total
    quantity, lowered twice through the shared id, no longer is the
    remaining quantity of its queue. *)
Example reused_id_filled_on_arrival :
  let s := run [Submit (mkArgs 1 SELL 100 10 1); Submit (mkArgs 1 BUY 100 4 2)]
               (Engine.init false false) in
  trades_ s = [mkTrade 1 1 100 4]
  /\ orders_ (order_book_ s) !! 1 = Some 0%nat
  /\ bids_ (order_book_ s) = ∅
  /\ asks_ (order_book_ s) !! 100 = Some (mkLevel 100 2 [0%nat])
  /\ remaining_quantity_ (deref (heap s) 0%nat) = 6.
Proof. vm_compute. repeat split; reflexivity. Qed.

(** A cancelled bid is not matched; the callback is told about the resting
    bid, then (with a null pointer) about the cancel, then about the
    resting ask. *)
Example cancel_before_match :
  let s := run [Submit (mkArgs 1 BUY 100 10 1); Cancel 1;
                Submit (mkArgs 2 SELL 100 5 2)] (Engine.init true false) in
  trades_ s = []
  /\ bids_ (order_book_ s) = ∅
  /\ asks_ (order_book_ s) !! 100 = Some (mkLevel 100 5 [1%nat])
  /\ order_events s = [Some 0%nat; None; Some 1%nat].
Proof. vm_compute. repeat split; reflexivity. Qed.

(** ** The claims on concrete runs *)

Lemma price_time_priority_witness :
  valid_ops (sweep_ops ++ [Submit sweep_order])
  /\ let s := run sweep_ops (Engine.init true true) in
     let s0 := (make_shared s sweep_order).1 in
     let p := (make_shared s sweep_order).2 in
     let opp := Engine.opposing (a_side sweep_order) in
     let tr := Engine.match_trace (length (heap s0)) s0 p in
     (forall s_i m, (s_i, m) ∈ tr ->
        resting (order_book_ s_i) opp m
        /\ forall r, resting (order_book_ s_i) opp r ->
             ~ beats opp (deref (heap s_i) r) (deref (heap s_i) m))
     /\ Engine.match_iter (Engine.matchOrder s0 p).1 p = None
     /\ trades_ (submit_new s sweep_order).1 = trades_ s ++ trace_trades p tr
     /\ StronglySorted
          (fun m1 m2 => ~ beats opp (deref (heap s0) m2) (deref (heap s0) m1)) tr.*2.
Proof.
  assert (valid_ops (sweep_ops ++ [Submit sweep_order])) as Hv by valid_ops_tac.
  split; [exact Hv|].
  exact (price_time_priority sweep_ops true true sweep_order Hv).
Defined.

(** The claim of C1 with priority by arrival fails: of two asks at one
    price the one submitted second, with the earlier time stamp, is matched,
    while the one submitted first rests at the same price with open
    quantity and is not matched at all. *)
Lemma arrival_priority_counterexample :
  valid_ops (late_stamp_ops ++ [Submit late_stamp_order])
  /\ let s := run late_stamp_ops (Engine.init false false) in
     let s0 := (make_shared s late_stamp_order).1 in
     let p := (make_shared s late_stamp_order).2 in
     let tr := Engine.match_trace (length (heap s0)) s0 p in
     submitted_ids late_stamp_ops = [1; 2]
     /\ id_ (deref (heap s0) 0%nat) = 1 /\ id_ (deref (heap s0) 1%nat) = 2
     /\ tr.*2 = [1%nat]
     /\ resting (order_book_ s0) (Engine.opposing (a_side late_stamp_order)) 0%nat
     /\ price_ (deref (heap s0) 0%nat) = price_ (deref (heap s0) 1%nat)
     /\ 0 < remaining_quantity_ (deref (heap s0) 0%nat)
     /\ timestamp_ (deref (heap s0) 1%nat) < timestamp_ (deref (heap s0) 0%nat)
     /\ trades_ (submit_new s late_stamp_order).1 = [mkTrade 3 2 100 5].
Proof.
  split; [valid_ops_tac|]. cbn zeta.
  split_and!; try (vm_compute; reflexivity).
  exists 100, (mkLevel 100 10 [0%nat; 1%nat]).
  split; [vm_compute; reflexivity|by left].
Qed.

Lemma trade_price_and_sides_witness :
  valid_ops (sweep_ops ++ [Submit sweep_order])
  /\ let s := run sweep_ops (Engine.init true true) in
     let s0 := (make_shared s sweep_order).1 in
     let p := (make_shared s sweep_order).2 in
     let tr := Engine.match_trace (length (heap s0)) s0 p in
     (forall s_i m, (s_i, m) ∈ tr ->
        let o := deref (heap s_i) p in
        let mo := deref (heap s_i) m in
        exists s' t,
          Engine.match_iter s_i p = Some (m, s')
          /\ trades_ s' = trades_ s_i ++ [t]
          /\ resting (order_book_ s_i) (Engine.opposing (a_side sweep_order)) m
          /\ trade_price t = price_ mo
          /\ ((side_ o = BUY /\ side_ mo = SELL
               /\ buy_order_id t = id_ o /\ sell_order_id t = id_ mo)
              \/ (side_ o = SELL /\ side_ mo = BUY
                  /\ buy_order_id t = id_ mo /\ sell_order_id t = id_ o)))
     /\ trades_ (submit_new s sweep_order).1 = trades_ s ++ trace_trades p tr
     /\ forall i, trades_ (Engine.cancelOrder s i).1 = trades_ s.
Proof.
  assert (valid_ops (sweep_ops ++ [Submit sweep_order])) as Hv by valid_ops_tac.
  split; [exact Hv|].
  exact (trade_price_and_sides sweep_ops true true sweep_order Hv).
Defined.

Lemma rest_iff_remaining_witness :
  valid_ops (sweep_ops ++ [Submit sweep_order])
  /\ let s := run sweep_ops (Engine.init true true) in
     let s0 := (make_shared s sweep_order).1 in
     let p := (make_shared s sweep_order).2 in
     let s1 := (Engine.matchOrder s0 p).1 in
     let s2 := (submit_new s sweep_order).1 in
     let r := remaining_quantity_ (deref (heap s1) p) in
     r = 0
     /\ Engine.match_iter s1 p = None
     /\ order_book_ s2 = order_book_ s1
     /\ orders_ (order_book_ s2) !! a_id sweep_order = None
     /\ forall side, ~ resting (order_book_ s2) side p.
Proof.
  assert (valid_ops (sweep_ops ++ [Submit sweep_order])) as Hv by valid_ops_tac.
  split; [exact Hv|].
  pose proof (proj2 rest_iff_remaining sweep_ops true true sweep_order Hv)
    as (Hexit & _ & _ & _ & Hzero & _).
  assert (remaining_quantity_
            (deref (heap (Engine.matchOrder
                            (make_shared (run sweep_ops (Engine.init true true))
                                         sweep_order).1
                            (make_shared (run sweep_ops (Engine.init true true))
                                         sweep_order).2).1)
                   (make_shared (run sweep_ops (Engine.init true true)) sweep_order).2)
          = 0) as Hr by (vm_compute; reflexivity).
  destruct (Hzero Hr) as (E1 & E2 & E3 & _).
  cbn zeta. split_and!; assumption.
Defined.

Lemma no_resting_cross_witness :
  valid_ops (sweep_ops ++ [Submit (mkArgs 5 BUY 100 7 5)])
  /\ let s := run (sweep_ops ++ [Submit (mkArgs 5 BUY 100 7 5)]) (Engine.init true true) in
     let b := order_book_ s in
     bids_ b <> ∅ /\ asks_ b <> ∅ /\ Book.getBestBid b < Book.getBestAsk b.
Proof.
  assert (valid_ops (sweep_ops ++ [Submit (mkArgs 5 BUY 100 7 5)])) as Hv
    by valid_ops_tac.
  split; [exact Hv|].
  pose proof (no_resting_cross _ true true Hv) as [Hcross _].
  assert (bids_ (order_book_ (run (sweep_ops ++ [Submit (mkArgs 5 BUY 100 7 5)])
                                  (Engine.init true true))) !! 100 <> None) as Hb
    by (vm_compute; discriminate).
  assert (asks_ (order_book_ (run (sweep_ops ++ [Submit (mkArgs 5 BUY 100 7 5)])
                                  (Engine.init true true))) !! 101 <> None) as Ha
    by (vm_compute; discriminate).
  cbn zeta.
  assert (bids_ (order_book_ (run (sweep_ops ++ [Submit (mkArgs 5 BUY 100 7 5)])
                                  (Engine.init true true))) <> ∅) as Hb'
    by (intros E; apply Hb; rewrite E; apply lookup_empty).
  assert (asks_ (order_book_ (run (sweep_ops ++ [Submit (mkArgs 5 BUY 100 7 5)])
                                  (Engine.init true true))) <> ∅) as Ha'
    by (intros E; apply Ha; rewrite E; apply lookup_empty).
  split_and!; [exact Hb'|exact Ha'|exact (Hcross Hb' Ha')].
Defined.

(** The claim of C5 with the sum taken over the integers fails when the
    remaining quantities of one level add up to 2^64 or more: two bids of
    2^63 each at the same price leave a level whose [total_quantity] is 0. *)
Lemma aggregate_overflow_counterexample :
  valid_ops overflow_ops
  /\ let s := run overflow_ops (Engine.init false false) in
     exists l, Book.getPriceLevelMap (order_book_ s) BUY !! 100 = Some l
       /\ orders l = [0%nat; 1%nat]
       /\ total_quantity l = 0
       /\ sum_remaining (heap s) (orders l) = 2 ^ 64
       /\ total_quantity l <> sum_remaining (heap s) (orders l).
Proof.
  split; [valid_ops_tac|]. cbn zeta.
  exists (mkLevel 100 0 [0%nat; 1%nat]).
  split_and!; [vm_compute; reflexivity|reflexivity|reflexivity
              |vm_compute; reflexivity|vm_compute; discriminate].
Qed.

Lemma aggregate_consistency_witness :
  valid_ops overflow_ops
  /\ let s := run overflow_ops (Engine.init false false) in
     let l := mkLevel 100 0 [0%nat; 1%nat] in
     Book.getPriceLevelMap (order_book_ s) BUY !! 100 = Some l
     /\ orders l <> []
     /\ total_quantity l = wrap64 (sum_remaining (heap s) (orders l)).
Proof.
  assert (valid_ops overflow_ops) as Hv by valid_ops_tac.
  split; [exact Hv|]. cbn zeta.
  assert (Book.getPriceLevelMap
            (order_book_ (run overflow_ops (Engine.init false false))) BUY !! 100
          = Some (mkLevel 100 0 [0%nat; 1%nat])) as Hl by (vm_compute; reflexivity).
  destruct (aggregate_consistency overflow_ops false false Hv BUY 100 _ Hl)
    as (H1 & H2 & _).
  split_and!; assumption.
Defined.

Lemma quantity_conservation_witness :
  valid_ops sweep_ops
  /\ let s := run sweep_ops (Engine.init true true) in
     (forall p o, heap s !! p = Some o ->
        quantity_ o = remaining_quantity_ o + traded (trades_ s) (id_ o))
     /\ heap_evolves (heap s) (heap (step s (Submit sweep_order))).
Proof.
  assert (valid_ops sweep_ops) as Hv by valid_ops_tac.
  assert (valid_ops (sweep_ops ++ [Submit sweep_order])) as Hv' by valid_ops_tac.
  split; [exact Hv|].
  pose proof (quantity_conservation sweep_ops true true Hv) as (Hcons & Hmono & _).
  cbn zeta. split; [exact Hcons|exact (Hmono _ Hv')].
Defined.

(** The claim of C7 fails: with order 1 resting, adding the same order
    again, and submitting a second order with id 1, both return true and
    both change the book. *)
Lemma duplicate_id_counterexample :
  let s := run one_bid_ops (Engine.init false false) in
  let dup := mkArgs 1 BUY 100 10 2 in
  orders_ (order_book_ s) !! 1 = Some 0%nat
  /\ id_ (deref (heap s) 0%nat) = 1
  /\ (Book.addOrder (heap s) (order_book_ s) (Some 0%nat)).2 = true
  /\ (Book.addOrder (heap s) (order_book_ s) (Some 0%nat)).1 <> order_book_ s
  /\ (submit_new s dup).2 = true
  /\ order_book_ (submit_new s dup).1 <> order_book_ s.
Proof.
  cbn zeta. split_and!; try (vm_compute; reflexivity).
  - intros E. apply (f_equal (fun b => orders <$> bids_ b !! 100)) in E.
    vm_compute in E. discriminate.
  - intros E. apply (f_equal (fun b => orders <$> bids_ b !! 100)) in E.
    vm_compute in E. discriminate.
Qed.

Lemma addOrder_duplicate_accepted_witness :
  let s := (make_shared (run one_bid_ops (Engine.init false false))
                        (mkArgs 1 BUY 100 10 2)).1 in
  let p := 1%nat in
  let o := deref (heap s) p in
  let s1 := (Engine.matchOrder s p).1 in
  let r := Engine.submitOrder s (Some p) in
  is_Some (orders_ (order_book_ s) !! id_ o)
  /\ (Book.addOrder (heap s) (order_book_ s) (Some p)).2 = true
  /\ (Book.addOrder (heap s) (order_book_ s) (Some p)).1 <> order_book_ s
  /\ r.2 = true
  /\ isFilled (deref (heap s1) p) = false
  /\ orders_ (order_book_ r.1) !! id_ o = Some p
  /\ order_book_ r.1 <> order_book_ s1.
Proof.
  cbn zeta.
  assert (is_Some (orders_ (order_book_
                              (make_shared (run one_bid_ops (Engine.init false false))
                                           (mkArgs 1 BUY 100 10 2)).1)
                     !! id_ (deref (heap (make_shared
                                            (run one_bid_ops (Engine.init false false))
                                            (mkArgs 1 BUY 100 10 2)).1) 1%nat))) as Hi
    by (exists 0%nat; vm_compute; reflexivity).
  assert (isFilled
            (deref (heap (Engine.matchOrder
                            (make_shared (run one_bid_ops (Engine.init false false))
                                         (mkArgs 1 BUY 100 10 2)).1 1%nat).1) 1%nat)
          = false) as Hf by (vm_compute; reflexivity).
  split; [exact Hi|].
  pose proof (addOrder_duplicate_accepted _ _ _ Hi) as (H1 & _ & _ & H4 & H5).
  split; [exact H1|]. split; [exact H4|].
  destruct (H5 _ eq_refl eq_refl) as (G1 & _ & G3).
  destruct (G3 Hf) as (_ & G4 & _ & G5).
  split; [exact G1|]. split; [exact Hf|]. split; [exact G4|exact G5].
Defined.

(** The claim of C8 fails: a submission of quantity zero is not rejected,
    [submitOrder] returns true. *)
Lemma zero_quantity_counterexample :
  let a := mkArgs 1 BUY 100 0 1 in
  a_quantity a = 0
  /\ (submit_new (Engine.init false false) a).2 = true
  /\ (submit_new (Engine.init false false) a).2 <> false.
Proof. cbn zeta. split_and!; [reflexivity|reflexivity|discriminate]. Qed.

Lemma zero_quantity_accepted_witness :
  let s := run one_bid_ops (Engine.init true true) in
  let a := mkArgs 2 SELL 100 0 2 in
  a_quantity a = 0
  /\ submit_new s a = ((make_shared s a).1, true)
  /\ order_book_ (submit_new s a).1 = order_book_ s
  /\ trades_ (submit_new s a).1 = trades_ s
  /\ order_events (submit_new s a).1 = order_events s.
Proof.
  cbn zeta.
  assert (a_quantity (mkArgs 2 SELL 100 0 2) = 0) as Hz by reflexivity.
  split; [exact Hz|].
  pose proof (zero_quantity_accepted (run one_bid_ops (Engine.init true true)) _ Hz)
    as (H1 & H2 & H3 & _ & _ & _ & H7 & _).
  split_and!; assumption.
Defined.

Lemma cancel_unknown_is_noop_witness :
  let s := run one_bid_ops (Engine.init true true) in
  orders_ (order_book_ s) !! 7 = None
  /\ Engine.cancelOrder s 7 = (s, false)
  /\ is_Some (orders_ (order_book_ s) !! 1)
  /\ (Engine.cancelOrder s 1).2 = true
  /\ (Engine.cancelOrder (Engine.cancelOrder s 1).1 1).2 = false.
Proof.
  cbn zeta.
  assert (orders_ (order_book_ (run one_bid_ops (Engine.init true true))) !! 7 = None)
    as Hn by (vm_compute; reflexivity).
  assert (is_Some (orders_ (order_book_ (run one_bid_ops (Engine.init true true))) !! 1))
    as Hs by (exists 0%nat; vm_compute; reflexivity).
  pose proof (cancel_unknown_is_noop (run one_bid_ops (Engine.init true true)) 7)
    as (H1 & _ & _).
  pose proof (cancel_unknown_is_noop (run one_bid_ops (Engine.init true true)) 1)
    as (_ & H2 & H3).
  split_and!; [exact Hn|exact (proj2 (H1 Hn))|exact Hs|exact (proj2 (H2 Hs))|exact H3].
Defined.

Lemma cancel_notifies_null_witness :
  let s := run one_bid_ops (Engine.init true true) in
  is_Some (orders_ (order_book_ s) !! 1)
  /\ (Engine.cancelOrder s 1).2 = true
  /\ order_events (Engine.cancelOrder s 1).1 = order_events s ++ [None].
Proof.
  cbn zeta.
  assert (is_Some (orders_ (order_book_ (run one_bid_ops (Engine.init true true))) !! 1))
    as Hs by (exists 0%nat; vm_compute; reflexivity).
  split; [exact Hs|].
  pose proof (cancel_notifies_null _ 1 Hs) as (H1 & _ & H3).
  split; [exact H1|exact H3].
Defined.

(** * Further properties of the book and the engine *)

(** ** Counters and callbacks across a pass *)

Lemma volume_snoc ts t : volume (ts ++ [t]) = volume ts + trade_quantity t.
Proof. unfold volume. induction ts as [|t0 ts IH]; simpl; [lia|]. rewrite IH. lia. Qed.

Lemma notional_snoc ts t :
  notional (ts ++ [t]) = notional ts + trade_price t * trade_quantity t.
Proof. unfold notional. induction ts as [|t0 ts IH]; simpl; [lia|]. rewrite IH. lia. Qed.

Lemma match_iter_counters s p m s' :
  Engine.match_iter s p = Some (m, s') ->
  exists t,
    trades_ s' = trades_ s ++ [t]
    /\ trade_count_ s' = wrap64 (trade_count_ s + 1)
    /\ total_volume_ s' = wrap64 (total_volume_ s + trade_quantity t)
    /\ total_value_ s' = wrap64 (total_value_ s + wrap64 (trade_price t * trade_quantity t))
    /\ trade_callback_ s' = trade_callback_ s
    /\ trade_events s' = trade_events s ++ (if trade_callback_ s then [t] else [])
    /\ order_callback_ s' = order_callback_ s
    /\ order_events s'
       = order_events s
         ++ (if order_callback_ s && isFilled (deref (heap s') m) then [Some m] else []).
Proof.
  unfold Engine.match_iter. intros H.
  destruct (isFilled (deref (heap s) p)) eqn:Hf; [discriminate|].
  destruct (Book.getOrdersForMatching _ _) as [|c l] eqn:El; [discriminate|].
  destruct (Engine.find_best_match _ _ _) as [[bm|] bp] eqn:Ef; [|discriminate].
  injection H as <- <-.
  set (q := Z.min (remaining_quantity_ (deref (heap s) p))
                  (remaining_quantity_ (deref (heap s) bm))).
  exists (Engine.executeTrade s p bm bp q).2.
  unfold Engine.executeTrade, Engine.notifyTradeCallback, Engine.notifyOrderCallback.
  destruct (decide (side_ (deref (heap s) p) = BUY));
    cbn [fst snd];
    destruct (trade_callback_ s) eqn:Etc, (order_callback_ s) eqn:Eoc;
    cbn [Engine.set_heap Engine.set_book heap order_book_ trades_ trade_count_
         total_volume_ total_value_ order_callback_ trade_callback_ order_events
         trade_events trade_price trade_quantity andb];
    match goal with |- context [if ?c then _ else _] => destruct c eqn:Ec end;
    cbn [Engine.set_heap Engine.set_book heap order_book_ trades_ trade_count_
         total_volume_ total_value_ order_callback_ trade_callback_ order_events
         trade_events trade_price trade_quantity andb] in Ec |- *;
    rewrite ?Etc, ?Eoc, ?Ec, ?app_nil_r; split_and!; reflexivity.
Qed.

Lemma wrap64_add_r a b : wrap64 (a + wrap64 b) = wrap64 (a + b).
Proof. unfold wrap64. apply Zplus_mod_idemp_r. Qed.

Lemma stats_ok_ext s s' :
  trades_ s' = trades_ s -> trade_count_ s' = trade_count_ s ->
  total_volume_ s' = total_volume_ s -> total_value_ s' = total_value_ s ->
  trade_events s' = trade_events s -> trade_callback_ s' = trade_callback_ s ->
  stats_ok s -> stats_ok s'.
Proof.
  intros E1 E2 E3 E4 E5 E6 [H1 H2 H3 H4].
  split; rewrite ?E1, ?E2, ?E3, ?E4, ?E5, ?E6; done.
Qed.

Lemma match_iter_stats s p m s' :
  Engine.match_iter s p = Some (m, s') -> stats_ok s -> stats_ok s'.
Proof.
  intros H [H1 H2 H3 H4].
  destruct (match_iter_counters _ _ _ _ H) as (t & Et & Ec & Ev & Ea & Ecb & Ee & _).
  split.
  - rewrite Ec, Et, H1, wrap64_add_l, length_app. cbn [length]. f_equal. lia.
  - by rewrite Ev, Et, H2, wrap64_add_l, volume_snoc.
  - by rewrite Ea, Et, H3, wrap64_add_l, wrap64_add_r, notional_snoc.
  - rewrite Ee, Ecb, Et, H4. destruct (trade_callback_ s); [done|].
    by rewrite app_nil_r.
Qed.

Lemma match_loop_stats fuel s p n :
  stats_ok s ->
  stats_ok (Engine.match_loop fuel s p n).1
  /\ trade_callback_ (Engine.match_loop fuel s p n).1 = trade_callback_ s
  /\ order_callback_ (Engine.match_loop fuel s p n).1 = order_callback_ s.
Proof.
  revert s n. induction fuel as [|fuel IH]; intros s n Hs; cbn [Engine.match_loop].
  - done.
  - destruct (Engine.match_iter s p) as [[m s']|] eqn:E; [|done].
    destruct (match_iter_counters _ _ _ _ E) as (t & _ & _ & _ & _ & Ecb & _ & Eoc & _).
    destruct (IH s' (wrap64 (n + 1)) (match_iter_stats _ _ _ _ E Hs)) as (H1 & H2 & H3).
    split_and!; [done|congruence|congruence].
Qed.

Lemma notifyOrderCallback_stats s x :
  stats_ok s -> stats_ok (Engine.notifyOrderCallback s x)
  /\ trade_callback_ (Engine.notifyOrderCallback s x) = trade_callback_ s
  /\ order_callback_ (Engine.notifyOrderCallback s x) = order_callback_ s.
Proof.
  intros Hs. unfold Engine.notifyOrderCallback.
  destruct (order_callback_ s) eqn:E; [|done].
  split_and!; [|done|done]. by eapply stats_ok_ext; [..|exact Hs].
Qed.

Lemma submitOrder_stats s o :
  stats_ok s ->
  stats_ok (Engine.submitOrder s o).1
  /\ trade_callback_ (Engine.submitOrder s o).1 = trade_callback_ s
  /\ order_callback_ (Engine.submitOrder s o).1 = order_callback_ s.
Proof.
  intros Hs. destruct o as [p|]; cbn [Engine.submitOrder fst]; [|done].
  unfold Engine.matchOrder.
  destruct (match_loop_stats (length (heap s)) s p 0 Hs) as (H1 & H2 & H3).
  destruct (negb _); [|done].
  destruct (notifyOrderCallback_stats
              (Engine.set_book (Engine.match_loop (length (heap s)) s p 0).1
                 (Book.addOrder (heap (Engine.match_loop (length (heap s)) s p 0).1)
                    (order_book_ (Engine.match_loop (length (heap s)) s p 0).1)
                    (Some p)).1) (Some p)) as (G1 & G2 & G3).
  { by eapply stats_ok_ext; [..|exact H1]. }
  split_and!; [done|by rewrite G2|by rewrite G3].
Qed.

Lemma cancelOrder_stats s i :
  stats_ok s ->
  stats_ok (Engine.cancelOrder s i).1
  /\ trade_callback_ (Engine.cancelOrder s i).1 = trade_callback_ s
  /\ order_callback_ (Engine.cancelOrder s i).1 = order_callback_ s.
Proof.
  intros Hs. unfold Engine.cancelOrder.
  destruct (Book.cancelOrder _ _ _) as [b [|]]; cbn [fst].
  - destruct (notifyOrderCallback_stats (Engine.set_book s b)
                (Book.getOrder (order_book_ (Engine.set_book s b)) i)) as (G1 & G2 & G3).
    { by eapply stats_ok_ext; [..|exact Hs]. }
    done.
  - split_and!; [|done|done]. by eapply stats_ok_ext; [..|exact Hs].
Qed.

Lemma run_stats ops cb1 cb2 :
  stats_ok (run ops (Engine.init cb1 cb2))
  /\ trade_callback_ (run ops (Engine.init cb1 cb2)) = cb2
  /\ order_callback_ (run ops (Engine.init cb1 cb2)) = cb1.
Proof.
  induction ops as [|op ops IH] using rev_ind.
  - split_and!; [|done|done]. split; cbn; by destruct cb2.
  - rewrite run_snoc. destruct IH as (H1 & H2 & H3). destruct op as [a|i]; cbn [step].
    + unfold submit_new. cbn [make_shared].
      destruct (submitOrder_stats
                  (Engine.set_heap (run ops (Engine.init cb1 cb2))
                     (heap (run ops (Engine.init cb1 cb2))
                      ++ [new_Order (a_id a) (a_side a) (a_price a) (a_quantity a)
                                    (a_timestamp a)]))
                  (Some (length (heap (run ops (Engine.init cb1 cb2))))))
        as (G1 & G2 & G3).
      { by eapply stats_ok_ext; [..|exact H1]. }
      split_and!; [done|by rewrite G2|by rewrite G3].
    + destruct (cancelOrder_stats _ i H1) as (G1 & G2 & G3).
      split_and!; [done|by rewrite G2|by rewrite G3].
Qed.

(** X1. The running statistics agree with the trade list. After any
    sequence of submissions and cancels on a fresh engine (whatever the
    ids and quantities), the trade count is the length of the trade list,
    the total volume the sum of the trade quantities and the total value
    the sum of price times quantity over the trade list, each modulo
    2^64. *)
Theorem statistics_agree_with_trades ops cb1 cb2 :
  let s := run ops (Engine.init cb1 cb2) in
  trade_count_ s = wrap64 (Z.of_nat (length (trades_ s)))
  /\ total_volume_ s = wrap64 (volume (trades_ s))
  /\ total_value_ s = wrap64 (notional (trades_ s)).
Proof.
  intros s. destruct (run_stats ops cb1 cb2) as ([H1 H2 H3 _] & _). done.
Qed.

(** X2. Delivery of trades to the trade callback. After any sequence of
    submissions and cancels on a fresh engine, a trade callback that was
    set has been called with exactly the trades of the trade list, once
    each and in the order of the list; without one nothing is called. *)
Theorem trade_callback_delivery ops cb1 cb2 :
  let s := run ops (Engine.init cb1 cb2) in
  trade_events s = if cb2 then trades_ s else [].
Proof.
  intros s. destruct (run_stats ops cb1 cb2) as ([_ _ _ H4] & Hcb & _).
  fold s in H4, Hcb. by rewrite H4, Hcb.
Qed.

(** ** The number of passes *)

Lemma match_loop_trades fuel s p n :
  heap_u64 (heap s) ->
  exists ts,
    trades_ (Engine.match_loop fuel s p n).1 = trades_ s ++ ts
    /\ (Engine.match_loop fuel s p n).2
       = match ts with [] => n | _ => wrap64 (n + Z.of_nat (length ts)) end
    /\ (length ts <= count_open (heap s))%nat.
Proof.
  revert s n. induction fuel as [|fuel IH]; intros s n Hu; cbn [Engine.match_loop].
  - exists []. rewrite app_nil_r. split_and!; [done|done|cbn; lia].
  - destruct (Engine.match_iter s p) as [[m s']|] eqn:E.
    + destruct (match_iter_counters _ _ _ _ E) as (t & Et & _).
      pose proof (match_iter_count _ _ _ _ Hu E) as Hlt.
      destruct (IH s' (wrap64 (n + 1)) (match_iter_u64 _ _ _ _ E Hu)) as (ts & H1 & H2 & H3).
      exists (t :: ts). split_and!.
      * rewrite H1, Et. by rewrite <- app_assoc.
      * rewrite H2. destruct ts as [|t' ts']; cbn [length].
        -- f_equal; lia.
        -- rewrite wrap64_add_l. f_equal; lia.
      * cbn [length]. lia.
    + exists []. rewrite app_nil_r. split_and!; [done|done|cbn; lia].
Qed.

(** X3. The matching loop terminates and counts its trades. For every
    state whose remaining quantities are 64-bit values and every incoming
    order, [matchOrder] leaves the loop by its condition or a [break]; it
    only appends to the trade list, the value it returns is the number of
    trades it appended (modulo 2^64), and that number is at most the number
    of order objects that were open. *)
Theorem matchOrder_counts_trades s p :
  heap_u64 (heap s) ->
  let r := Engine.matchOrder s p in
  Engine.match_iter r.1 p = None
  /\ exists ts,
       trades_ r.1 = trades_ s ++ ts
       /\ r.2 = wrap64 (Z.of_nat (length ts))
       /\ (length ts <= count_open (heap s))%nat.
Proof.
  intros Hu r. split; [by apply matchOrder_exits|].
  destruct (match_loop_trades (length (heap s)) s p 0 Hu) as (ts & H1 & H2 & H3).
  exists ts. split_and!; [done| |done].
  unfold r, Engine.matchOrder. rewrite H2. by destruct ts.
Qed.

(** ** The helpers of [Order] *)

(** X4. [reduceQuantity] clamps. For an order whose quantities are 64-bit
    values with remaining at most original, and any amount [qty] that is
    not negative: the amount returned is the smaller of [qty] and the
    remaining quantity, the remaining quantity goes down by exactly that
    amount without wrapping, an amount of at least the remaining quantity
    fills the order, the filled quantity goes up by exactly the amount
    returned, and no other field changes. *)
Theorem reduceQuantity_clamps o qty :
  is_u64 (quantity_ o) -> 0 <= remaining_quantity_ o <= quantity_ o -> 0 <= qty ->
  let r := reduceQuantity o qty in
  r.2 = Z.min qty (remaining_quantity_ o)
  /\ remaining_quantity_ r.1 = remaining_quantity_ o - r.2
  /\ 0 <= remaining_quantity_ r.1 <= remaining_quantity_ o
  /\ (remaining_quantity_ o <= qty -> isFilled r.1 = true)
  /\ getFilledQuantity r.1 = getFilledQuantity o + r.2
  /\ same_static o r.1.
Proof.
  intros Hq Hr Hqty r. unfold is_u64 in Hq.
  assert (remaining_quantity_ r.1 = remaining_quantity_ o - Z.min qty (remaining_quantity_ o))
    as Hrem.
  { unfold r. apply reduceQuantity_remaining; [unfold is_u64; lia|done]. }
  assert (getFilledQuantity r.1 = getFilledQuantity o + r.2) as Hfill.
  { unfold getFilledQuantity. rewrite Hrem. cbn [r reduceQuantity fst snd quantity_].
    rewrite !wrap64_small; unfold is_u64; lia. }
  assert (remaining_quantity_ o <= qty -> isFilled r.1 = true) as Hfull.
  { intros Hle. apply isFilled_true. rewrite Hrem. lia. }
  split; [done|]. split; [exact Hrem|]. split; [rewrite Hrem; lia|].
  split; [exact Hfull|]. split; [exact Hfill|]. apply reduceQuantity_static.
Qed.

(** X5. Filled quantity and trade list. After every operation of a valid
    sequence run from the empty engine, for every order object ever
    created: [getFilledQuantity] is the total quantity of the trades that
    reference its id; the order [isFilled] exactly when that total is its
    original quantity, and [isPartiallyFilled] exactly when that total is
    positive and below its original quantity. *)
Theorem filled_quantity_is_traded ops cb1 cb2 :
  valid_ops ops ->
  let s := run ops (Engine.init cb1 cb2) in
  forall p o, heap s !! p = Some o ->
    getFilledQuantity o = traded (trades_ s) (id_ o)
    /\ (isFilled o = true <-> traded (trades_ s) (id_ o) = quantity_ o)
    /\ (isPartiallyFilled o = true
        <-> 0 < traded (trades_ s) (id_ o) < quantity_ o).
Proof.
  intros Hv s p o Hp. destruct (run_Inv ops cb1 cb2 Hv) as [HI _]. fold s in HI.
  pose proof (inv_cons _ HI _ _ Hp) as Hc.
  destruct (h_range _ (inv_heap _ HI) _ _ Hp) as (_ & _ & Hq & Hr).
  unfold is_u64 in Hq. split; [|split].
  - unfold getFilledQuantity. rewrite wrap64_small; unfold is_u64; lia.
  - rewrite isFilled_true. lia.
  - unfold isPartiallyFilled. rewrite andb_true_iff, !Z.ltb_lt. lia.
Qed.

(** X6. [OrderComparator] orders one side only. It is irreflexive; among
    orders whose left operand sides agree it is asymmetric and transitive,
    a bid being smaller the lower its price and an ask the higher its
    price; between a bid and an ask it gives the same answer in both
    directions, so it is no ordering across sides. *)
Theorem OrderComparator_order :
  (forall a, OrderComparator a a = false)
  /\ (forall a b, side_ a = side_ b ->
        OrderComparator a b = true -> OrderComparator b a = false)
  /\ (forall a b c, side_ a = side_ b ->
        OrderComparator a b = true -> OrderComparator b c = true ->
        OrderComparator a c = true)
  /\ (forall a b, side_ a = BUY -> side_ b = BUY ->
        (OrderComparator a b = true <-> price_ a < price_ b))
  /\ (forall a b, side_ a = SELL -> side_ b = SELL ->
        (OrderComparator a b = true <-> price_ b < price_ a))
  /\ (forall a b, side_ a = BUY -> side_ b = SELL ->
        OrderComparator a b = OrderComparator b a).
Proof.
  unfold OrderComparator. repeat apply conj.
  - intros a. destruct (side_ a); apply Z.ltb_irrefl.
  - intros a b <-. destruct (side_ a); rewrite Z.ltb_lt, Z.ltb_ge; lia.
  - intros a b c <-. destruct (side_ a); rewrite !Z.ltb_lt; lia.
  - intros a b -> _. apply Z.ltb_lt.
  - intros a b -> _. apply Z.ltb_lt.
  - intros a b -> ->. done.
Qed.

(** ** Index, levels and the lookups *)

(** X7. Index consistency. After every operation of a valid sequence run
    from the empty engine: every id that [getOrder] finds belongs to an
    open order object with that id, which [getOrdersAtPrice] lists at the
    order's own price and side and at no other price or side; every order
    that [getOrdersAtPrice] lists at a price and side has that price and
    side and is found by [getOrder] under its id; and no level lists an
    order twice. *)
Theorem index_consistency ops cb1 cb2 :
  valid_ops ops ->
  let s := run ops (Engine.init cb1 cb2) in
  let b := order_book_ s in
  (forall i p, Book.getOrder b i = Some p ->
     exists o, heap s !! p = Some o /\ id_ o = i /\ 0 < remaining_quantity_ o
       /\ p ∈ Book.getOrdersAtPrice b (price_ o) (side_ o)
       /\ forall k side, p ∈ Book.getOrdersAtPrice b k side ->
            side = side_ o /\ k = price_ o)
  /\ (forall k side p, p ∈ Book.getOrdersAtPrice b k side ->
        exists o, heap s !! p = Some o /\ side_ o = side /\ price_ o = k
          /\ Book.getOrder b (id_ o) = Some p)
  /\ forall k side, NoDup (Book.getOrdersAtPrice b k side).
Proof.
  intros Hv s b. destruct (run_Inv ops cb1 cb2 Hv) as [HI _]. fold s in HI.
  pose proof (inv_wf _ HI) as Hwf. fold b in Hwf.
  assert (forall k side p, p ∈ Book.getOrdersAtPrice b k side ->
            exists l, Book.getPriceLevelMap b side !! k = Some l /\ p ∈ orders l) as Hat.
  { intros k side p. unfold Book.getOrdersAtPrice.
    destruct (Book.getPriceLevelMap b side !! k) as [l|]; [eauto|].
    intros H. by apply not_elem_of_nil in H. }
  split; [|split].
  - intros i p Hi. unfold Book.getOrder in Hi.
    destruct (b_index _ _ Hwf _ _ Hi) as (o & Ho & Hid & l & Hl & Hin).
    exists o. pose proof (inv_open _ HI _ _ Hi) as Hpos.
    rewrite (deref_Some _ _ _ Ho) in Hpos.
    split; [done|]. split; [done|]. split; [done|]. split.
    + unfold Book.getOrdersAtPrice. by rewrite Hl.
    + intros k side Hp. destruct (Hat _ _ _ Hp) as (l' & Hl' & Hin').
      destruct (member_level _ _ _ _ _ _ _ Hwf Hl' Hin' Ho) as (? & ? & _). done.
  - intros k side p Hp. destruct (Hat _ _ _ Hp) as (l & Hl & Hin).
    destruct (l_members _ _ _ _ _ (b_levels _ _ Hwf _ _ _ Hl) _ Hin)
      as (o & Ho & Hs & Hk & Hi).
    exists o. done.
  - intros k side. unfold Book.getOrdersAtPrice.
    destruct (Book.getPriceLevelMap b side !! k) as [l|] eqn:Hl; [|constructor].
    apply (l_nodup _ _ _ _ _ (b_levels _ _ Hwf _ _ _ Hl)).
Qed.

Lemma OrderBook_eq b b' :
  bids_ b = bids_ b' -> asks_ b = asks_ b' -> orders_ b = orders_ b' -> b = b'.
Proof. destruct b, b'. cbn. by intros -> -> ->. Qed.

Lemma level_eta l : mkLevel (price l) (total_quantity l) (orders l) = l.
Proof. by destruct l. Qed.

Lemma cancel_after_add h b p o :
  heap_ok h -> book_wf h b -> h !! p = Some o -> orders_ b !! id_ o = None ->
  Book.cancelOrder h (Book.addOrder h b (Some p)).1 (id_ o) = (b, true).
Proof.
  intros Hh Hwf Hp Hnone.
  assert (book_wf h (Book.addOrder h b (Some p)).1) as Hwf1 by (eapply addOrder_wf; eauto).
  destruct (addOrder_resting h b p) as [Hi1 _]. rewrite (deref_Some _ _ _ Hp) in Hi1.
  destruct (cancel_book_spec h _ (id_ o) p Hh Hwf1 Hi1) as (l & Hl & Hin & ->).
  rewrite (deref_Some _ _ _ Hp) in *. f_equal.
  set (l0 := default (mkLevel (price_ o) 0 [])
               (Book.getPriceLevelMap b (side_ o) !! price_ o)) in *.
  assert ((Book.addOrder h b (Some p)).1
          = upd_level (Book.set_orders b (<[id_ o := p]> (orders_ b)))
              (side_ o) (price_ o) (Level.addOrder h l0 p)) as Eb1.
  { rewrite addOrder_known. cbn [fst]. by rewrite (deref_Some _ _ _ Hp). }
  rewrite Eb1 in *.
  assert (l = Level.addOrder h l0 p) as ->.
  { rewrite lookup_upd_level, decide_True in Hl by done. congruence. }
  assert (p ∉ orders l0) as Hnotin.
  { unfold l0. destruct (Book.getPriceLevelMap b (side_ o) !! price_ o) as [lx|] eqn:Elx;
      cbn [default orders]; [|apply not_elem_of_nil].
    intros Hx. destruct (member_level _ _ _ _ _ _ _ Hwf Elx Hx Hp) as (_ & _ & Hix).
    congruence. }
  assert (without p (orders (Level.addOrder h l0 p)) = orders l0) as Ew.
  { unfold Level.addOrder, without. cbn [orders]. rewrite filter_app, filter_cons.
    rewrite decide_False by tauto. rewrite filter_nil, app_nil_r.
    by apply without_notin. }
  assert (match Book.getPriceLevelMap b (side_ o) !! price_ o with
          | Some lx => l0 = lx /\ orders l0 <> []
                       /\ wrap64 (total_quantity l0) = total_quantity l0
          | None => orders l0 = []
          end) as Hl0.
  { unfold l0. destruct (Book.getPriceLevelMap b (side_ o) !! price_ o) as [lx|] eqn:Elx;
      cbn [default from_option id]; [|done].
    pose proof (b_levels _ _ Hwf _ _ _ Elx) as Hlok. split_and!; [done|apply Hlok|].
    rewrite (l_total _ _ _ _ _ Hlok). unfold wrap64. by rewrite Zmod_mod. }
  assert (forall side k,
            Book.getPriceLevelMap
              (book_without
                 (upd_level (Book.set_orders b (<[id_ o:=p]> (orders_ b)))
                    (side_ o) (price_ o) (Level.addOrder h l0 p))
                 (side_ o) (price_ o) (Level.addOrder h l0 p) p (id_ o)
                 (remaining_quantity_ o)) side !! k
            = Book.getPriceLevelMap b side !! k) as Hlev.
  { intros side k. rewrite lookup_book_without, Ew, lookup_upd_level, get_set_orders.
    destruct (decide (side = side_ o /\ k = price_ o)) as [[-> ->]|Hne]; [|done].
    destruct (Book.getPriceLevelMap b (side_ o) !! price_ o) as [lx|] eqn:Elx.
    - destruct Hl0 as (Heq & Hne0 & Ht). rewrite <- Heq.
      destruct (orders l0) as [|y rest] eqn:El0; [done|]. f_equal.
      unfold Level.addOrder. cbn [price total_quantity].
      rewrite (deref_Some _ _ _ Hp), wrap64_sub_l.
      replace (total_quantity l0 + remaining_quantity_ o - remaining_quantity_ o)
        with (total_quantity l0) by lia.
      rewrite Ht, <- El0. apply level_eta.
    - by rewrite Hl0. }
  apply OrderBook_eq.
  - apply map_eq. intros k. apply (Hlev BUY k).
  - apply map_eq. intros k. apply (Hlev SELL k).
  - rewrite orders_book_without, orders_upd_level. cbn [Book.set_orders orders_].
    by apply delete_insert_id.
Qed.

(** X8. Cancelling undoes adding. After a valid sequence of operations run
    from the empty engine, adding a new order object whose id was never
    submitted and then cancelling that id gives back exactly the book
    there was: the level it was appended to has its queue and its total
    quantity again, a level created for it is dropped, and the index entry
    is gone. *)
Theorem cancel_undoes_add ops cb1 cb2 a :
  valid_ops (ops ++ [Submit a]) ->
  let s := run ops (Engine.init cb1 cb2) in
  let s0 := (make_shared s a).1 in
  let p := (make_shared s a).2 in
  let b1 := (Book.addOrder (heap s0) (order_book_ s) (Some p)).1 in
  Book.getOrder b1 (a_id a) = Some p
  /\ Book.cancelOrder (heap s0) b1 (a_id a) = (order_book_ s, true).
Proof.
  intros Hv s s0 p b1.
  destruct (run_fresh _ cb1 cb2 _ Hv) as (HI & Hwa & Hfresh). fold s in HI, Hfresh.
  destruct (make_shared_Inv s a HI Hwa Hfresh) as (HI0 & Hp0 & Hnone0 & _).
  change (Inv s0) in HI0.
  destruct (addOrder_resting (heap s0) (order_book_ s) p) as [Hi1 _].
  rewrite (deref_Some (heap s0) p _ Hp0) in Hi1.
  split; [exact Hi1|].
  exact (cancel_after_add (heap s0) (order_book_ s) p _ (inv_heap _ HI0)
           (inv_wf _ HI0) Hp0 Hnone0).
Qed.

(** ** Counting and the best-price queries *)

(** X9. The order count follows the index. In every state: [isEmpty] holds
    exactly when [getOrderCount] is 0; cancelling an id that is in the
    index lowers the count by one and cancelling any other id leaves it;
    adding an order whose id is not in the index raises the count by one,
    and adding one whose id is already there leaves the count as it is
    (the entry is overwritten). *)
Theorem order_count_tracks_index h b :
  (Book.isEmpty b = true <-> Book.getOrderCount b = 0)
  /\ (forall i,
        Book.getOrderCount (Book.cancelOrder h b i).1
        = Book.getOrderCount b - match orders_ b !! i with Some _ => 1 | None => 0 end)
  /\ (forall p,
        Book.getOrderCount (Book.addOrder h b (Some p)).1
        = Book.getOrderCount b + match orders_ b !! id_ (deref h p) with Some _ => 0 | None => 1 end).
Proof.
  unfold Book.isEmpty, Book.getOrderCount. split; [|split].
  - rewrite bool_decide_eq_true, <- map_size_empty_iff. lia.
  - intros i. unfold Book.cancelOrder.
    destruct (orders_ b !! i) as [m|] eqn:Hi; cbn [fst]; [|lia].
    cbn [Book.set_orders orders_].
    assert (forall b1, orders_ b1 = orders_ b ->
              Z.of_nat (size (delete i (orders_ b1))) = Z.of_nat (size (orders_ b)) - 1) as Hd.
    { intros b1 ->. rewrite map_size_delete, Hi.
      assert (size (orders_ b) <> 0%nat) by (apply map_size_ne_0_lookup; eauto).
      lia. }
    apply Hd. destruct (Book.getPriceLevelMap b _ !! _) as [l|]; [|done].
    destruct (Level.removeOrder h l i) as [l' removed].
    destruct (removed && Level.isEmpty l').
    + unfold Book.removeEmptyPriceLevel. rewrite get_set_same, lookup_insert_eq.
      destruct (Level.isEmpty l'); by rewrite ?orders_set.
    + by rewrite orders_set.
  - intros p. rewrite addOrder_known. cbn [fst]. rewrite orders_upd_level.
    cbn [Book.set_orders orders_]. rewrite map_size_insert.
    destruct (orders_ b !! id_ (deref h p)); cbn; lia.
Qed.

Lemma reachable_keys_u64 s side k l :
  Inv s -> Book.getPriceLevelMap (order_book_ s) side !! k = Some l -> is_u64 k.
Proof.
  intros HI Hl. pose proof (b_levels _ _ (inv_wf _ HI) _ _ _ Hl) as Hlok.
  destruct (orders l) as [|x rest] eqn:E; [by destruct (l_nonempty _ _ _ _ _ Hlok)|].
  destruct (l_members _ _ _ _ _ Hlok x) as (o & Ho & _ & <- & _); [rewrite E; by left|].
  by destruct (h_range _ (inv_heap _ HI) _ _ Ho) as (_ & ? & _).
Qed.

(** X10. An empty index means an empty book. After every operation of a
    valid sequence run from the empty engine, [isEmpty] holds exactly when
    the bid map and the ask map are both empty, and then the best bid, the
    best ask, their quantities and the spread all read 0. *)
Theorem empty_book_reads_zero ops cb1 cb2 :
  valid_ops ops ->
  let b := order_book_ (run ops (Engine.init cb1 cb2)) in
  (Book.isEmpty b = true <-> bids_ b = ∅ /\ asks_ b = ∅)
  /\ (Book.isEmpty b = true ->
        Book.getBestPrices b = (0, 0) /\ Book.getSpread b = 0
        /\ Book.getBestBidQuantity b = 0 /\ Book.getBestAskQuantity b = 0).
Proof.
  intros Hv b. destruct (run_Inv ops cb1 cb2 Hv) as [HI _].
  pose proof (inv_wf _ HI) as Hwf. fold b in Hwf.
  assert (Book.isEmpty b = true <-> bids_ b = ∅ /\ asks_ b = ∅) as Hiff.
  { unfold Book.isEmpty. rewrite bool_decide_eq_true. split.
    - intros He.
      assert (forall side, Book.getPriceLevelMap b side = ∅) as Hside.
      { intros side. apply map_empty. intros k.
        destruct (Book.getPriceLevelMap b side !! k) as [l|] eqn:Hl; [|done].
        pose proof (b_levels _ _ Hwf _ _ _ Hl) as Hlok.
        destruct (orders l) as [|x rest] eqn:E; [by destruct (l_nonempty _ _ _ _ _ Hlok)|].
        destruct (l_members _ _ _ _ _ Hlok x) as (o & _ & _ & _ & Hi); [rewrite E; by left|].
        rewrite He, lookup_empty in Hi. discriminate. }
      split; [apply (Hside BUY)|apply (Hside SELL)].
    - intros [Hb Ha]. apply map_empty. intros i.
      destruct (orders_ b !! i) as [p|] eqn:Hi; [|done].
      destruct (b_index _ _ Hwf _ _ Hi) as (o & _ & _ & l & Hl & _).
      destruct (side_ o); cbn in Hl; rewrite ?Hb, ?Ha, lookup_empty in Hl; discriminate. }
  split; [exact Hiff|]. intros He. apply Hiff in He as [Hb Ha].
  unfold Book.getBestPrices, Book.getSpread, Book.getBestBidQuantity,
    Book.getBestAskQuantity, Book.getBestBid, Book.getBestAsk.
  rewrite Hb, Ha.
  assert (max_key (∅ : gmap Z PriceLevel) = None) as -> by by apply max_key_None.
  assert (min_key (∅ : gmap Z PriceLevel) = None) as -> by by apply min_key_None.
  done.
Qed.

(** X11. Quantity at the best price. After every operation of a valid
    sequence run from the empty engine, [getBestBidQuantity] and
    [getBestAskQuantity] are the sums, modulo 2^64, of the remaining
    quantities of the orders the matching loop would be given for that
    side ([getOrdersForMatching]); on an empty side both are 0. *)
Theorem best_quantity_is_available ops cb1 cb2 :
  valid_ops ops ->
  let s := run ops (Engine.init cb1 cb2) in
  let b := order_book_ s in
  Book.getBestBidQuantity b
  = wrap64 (sum_remaining (heap s) (Book.getOrdersForMatching b BUY))
  /\ Book.getBestAskQuantity b
     = wrap64 (sum_remaining (heap s) (Book.getOrdersForMatching b SELL))
  /\ (bids_ b = ∅ -> Book.getBestBidQuantity b = 0)
  /\ (asks_ b = ∅ -> Book.getBestAskQuantity b = 0).
Proof.
  intros Hv s b. destruct (run_Inv ops cb1 cb2 Hv) as [HI _]. fold s in HI.
  pose proof (inv_wf _ HI) as Hwf. fold b in Hwf.
  unfold Book.getBestBidQuantity, Book.getBestAskQuantity, Book.getOrdersForMatching.
  cbn [Book.getPriceLevelMap]. split; [|split; [|split]].
  - destruct (max_key (bids_ b)) as [k|] eqn:E; [|done].
    destruct (bids_ b !! k) as [l|] eqn:Hl; [|done].
    apply (l_total _ _ _ _ _ (b_levels _ _ Hwf BUY _ _ Hl)).
  - destruct (min_key (asks_ b)) as [k|] eqn:E; [|done].
    destruct (asks_ b !! k) as [l|] eqn:Hl; [|done].
    apply (l_total _ _ _ _ _ (b_levels _ _ Hwf SELL _ _ Hl)).
  - intros ->. by assert (max_key (∅ : gmap Z PriceLevel) = None) as ->
      by by apply max_key_None.
  - intros ->. by assert (min_key (∅ : gmap Z PriceLevel) = None) as ->
      by by apply min_key_None.
Qed.

(** X12. The spread. In every state [getSpread] is 0 when the bid map or
    the ask map is empty.  After every operation of a valid sequence run
    from the empty engine, with both sides non-empty: if the best bid is
    not 0 the spread is best ask minus best bid, without wrap-around, and
    strictly positive; if the best bid is 0 (a bid resting at price 0) the
    spread reads 0, as if there were no bid. *)
Theorem spread_of_book ops cb1 cb2 :
  (forall b, bids_ b = ∅ \/ asks_ b = ∅ -> Book.getSpread b = 0)
  /\ (valid_ops ops ->
      let b := order_book_ (run ops (Engine.init cb1 cb2)) in
      bids_ b <> ∅ -> asks_ b <> ∅ ->
      (Book.getBestBid b <> 0 ->
         Book.getSpread b = Book.getBestAsk b - Book.getBestBid b
         /\ 0 < Book.getSpread b)
      /\ (Book.getBestBid b = 0 -> Book.getSpread b = 0 /\ 0 < Book.getBestAsk b)).
Proof.
  split.
  - intros b [Hb|Ha]; unfold Book.getSpread, Book.getBestBid, Book.getBestAsk.
    + rewrite Hb. by assert (max_key (∅ : gmap Z PriceLevel) = None) as ->
        by by apply max_key_None.
    + rewrite Ha. assert (min_key (∅ : gmap Z PriceLevel) = None) as ->
        by by apply min_key_None.
      by rewrite Z.eqb_refl, orb_true_r.
  - intros Hv b Hb Ha. destruct (run_Inv ops cb1 cb2 Hv) as [HI _].
    unfold Book.getSpread, Book.getBestBid, Book.getBestAsk.
    destruct (max_key (bids_ b)) as [kb|] eqn:Eb; [|by apply max_key_None in Eb].
    destruct (min_key (asks_ b)) as [ka|] eqn:Ea; [|by apply min_key_None in Ea].
    apply max_key_Some in Eb as [[lb Hlb] _]. apply min_key_Some in Ea as [[la Hla] _].
    pose proof (inv_nocross _ HI kb ka (ex_intro _ lb Hlb) (ex_intro _ la Hla)) as Hlt.
    pose proof (reachable_keys_u64 _ BUY kb lb HI Hlb) as Hub.
    pose proof (reachable_keys_u64 _ SELL ka la HI Hla) as Hua.
    unfold is_u64 in *. split.
    + intros Hnz. assert ((kb =? 0) = false) as -> by by apply Z.eqb_neq.
      assert ((ka =? 0) = false) as -> by (apply Z.eqb_neq; lia).
      cbn [orb]. rewrite wrap64_small by (unfold is_u64; lia). lia.
    + intros ->. cbn. split; [done|lia].
Qed.

(** ** Iterating a price map in key order *)

Section entries.
Context {A : Type}.
Implicit Types m : gmap Z A.

Lemma elem_of_sorted_keys m k : k ∈ sorted_keys m <-> is_Some (m !! k).
Proof.
  unfold sorted_keys. rewrite (merge_sort_Permutation Z.le (keys m)).
  apply elem_of_keys.
Qed.

Lemma NoDup_sorted_keys m : NoDup (sorted_keys m).
Proof.
  unfold sorted_keys. rewrite (merge_sort_Permutation Z.le (keys m)).
  apply NoDup_fst_map_to_list.
Qed.

Lemma length_sorted_keys m : length (sorted_keys m) = size m.
Proof.
  unfold sorted_keys. rewrite (merge_sort_Permutation Z.le (keys m)).
  unfold keys. by rewrite length_fmap, length_map_to_list.
Qed.

Lemma strict_of_nodup (l : list Z) :
  StronglySorted Z.le l -> NoDup l -> StronglySorted Z.lt l.
Proof.
  induction 1 as [|x l Hs IH Hall]; intros Hnd; [constructor|].
  apply NoDup_cons in Hnd as [Hx Hnd]. constructor; [by apply IH|].
  rewrite Forall_forall in *. intros y Hy. specialize (Hall y Hy).
  assert (x <> y) by (intros ->; done). lia.
Qed.

Lemma sorted_keys_strict m : StronglySorted Z.lt (sorted_keys m).
Proof.
  apply strict_of_nodup; [|apply NoDup_sorted_keys].
  unfold sorted_keys. apply StronglySorted_merge_sort; apply _.
Qed.

Lemma omap_present (l : list Z) m :
  (forall k, k ∈ l -> is_Some (m !! k)) ->
  (omap (fun k => match m !! k with Some v => Some (k, v) | None => None end) l).*1 = l.
Proof.
  induction l as [|k l IH]; intros H; [done|]. cbn [omap list_omap].
  destruct (H k) as [v Hv]; [by left|]. rewrite Hv. cbn. f_equal.
  apply IH. intros k' Hk'. apply H. by right.
Qed.

Lemma entries_fst m : (entries m).*1 = sorted_keys m.
Proof. unfold entries. apply omap_present. intros k. apply elem_of_sorted_keys. Qed.

Lemma elem_of_entries m k v : (k, v) ∈ entries m <-> m !! k = Some v.
Proof.
  unfold entries. rewrite list_elem_of_omap. split.
  - intros (k' & _ & H). destruct (m !! k') as [v'|] eqn:E; [|discriminate].
    by injection H as -> ->.
  - intros H. exists k. split; [apply elem_of_sorted_keys; eauto|]. by rewrite H.
Qed.

Lemma length_entries m : length (entries m) = size m.
Proof. by rewrite <- (length_fmap fst), entries_fst, length_sorted_keys. Qed.

Lemma entries_sorted m : StronglySorted (fun x y => x.1 < y.1) (entries m).
Proof.
  pose proof (sorted_keys_strict m) as H. rewrite <- entries_fst in H.
  induction (entries m) as [|e l IH]; [constructor|].
  cbn in H. apply StronglySorted_cons in H as [Hall Hs].
  constructor; [by apply IH|]. by rewrite Forall_fmap in Hall.
Qed.

Lemma min_key_unique m k :
  is_Some (m !! k) -> (forall k', is_Some (m !! k') -> k <= k') -> min_key m = Some k.
Proof.
  intros Hk Hmin. destruct (min_key m) as [k0|] eqn:E.
  - apply min_key_Some in E as [H0 Hle]. f_equal.
    specialize (Hle k Hk). specialize (Hmin k0 H0). lia.
  - apply min_key_None in E. subst m. rewrite lookup_empty in Hk. by destruct Hk.
Qed.

Lemma max_key_unique m k :
  is_Some (m !! k) -> (forall k', is_Some (m !! k') -> k' <= k) -> max_key m = Some k.
Proof.
  intros Hk Hmax. destruct (max_key m) as [k0|] eqn:E.
  - apply max_key_Some in E as [H0 Hle]. f_equal.
    specialize (Hle k Hk). specialize (Hmax k0 H0). lia.
  - apply max_key_None in E. subst m. rewrite lookup_empty in Hk. by destruct Hk.
Qed.

(** [begin()] is at the least key and [rbegin()] at the greatest. *)
Lemma head_entries m k v : head (entries m) = Some (k, v) ->
  min_key m = Some k /\ m !! k = Some v.
Proof.
  intros H. apply head_Some in H as [l' El]. pose proof (entries_sorted m) as Hs.
  assert (m !! k = Some v) as Hkv by (apply elem_of_entries; rewrite El; by left).
  split; [|done]. apply min_key_unique; [eauto|]. intros k' [v' Hk'].
  apply elem_of_entries in Hk'. rewrite El in Hk', Hs.
  apply StronglySorted_cons in Hs as [Hall _]. rewrite Forall_forall in Hall.
  apply elem_of_cons in Hk' as [[= -> ->]|Hk']; [lia|].
  specialize (Hall _ Hk'). cbn in Hall. lia.
Qed.

Lemma head_reverse_entries m k v : head (reverse (entries m)) = Some (k, v) ->
  max_key m = Some k /\ m !! k = Some v.
Proof.
  rewrite head_reverse. intros H. pose proof (entries_sorted m) as Hs.
  destruct (entries m) as [|e l] eqn:El using rev_ind; [done|].
  rewrite last_snoc in H. injection H as ->.
  assert (m !! k = Some v) as Hkv
    by (apply elem_of_entries; rewrite El; apply elem_of_app; right; by left).
  split; [|done]. apply max_key_unique; [eauto|]. intros k' [v' Hk'].
  apply elem_of_entries in Hk'. rewrite El in Hk'.
  apply elem_of_app in Hk' as [Hk'|Hk'].
  - pose proof (StronglySorted_app_1_elem_of _ _ _ _ _ Hs Hk'
                  (proj2 (list_elem_of_singleton _ _) eq_refl)) as Hlt.
    cbn in Hlt. lia.
  - apply list_elem_of_singleton in Hk'. injection Hk' as -> _. lia.
Qed.

End entries.

Lemma StronglySorted_reverse {A} (R : relation A) (l : list A) :
  StronglySorted R l -> StronglySorted (flip R) (reverse l).
Proof.
  induction 1 as [|x l Hs IH Hall]; [constructor|].
  rewrite reverse_cons. apply StronglySorted_app_2; [|done|repeat constructor].
  intros x1 x2 Hx1 Hx2. apply list_elem_of_singleton in Hx2 as ->.
  rewrite Forall_forall in Hall. apply Hall. by apply elem_of_reverse.
Qed.

(** One side of [getMarketDepth]: the first [n] of the entries [L] of map
    [m], visited in an order that is strict for [R] on the prices. *)
Lemma depth_side (R : relation Z) (m : gmap Z PriceLevel)
      (L : list (Z * PriceLevel)) (n : nat) :
  StronglySorted (fun x y => R x.1 y.1) L ->
  (forall k v, (k, v) ∈ L <-> m !! k = Some v) -> length L = size m ->
  let D := take n ((fun e => (e.1, total_quantity e.2)) <$> L) in
  length D = Nat.min n (size m)
  /\ StronglySorted (fun x y => R x.1 y.1) D
  /\ (forall k q, (k, q) ∈ D -> exists l, m !! k = Some l /\ q = total_quantity l)
  /\ (forall k l, m !! k = Some l ->
        (k, total_quantity l) ∈ D
        \/ (length D = n /\ forall e, e ∈ D -> R e.1 k)).
Proof.
  intros Hs Hin Hlen D. set (f := fun e : Z * PriceLevel => (e.1, total_quantity e.2)).
  assert (D = f <$> take n L) as ED by (unfold D; by rewrite fmap_take).
  rewrite <- (take_drop n L) in Hs. apply StronglySorted_app in Hs as (Hcross & Hs1 & _).
  split; [|split; [|split]].
  - unfold D. by rewrite length_take, length_fmap, Hlen.
  - rewrite ED. eapply StronglySorted_fmap; [|exact Hs1]. done.
  - intros k q Hkq. rewrite ED in Hkq. apply list_elem_of_fmap in Hkq as ([k' l] & [= -> ->] & He).
    exists l. split; [|done]. apply Hin. cbn. rewrite <- (take_drop n L).
    apply elem_of_app. by left.
  - intros k l Hkl. apply Hin in Hkl. rewrite <- (take_drop n L) in Hkl.
    apply elem_of_app in Hkl as [Ht|Hd].
    + left. rewrite ED. by apply (list_elem_of_fmap_2 f _ (k, l)).
    + right. split.
      * rewrite ED, length_fmap, length_take.
        assert (drop n L <> []) as Hne by (intros E; rewrite E in Hd; by apply not_elem_of_nil in Hd).
        assert (n < length L)%nat; [|lia].
        destruct (decide (n < length L)%nat); [done|].
        destruct Hne. apply drop_ge. lia.
      * intros e He. rewrite ED in He. apply list_elem_of_fmap in He as (e' & -> & He').
        apply (Hcross e' (k, l) He' Hd).
Qed.

(** X13. Market depth. In every state and for every [levels],
    [getMarketDepth] gives for each side as many entries as there are
    levels on that side, but at most [levels]; the bid entries come with
    strictly falling prices and the ask entries with strictly rising
    prices; every entry is the price and the total quantity of a level of
    its side; a level that is not listed exists only when [levels] entries
    are listed, and is then worse than every listed one; and when
    [levels] is not 0 the first entry of a non-empty side is the best price
    with the quantity at the best price. *)
Theorem market_depth_lists_best_levels b levels :
  let d := Book.getMarketDepth b levels in
  (length d.1 = Nat.min levels (size (bids_ b))
   /\ StronglySorted (fun x y => y.1 < x.1) d.1
   /\ (forall k q, (k, q) ∈ d.1 ->
         exists l, bids_ b !! k = Some l /\ q = total_quantity l)
   /\ (forall k l, bids_ b !! k = Some l ->
         (k, total_quantity l) ∈ d.1
         \/ (length d.1 = levels /\ forall e, e ∈ d.1 -> k < e.1))
   /\ (levels <> 0%nat -> bids_ b <> ∅ ->
         head d.1 = Some (Book.getBestBid b, Book.getBestBidQuantity b)))
  /\ (length d.2 = Nat.min levels (size (asks_ b))
      /\ StronglySorted (fun x y => x.1 < y.1) d.2
      /\ (forall k q, (k, q) ∈ d.2 ->
            exists l, asks_ b !! k = Some l /\ q = total_quantity l)
      /\ (forall k l, asks_ b !! k = Some l ->
            (k, total_quantity l) ∈ d.2
            \/ (length d.2 = levels /\ forall e, e ∈ d.2 -> e.1 < k))
      /\ (levels <> 0%nat -> asks_ b <> ∅ ->
            head d.2 = Some (Book.getBestAsk b, Book.getBestAskQuantity b))).
Proof.
  intros d. unfold d, Book.getMarketDepth. cbn [fst snd]. split.
  - destruct (depth_side (fun x y => y < x) (bids_ b) (reverse (entries (bids_ b))) levels)
      as (H1 & H2 & H3 & H4).
    { apply (StronglySorted_reverse _ _ (entries_sorted (bids_ b))). }
    { intros k v. rewrite elem_of_reverse. apply elem_of_entries. }
    { rewrite length_reverse. apply length_entries. }
    split; [exact H1|]. split; [exact H2|]. split; [exact H3|]. split; [exact H4|].
    intros Hn Hne. destruct levels as [|n]; [done|].
    destruct (reverse (entries (bids_ b))) as [|[k v] rest] eqn:E.
    { apply (f_equal length) in E. rewrite length_reverse, length_entries in E.
      cbn in E. by apply map_size_empty_iff in E. }
    destruct (head_reverse_entries (bids_ b) k v) as [Hmax Hkv]; [by rewrite E|].
    cbn. unfold Book.getBestBid, Book.getBestBidQuantity. by rewrite Hmax, Hkv.
  - destruct (depth_side Z.lt (asks_ b) (entries (asks_ b)) levels)
      as (H1 & H2 & H3 & H4).
    { apply entries_sorted. }
    { intros k v. apply elem_of_entries. }
    { apply length_entries. }
    split; [exact H1|]. split; [exact H2|]. split; [exact H3|]. split; [exact H4|].
    intros Hn Hne. destruct levels as [|n]; [done|].
    destruct (entries (asks_ b)) as [|[k v] rest] eqn:E.
    { apply (f_equal length) in E. rewrite length_entries in E.
      cbn in E. by apply map_size_empty_iff in E. }
    destruct (head_entries (asks_ b) k v) as [Hmin Hkv]; [by rewrite E|].
    cbn. unfold Book.getBestAsk, Book.getBestAskQuantity. by rewrite Hmin, Hkv.
Qed.

(** ** Every trade is inside both limits *)

Lemma trade_within_limits_evolves h h' t :
  heap_evolves h h' -> trade_within_limits h t -> trade_within_limits h' t.
Proof.
  intros Hev (pb & ps & ob & os & Hb & Hs & H1 & H2 & H3 & H4 & H5 & H6 & H7 & H8).
  destruct (Hev _ _ Hb) as (ob' & Hb' & (S1 & S2 & S3 & S4 & _) & _).
  destruct (Hev _ _ Hs) as (os' & Hs' & (T1 & T2 & T3 & T4 & _) & _).
  exists pb, ps, ob', os'. rewrite S1, S2, S3, S4, T1, T2, T3, T4. done.
Qed.

Lemma trace_evolves_to_end fuel s p n e :
  Inv s -> outside s p -> e ∈ Engine.match_trace fuel s p ->
  heap_evolves (heap e.1) (heap (Engine.match_loop fuel s p n).1).
Proof.
  revert s n. induction fuel as [|fuel IH]; intros s n HI Hout Hin;
    cbn [Engine.match_trace Engine.match_loop] in *.
  - by apply not_elem_of_nil in Hin.
  - destruct (Engine.match_iter s p) as [[m s']|] eqn:E;
      [|by apply not_elem_of_nil in Hin].
    destruct (pass_spec _ _ _ _ HI Hout E) as (Hpo & HI' & Hout').
    apply elem_of_cons in Hin as [->|Hin].
    + cbn [fst]. eapply heap_evolves_trans; [apply (pass_evolves _ _ _ _ HI Hpo)|].
      by destruct (match_loop_facts fuel s' p (wrap64 (n + 1)) HI' Hout') as (_ & _ & ? & _).
    + by apply IH.
Qed.

Lemma pass_trade_within_limits s p m s' :
  Inv s -> pass_ok s p m s' ->
  trade_within_limits (heap s)
    (trade_of (deref (heap s) p) (deref (heap s) m) (pass_qty s p m)).
Proof.
  intros HI Hpo. pose proof (po_open _ _ _ _ Hpo) as Hop.
  pose proof (po_maker_open _ _ _ _ Hpo) as Hom.
  pose proof (po_maker _ _ _ _ Hpo) as Hm. pose proof (po_side _ _ _ _ Hpo) as Hside.
  pose proof (po_compatible _ _ _ _ Hpo) as Hc.
  assert (heap s !! p = Some (deref (heap s) p)) as Hp
    by (apply deref_open_valid, isFilled_false; lia).
  destruct (h_range _ (inv_heap _ HI) _ _ Hp) as (_ & _ & _ & Rp).
  destruct (h_range _ (inv_heap _ HI) _ _ Hm) as (_ & _ & _ & Rm).
  unfold trade_of, pass_qty.
  destruct (side_ (deref (heap s) p)) eqn:Es; cbn in Hside, Hc.
  - exists p, m, (deref (heap s) p), (deref (heap s) m). cbn. split_and!; try done; lia.
  - exists m, p, (deref (heap s) m), (deref (heap s) p). cbn. split_and!; try done; lia.
Qed.

Lemma run_trades_within_limits ops cb1 cb2 :
  valid_ops ops ->
  forall t, t ∈ trades_ (run ops (Engine.init cb1 cb2)) ->
    trade_within_limits (heap (run ops (Engine.init cb1 cb2))) t.
Proof.
  induction ops as [|op ops IH] using rev_ind; intros Hv t Ht.
  - by apply not_elem_of_nil in Ht.
  - pose proof Hv as Hv'. apply valid_ops_snoc in Hv' as (Hv0 & Hwf & Hfr).
    destruct (run_Inv ops cb1 cb2 Hv0) as [HI Hids].
    rewrite run_snoc in *. destruct op as [a|i]; cbn [step] in *.
    + destruct (run_fresh _ cb1 cb2 _ Hv) as (_ & Hwa & Hfresh).
      destruct (submit_new_spec _ a HI Hwa Hfresh)
        as (HI0 & Hout0 & _ & _ & _ & _ & _ & _ & Hh2 & Htr2 & _).
      set (s := run ops (Engine.init cb1 cb2)) in *.
      set (s0 := (make_shared s a).1) in *. set (p := length (heap s)) in *.
      destruct (match_loop_facts (length (heap s0)) s0 p 0 HI0 Hout0)
        as (_ & _ & Hev & _ & _ & _ & Htr).
      rewrite Hh2. rewrite Htr2 in Ht. unfold Engine.matchOrder in *. rewrite Htr in Ht.
      apply elem_of_app in Ht as [Ht|Ht].
      * eapply trade_within_limits_evolves; [exact Hev|].
        eapply trade_within_limits_evolves; [|apply (IH Hv0 t Ht)].
        intros x ox Hx. exists ox.
        destruct (h_range _ (inv_heap _ HI) _ _ Hx) as (_ & _ & _ & ?).
        split_and!; [|apply same_static_refl|lia|lia].
        cbn [s0 make_shared fst Engine.set_heap heap]. by apply lookup_app_l_Some.
      * unfold trace_trades in Ht. apply list_elem_of_fmap in Ht as (e & -> & He).
        pose proof (match_trace_facts (length (heap s0)) s0 p HI0 Hout0) as Hall.
        rewrite Forall_forall in Hall.
        destruct (Hall _ He) as (HIe & _ & _ & _ & _ & s' & _ & Hpo).
        eapply trade_within_limits_evolves;
          [apply (trace_evolves_to_end _ _ _ 0 _ HI0 Hout0 He)|].
        by eapply pass_trade_within_limits.
    + rewrite cancel_heap. rewrite cancel_trades in Ht. by apply IH.
Qed.

(** X14. No trade-through. After every operation of a valid sequence run
    from the empty engine, every trade of the trade list is between a Buy
    order and a Sell order that were created, with those ids; its price is
    not above the buyer's limit and not below the seller's limit; its
    quantity is positive and at most the original quantity of either
    order; and the two ids differ. *)
Theorem no_trade_through ops cb1 cb2 :
  valid_ops ops ->
  let s := run ops (Engine.init cb1 cb2) in
  forall t, t ∈ trades_ s ->
    trade_within_limits (heap s) t /\ buy_order_id t <> sell_order_id t.
Proof.
  intros Hv s t Ht. pose proof (run_trades_within_limits ops cb1 cb2 Hv t Ht) as Hw.
  split; [exact Hw|].
  destruct Hw as (pb & ps & ob & os & Hb & Hs & H1 & H2 & <- & <- & _).
  destruct (run_Inv ops cb1 cb2 Hv) as [HI _].
  intros E. assert (pb = ps) as -> by (eapply (h_ids _ (inv_heap _ HI)); eauto).
  assert (ob = os) by congruence. congruence.
Qed.

(** ** Clearing the engine, and batches *)

Lemma getOrdersForMatching_empty side :
  Book.getOrdersForMatching (Book.clear Book.empty) side = [].
Proof.
  unfold Book.getOrdersForMatching. destruct side; cbn [Book.getPriceLevelMap Book.clear bids_ asks_].
  - by assert (max_key (∅ : gmap Z PriceLevel) = None) as -> by by apply max_key_None.
  - by assert (min_key (∅ : gmap Z PriceLevel) = None) as -> by by apply min_key_None.
Qed.

(** X15. After [clear]. For every state, after [MatchingEngine::clear] the
    book is empty ([isEmpty], no depth on either side), the trade list and
    the three counters are reset, every cancel returns false and changes
    nothing, and a new order of non-zero quantity that is submitted next
    returns true, trades with nothing and rests alone: it is the only entry
    of the index and the only level of the book, with its quantity as total
    quantity. *)
Theorem clear_then_submit s a :
  let c := Engine.clear s in
  Book.isEmpty (order_book_ c) = true
  /\ (forall n, Book.getMarketDepth (order_book_ c) n = ([], []))
  /\ trades_ c = [] /\ trade_count_ c = 0 /\ total_volume_ c = 0 /\ total_value_ c = 0
  /\ (forall i, Engine.cancelOrder c i = (c, false))
  /\ (a_quantity a <> 0 ->
        let r := submit_new c a in
        let p := length (heap s) in
        r.2 = true /\ trades_ r.1 = []
        /\ orders_ (order_book_ r.1) = {[a_id a := p]}
        /\ Book.getPriceLevelMap (order_book_ r.1) (a_side a)
           = {[a_price a := mkLevel (a_price a) (wrap64 (a_quantity a)) [p]]}
        /\ Book.getPriceLevelMap (order_book_ r.1) (Engine.opposing (a_side a)) = ∅).
Proof.
  intros c. split; [done|]. split.
  { intros n. unfold Book.getMarketDepth, entries, sorted_keys, keys.
    cbn [c Engine.clear order_book_ Book.clear bids_ asks_].
    rewrite map_to_list_empty. cbn. by rewrite take_nil. }
  do 4 (split; [done|]). split.
  { intros i. unfold Engine.cancelOrder. rewrite cancelOrder_unknown by done.
    f_equal. }
  intros Hq r p.
  set (o := new_Order (a_id a) (a_side a) (a_price a) (a_quantity a) (a_timestamp a)).
  set (s0 := (make_shared c a).1).
  assert (deref (heap s0) p = o) as Hd by apply deref_snoc.
  assert (isFilled (deref (heap s0) p) = false) as Hf
    by (rewrite Hd; apply isFilled_false; exact Hq).
  assert (Engine.match_iter s0 p = None) as Hnone.
  { unfold Engine.match_iter. rewrite Hf.
    change (order_book_ s0) with (Book.clear Book.empty).
    by rewrite getOrdersForMatching_empty. }
  assert ((Engine.matchOrder s0 p).1 = s0) as Hm.
  { unfold Engine.matchOrder. destruct (length (heap s0)); [done|].
    cbn [Engine.match_loop]. by rewrite Hnone. }
  assert (r = (Engine.notifyOrderCallback
                 (Engine.set_book s0 (Book.addOrder (heap s0) (order_book_ s0) (Some p)).1)
                 (Some p), true)) as Er.
  { unfold r. rewrite submit_new_unfold. cbn zeta. fold s0. change (length (heap c)) with p.
    by rewrite Hm, Hf. }
  rewrite Er. cbn [fst snd].
  rewrite notifyOrderCallback_trades, notifyOrderCallback_book.
  cbn [Engine.set_book order_book_ trades_]. rewrite addOrder_known, Hd. cbn [fst].
  split; [done|]. split; [done|].
  change (order_book_ s0) with (mkBook (∅ : gmap Z PriceLevel) ∅ ∅).
  split; [|split].
  - rewrite orders_upd_level. cbn [Book.set_orders orders_ o new_Order id_].
    apply insert_empty.
  - unfold upd_level. rewrite get_set_same, get_set_orders.
    cbn [o new_Order side_ price_ remaining_quantity_].
    assert (Book.getPriceLevelMap (mkBook (∅ : gmap Z PriceLevel) ∅ ∅) (a_side a) = ∅)
      as -> by by destruct (a_side a).
    rewrite lookup_empty. cbn [default from_option]. unfold Level.addOrder.
    cbn [price total_quantity orders app]. rewrite Hd.
    cbn [o new_Order remaining_quantity_]. rewrite Z.add_0_l. apply insert_empty.
  - unfold upd_level. cbn [o new_Order side_].
    rewrite get_set_other by (by destruct (a_side a)).
    rewrite get_set_orders. by destruct (a_side a).
Qed.

Lemma processBatch_gen orders s n :
  let r := fold_left (fun acc order =>
                        let '(s', ok) := Engine.submitOrder acc.1 order in
                        (s', if ok then wrap64 (acc.2 + 1) else acc.2))
                     orders (s, n) in
  r.1 = fold_left (fun s order => (Engine.submitOrder s order).1) orders s
  /\ r.2 = match filter is_Some orders with
           | [] => n
           | l => wrap64 (n + Z.of_nat (length l))
           end.
Proof.
  revert s n. induction orders as [|o orders IH]; intros s n; [done|].
  cbn [fold_left fst snd]. destruct o as [p|].
  - cbn [Engine.submitOrder]. destruct (IH (Engine.submitOrder s (Some p)).1 (wrap64 (n + 1)))
      as [H1 H2]. cbn [Engine.submitOrder fst] in H1, H2.
    split; [exact H1|]. rewrite H2.
    rewrite filter_cons_True by eauto.
    destruct (filter is_Some orders) as [|x l]; cbn [length].
    + f_equal; lia.
    + rewrite wrap64_add_l. f_equal; lia.
  - cbn [Engine.submitOrder]. destruct (IH s n) as [H1 H2].
    split; [exact H1|]. rewrite H2. rewrite filter_cons_False; [done|].
    intros [? ?]. discriminate.
Qed.

Lemma filter_all_Some {A} (l : list (option A)) :
  Forall is_Some l -> filter is_Some l = l.
Proof.
  induction 1 as [|x l Hx Hall IH]; [done|].
  rewrite filter_cons_True by done. by rewrite IH.
Qed.

(** X16. Batches. [processBatch] submits the orders of the batch one after
    the other, in order, and goes through the whole batch; a null entry
    leaves the state as it is and is not counted; the value returned is the
    number of non-null entries (modulo 2^64), so for a batch without null
    entries it is the size of the batch. *)
Theorem processBatch_counts_non_null s orders :
  let r := Engine.processBatch s orders in
  r.1 = fold_left (fun s order => (Engine.submitOrder s order).1) orders s
  /\ r.2 = wrap64 (Z.of_nat (length (filter is_Some orders)))
  /\ (Forall is_Some orders -> r.2 = wrap64 (Z.of_nat (length orders)))
  /\ Engine.processBatch s (None :: orders) = Engine.processBatch s orders.
Proof.
  intros r. destruct (processBatch_gen orders s 0) as [H1 H2].
  assert (r.2 = wrap64 (Z.of_nat (length (filter is_Some orders)))) as H3.
  { unfold r, Engine.processBatch. rewrite H2.
    by destruct (filter is_Some orders). }
  split; [exact H1|]. split; [exact H3|]. split; [|done].
  intros Hall. rewrite H3.
  by rewrite (filter_all_Some _ Hall).
Qed.

(** ** The order callback *)

Lemma pass_maker_filled s p m s' :
  pass_ok s p m s' ->
  isFilled (deref (heap s') m)
  = (remaining_quantity_ (deref (heap s) m) <=? remaining_quantity_ (deref (heap s) p)).
Proof.
  intros Hpo. unfold isFilled. rewrite (po_rem_m _ _ _ _ Hpo). unfold pass_qty.
  pose proof (po_open _ _ _ _ Hpo). pose proof (po_maker_open _ _ _ _ Hpo).
  destruct (Z.leb_spec (remaining_quantity_ (deref (heap s) m))
                       (remaining_quantity_ (deref (heap s) p))); lia.
Qed.

Lemma match_loop_order_events fuel s p n :
  Inv s -> outside s p ->
  order_events (Engine.match_loop fuel s p n).1
  = order_events s
    ++ (if order_callback_ s then Some <$> filled_makers p (Engine.match_trace fuel s p)
        else []).
Proof.
  revert s n. induction fuel as [|fuel IH]; intros s n HI Hout;
    cbn [Engine.match_loop Engine.match_trace].
  - cbn. destruct (order_callback_ s); by rewrite app_nil_r.
  - destruct (Engine.match_iter s p) as [[m s']|] eqn:E.
    + destruct (pass_spec _ _ _ _ HI Hout E) as (Hpo & HI' & Hout').
      destruct (match_iter_counters _ _ _ _ E) as (t & _ & _ & _ & _ & _ & _ & Eoc & Eev).
      rewrite (IH s' (wrap64 (n + 1)) HI' Hout'), Eev, Eoc, <- app_assoc. f_equal.
      rewrite (pass_maker_filled _ _ _ _ Hpo).
      unfold filled_makers. cbn [omap list_omap fst snd].
      destruct (order_callback_ s); [|done].
      by destruct (_ <=? _).
    + cbn. destruct (order_callback_ s); by rewrite app_nil_r.
Qed.

Lemma filled_makers_filled fuel s p n m :
  Inv s -> outside s p ->
  m ∈ filled_makers p (Engine.match_trace fuel s p) ->
  m <> p /\ is_Some (heap s !! m)
  /\ isFilled (deref (heap (Engine.match_loop fuel s p n).1) m) = true.
Proof.
  revert s n. induction fuel as [|fuel IH]; intros s n HI Hout Hin;
    cbn [Engine.match_loop Engine.match_trace] in *.
  - by apply not_elem_of_nil in Hin.
  - destruct (Engine.match_iter s p) as [[m' s']|] eqn:E;
      [|by apply not_elem_of_nil in Hin].
    destruct (pass_spec _ _ _ _ HI Hout E) as (Hpo & HI' & Hout').
    destruct (pass_evolves _ _ _ _ HI Hpo) as (Hev & Hlen).
    destruct (match_loop_facts fuel s' p (wrap64 (n + 1)) HI' Hout')
      as (_ & _ & Hev' & Hlen' & _).
    assert (m ∈ filled_makers p (Engine.match_trace fuel s' p) ->
            m <> p /\ is_Some (heap s !! m)
            /\ isFilled (deref (heap (Engine.match_loop fuel s' p (wrap64 (n + 1))).1) m)
               = true) as Hrec.
    { intros Hin'. destruct (IH s' (wrap64 (n + 1)) HI' Hout' Hin') as (H1 & H2 & H3).
      split_and!; [done| |done].
      apply lookup_lt_is_Some. apply lookup_lt_is_Some in H2. lia. }
    unfold filled_makers in Hin. cbn [omap list_omap fst snd] in Hin.
    fold (filled_makers p (Engine.match_trace fuel s' p)) in Hin.
    destruct (_ <=? _) eqn:Ele in Hin; [|by apply Hrec].
    apply elem_of_cons in Hin as [->|Hin]; [|by apply Hrec].
    split_and!.
    + intros ->. by apply (po_distinct _ _ _ _ Hpo).
    + rewrite (po_maker _ _ _ _ Hpo). eauto.
    + pose proof (pass_maker_filled _ _ _ _ Hpo) as Hf. rewrite Ele in Hf.
      destruct (Hev _ _ (po_maker _ _ _ _ Hpo)) as (o1 & Ho1 & _ & _).
      rewrite (deref_Some _ _ _ Ho1) in Hf.
      destruct (Hev' _ _ Ho1) as (o2 & Ho2 & _ & Hr).
      rewrite (deref_Some _ _ _ Ho2). unfold isFilled in *. lia.
Qed.

(** X17. Order callback on submission. When a new order is submitted in a
    reachable state and the order callback is set, the callback is called,
    in this order, once for each resting order that a pass of the matching
    loop fills completely (in the order of the passes, with that order's
    pointer), and then once more with the incoming order if and only if the
    incoming order is left with open quantity (and so rests); a resting
    order that is only partly filled is not notified, and the callback is
    never called with a null pointer here. Without a callback nothing is
    recorded. Every order notified as filled is an earlier order, not the
    incoming one, and is filled in the final state. *)
Theorem order_callback_on_submission ops cb1 cb2 a :
  valid_ops (ops ++ [Submit a]) ->
  let s := run ops (Engine.init cb1 cb2) in
  let s0 := (make_shared s a).1 in
  let p := length (heap s) in
  let tr := Engine.match_trace (length (heap s0)) s0 p in
  let s2 := (submit_new s a).1 in
  order_events s2
  = order_events s
    ++ (if cb1
        then (Some <$> filled_makers p tr)
             ++ (if isFilled (deref (heap s2) p) then [] else [Some p])
        else [])
  /\ forall m, m ∈ filled_makers p tr ->
       (m < p)%nat /\ isFilled (deref (heap s2) m) = true.
Proof.
  intros Hv s s0 p tr s2.
  destruct (run_fresh ops cb1 cb2 a Hv) as (HI & Hwa & Hfresh). fold s in HI, Hfresh.
  destruct (run_stats ops cb1 cb2) as (_ & _ & Hcb). fold s in Hcb.
  destruct (submit_new_spec s a HI Hwa Hfresh)
    as (HI0 & Hout0 & HI1 & Hout1 & Hexit & Hev & Hlen & HI2 & Hh2 & Ht2 & Hb2).
  fold s0 p s2 in HI0, Hout0, HI1, Hout1, Hexit, Hev, Hlen, HI2, Hh2, Ht2, Hb2.
  set (s1 := (Engine.matchOrder s0 p).1) in *.
  pose proof (match_loop_order_events (length (heap s0)) s0 p 0 HI0 Hout0) as Hoe.
  fold (Engine.matchOrder s0 p) in Hoe. fold s1 tr in Hoe.
  assert (order_callback_ s0 = cb1) as Hcb0 by exact Hcb.
  assert (order_events s0 = order_events s) as He0 by done.
  rewrite Hcb0, He0 in Hoe.
  destruct (match_loop_stats (length (heap s0)) s0 p 0) as (_ & _ & Hcb1).
  { destruct (run_stats ops cb1 cb2) as (Hs & _ & _). fold s in Hs.
    by eapply stats_ok_ext; [..|exact Hs]. }
  fold (Engine.matchOrder s0 p) in Hcb1. fold s1 in Hcb1. rewrite Hcb0 in Hcb1.
  split.
  - rewrite Hh2. unfold s2. rewrite submit_new_unfold. cbn zeta. fold s0 p s1. cbn [fst].
    destruct (isFilled (deref (heap s1) p)); cbn [negb].
    + rewrite Hoe. destruct cb1; [|done]. by rewrite app_nil_r.
    + unfold Engine.notifyOrderCallback.
      cbn [Engine.set_book order_callback_ order_events]. rewrite Hcb1.
      destruct cb1; cbn [order_events Engine.set_book]; rewrite Hoe; [|done].
      by rewrite <- app_assoc.
  - intros m Hm. rewrite Hh2.
    destruct (filled_makers_filled (length (heap s0)) s0 p 0 m HI0 Hout0 Hm)
      as (Hne & Hsome & Hf).
    split; [|exact Hf].
    apply lookup_lt_is_Some in Hsome.
    assert (length (heap s0) = S p) as Hl0.
    { unfold s0, p. cbn [make_shared fst Engine.set_heap heap].
      rewrite length_app. cbn. lia. }
    lia.
Qed.

(** ** The queues *)

Lemma queue_elem h b side k x :
  book_wf h b -> x ∈ Book.getOrdersAtPrice b k side ->
  exists o, h !! x = Some o /\ side_ o = side /\ price_ o = k
            /\ orders_ b !! id_ o = Some x.
Proof.
  intros Hwf. unfold Book.getOrdersAtPrice.
  destruct (Book.getPriceLevelMap b side !! k) as [l|] eqn:El.
  - apply (l_members _ _ _ _ _ (b_levels _ _ Hwf _ _ _ El)).
  - intros Hin. by apply not_elem_of_nil in Hin.
Qed.

Lemma queue_upd_level b side k l side' k' :
  Book.getOrdersAtPrice (upd_level b side k l) k' side'
  = if decide (side' = side /\ k' = k) then orders l
    else Book.getOrdersAtPrice b k' side'.
Proof. unfold Book.getOrdersAtPrice. rewrite lookup_upd_level. by destruct (decide _). Qed.

Lemma queue_book_without h b i m mo l side k r :
  book_wf h b -> h !! m = Some mo ->
  Book.getPriceLevelMap b (side_ mo) !! price_ mo = Some l ->
  Book.getOrdersAtPrice (book_without b (side_ mo) (price_ mo) l m i r) k side
  = without m (Book.getOrdersAtPrice b k side).
Proof.
  intros Hwf Hm Hl. unfold Book.getOrdersAtPrice at 1. rewrite lookup_book_without.
  destruct (decide _) as [[-> ->]|Hne].
  - unfold Book.getOrdersAtPrice. rewrite Hl. by destruct (without m (orders l)).
  - fold (Book.getOrdersAtPrice b k side). rewrite without_notin; [done|]. intros Hin.
    destruct (queue_elem _ _ _ _ _ Hwf Hin) as (o & Ho & Hs & Hk & _).
    assert (o = mo) as -> by congruence. apply Hne. by split.
Qed.

Lemma queue_after_fill h b p m q o mo l :
  heap_ok h -> book_wf h b ->
  h !! p = Some o -> orders_ b !! id_ o = None ->
  h !! m = Some mo -> orders_ b !! id_ mo = Some m ->
  Book.getPriceLevelMap b (side_ mo) !! price_ mo = Some l ->
  0 <= q -> q <= remaining_quantity_ o -> q <= remaining_quantity_ mo ->
  let h' := Engine.reduce_at (Engine.reduce_at h p q) m q in
  forall side k,
    Book.getOrdersAtPrice (book_after_fill h' b p m q) k side
    = if decide (remaining_quantity_ mo - q = 0)
      then without m (Book.getOrdersAtPrice b k side)
      else Book.getOrdersAtPrice b k side.
Proof.
  intros Hh Hwf Hp Hnew Hm Hi Hl Hq Hqo Hqm h' side k.
  assert (p <> m) as Hne by (intros ->; assert (o = mo) by congruence; congruence).
  destruct (pass_heap h p m q o mo Hh Hp Hm Hne Hq Hqo Hqm)
    as (Hh' & Hp' & Hm' & Hother & Ero & Erm).
  fold h' in Hh', Hp', Hm', Hother.
  set (mo1 := (reduceQuantity mo q).1) in *.
  set (b5 := upd_level b (side_ mo) (price_ mo)
               (mkLevel (price l) (wrap64 (total_quantity l - q)) (orders l))).
  assert (book_wf h' b5) as Hwf5.
  { apply (fill_wf h h' b (id_ mo) m mo mo1 l q); try done.
    intros j x Hj Hxm. apply Hother; [|done].
      intros ->. destruct (b_index _ _ Hwf _ _ Hj) as (ox & Hox & Hidx & _).
      assert (ox = o) as -> by congruence. congruence. }
  assert (Book.updateOrderQuantity h'
            (Book.updateOrderQuantity h' b (id_ (deref h' p))
               (wrap64 (remaining_quantity_ (deref h' p) + q))
               (remaining_quantity_ (deref h' p)))
            (id_ (deref h' m))
            (wrap64 (remaining_quantity_ (deref h' m) + q))
            (remaining_quantity_ (deref h' m)) = b5) as Hb5.
  { rewrite (deref_Some _ _ _ Hp'), (deref_Some _ _ _ Hm').
    rewrite (updateOrderQuantity_unknown h' b (id_ (reduceQuantity o q).1)) by exact Hnew.
    rewrite (updateOrderQuantity_known h' b (id_ mo1) m l);
      rewrite ?(deref_Some _ _ _ Hm'); try done.
    unfold b5, Level.updateQuantity. cbn [side_ price_ mo1 reduceQuantity fst].
    do 2 f_equal. apply wrap64_fill. }
  assert (orders_ b5 !! id_ mo = Some m) as Hi5 by by (unfold b5; rewrite orders_upd_level).
  assert (forall side k, Book.getOrdersAtPrice b5 k side = Book.getOrdersAtPrice b k side)
    as Hq5.
  { intros side' k'. unfold b5. rewrite queue_upd_level.
    destruct (decide _) as [[-> ->]|_]; [|done].
    unfold Book.getOrdersAtPrice. by rewrite Hl. }
  unfold book_after_fill. rewrite Hb5. rewrite (deref_Some _ _ _ Hm').
  change (id_ mo1) with (id_ mo).
  destruct (isFilled mo1) eqn:Hf.
  - apply isFilled_true in Hf. rewrite decide_True by lia.
    destruct (cancel_book_spec h' b5 (id_ mo) m Hh' Hwf5 Hi5) as (l5 & Hl5 & Hin5 & ->).
    rewrite (deref_Some _ _ _ Hm') in *. cbn [fst].
    rewrite (queue_book_without h' b5 (id_ mo) m mo1 l5) by done.
    by rewrite Hq5.
  - apply isFilled_false in Hf. rewrite decide_False by lia. apply Hq5.
Qed.

Lemma pass_queues s p m s' :
  Inv s -> outside s p -> Engine.match_iter s p = Some (m, s') ->
  forall side k,
    Book.getOrdersAtPrice (order_book_ s') k side
    = if isFilled (deref (heap s') m)
      then without m (Book.getOrdersAtPrice (order_book_ s) k side)
      else Book.getOrdersAtPrice (order_book_ s) k side.
Proof.
  intros HI Hout Hit side k.
  destruct (pass_analysis _ _ _ _ HI Hout Hit)
    as (Hp & Hm & Hop & Hom & Hside & Hcomp & Hmi & (l & Hl & Hin & Hts & Hbest)
        & Htr & Hheap & Hbook).
  destruct (pass_spec _ _ _ _ HI Hout Hit) as (Hpo & _ & _).
  rewrite <- Hside in Hl.
  rewrite Hbook, Hheap.
  rewrite (queue_after_fill (heap s) (order_book_ s) p m (pass_qty s p m) _ _ l
             (inv_heap _ HI) (inv_wf _ HI) Hp Hout Hm Hmi Hl); [|unfold pass_qty; lia..].
  rewrite <- Hheap. unfold isFilled. rewrite (po_rem_m _ _ _ _ Hpo).
  destruct (decide _) as [E|E]; destruct (Z.eqb_spec (remaining_quantity_ (deref (heap s) m)
                                                       - pass_qty s p m) 0); done.
Qed.

Lemma filter_not_cons (m : ptr) (ms l : list ptr) :
  filter (fun x => x ∉ m :: ms) l = filter (fun x => x ∉ ms) (without m l).
Proof.
  unfold without. rewrite list_filter_filter. apply list_filter_iff.
  intros x. rewrite not_elem_of_cons. tauto.
Qed.

Lemma filter_notin_nil (l : list ptr) : filter (fun x => x ∉ []) l = l.
Proof.
  induction l as [|x l IH]; [done|].
  rewrite filter_cons_True by apply not_elem_of_nil. by rewrite IH.
Qed.

Lemma loop_queues fuel s p n :
  Inv s -> outside s p ->
  forall side k,
    Book.getOrdersAtPrice (order_book_ (Engine.match_loop fuel s p n).1) k side
    = filter (fun x => x ∉ filled_makers p (Engine.match_trace fuel s p))
             (Book.getOrdersAtPrice (order_book_ s) k side).
Proof.
  revert s n. induction fuel as [|fuel IH]; intros s n HI Hout side k;
    cbn [Engine.match_loop Engine.match_trace].
  - cbn [fst filled_makers omap list_omap]. symmetry. apply filter_notin_nil.
  - destruct (Engine.match_iter s p) as [[m s']|] eqn:E.
    + destruct (pass_spec _ _ _ _ HI Hout E) as (Hpo & HI' & Hout').
      rewrite (IH s' (wrap64 (n + 1)) HI' Hout').
      rewrite (pass_queues _ _ _ _ HI Hout E), (pass_maker_filled _ _ _ _ Hpo).
      unfold filled_makers. cbn [omap list_omap fst snd].
      destruct (_ <=? _); [|done].
      symmetry. apply filter_not_cons.
    + cbn [fst filled_makers omap list_omap]. symmetry. apply filter_notin_nil.
Qed.

Lemma addOrder_queue h b p side k :
  Book.getOrdersAtPrice (Book.addOrder h b (Some p)).1 k side
  = Book.getOrdersAtPrice b k side
    ++ (if decide (side = side_ (deref h p) /\ k = price_ (deref h p)) then [p] else []).
Proof.
  rewrite addOrder_known. cbn [fst]. rewrite queue_upd_level.
  unfold Book.getOrdersAtPrice. rewrite !get_set_orders.
  destruct (decide _) as [[-> ->]|_]; [|by rewrite app_nil_r].
  unfold Level.addOrder. cbn [orders].
  by destruct (Book.getPriceLevelMap b (side_ (deref h p)) !! price_ (deref h p)).
Qed.

Lemma filled_makers_side fuel s p m :
  Inv s -> outside s p ->
  m ∈ filled_makers p (Engine.match_trace fuel s p) ->
  side_ (deref (heap s) m) = Engine.opposing (side_ (deref (heap s) p)).
Proof.
  intros HI Hout Hin. apply list_elem_of_omap in Hin as ([si mi] & Hin & Hf).
  cbn [fst snd] in Hf. destruct (_ <=? _); [|discriminate]. injection Hf as ->.
  pose proof (match_trace_facts fuel s p HI Hout) as Hall.
  rewrite Forall_forall in Hall.
  destruct (Hall _ Hin) as (_ & _ & Hev & Hlen & _ & s' & _ & Hpo). cbn [fst snd] in *.
  pose proof (po_side _ _ _ _ Hpo) as Hs.
  destruct (heap_evolves_deref _ _ m Hev Hlen) as ((_ & Hsm & _) & _).
  destruct (heap_evolves_deref _ _ p Hev Hlen) as ((_ & Hsp & _) & _).
  congruence.
Qed.

(** ** Queue order *)

Lemma filter_all (P : ptr -> Prop) `{!forall x, Decision (P x)} (l : list ptr) :
  (forall x, x ∈ l -> P x) -> filter P l = l.
Proof.
  induction l as [|x l IH]; intros HP; [done|].
  rewrite filter_cons_True by (apply HP; by left).
  rewrite IH; [done|]. intros y Hy. apply HP. by right.
Qed.

Lemma StronglySorted_filter (P : ptr -> Prop) `{!forall x, Decision (P x)} (l : list ptr) :
  StronglySorted lt l -> StronglySorted lt (filter P l).
Proof.
  induction 1 as [|x l Hs IH Hall]; [constructor|].
  destruct (decide (P x)).
  - rewrite filter_cons_True by done. constructor; [done|].
    apply Forall_forall. intros y Hy. apply list_elem_of_filter in Hy as [_ Hy].
    rewrite Forall_forall in Hall. by apply Hall.
  - by rewrite filter_cons_False.
Qed.

Lemma cancel_queues s i m :
  Inv s -> orders_ (order_book_ s) !! i = Some m ->
  forall side k,
    Book.getOrdersAtPrice (order_book_ (Engine.cancelOrder s i).1) k side
    = without m (Book.getOrdersAtPrice (order_book_ s) k side).
Proof.
  intros HI Hi side k. pose proof (inv_heap _ HI) as Hh. pose proof (inv_wf _ HI) as Hwf.
  unfold Engine.cancelOrder.
  destruct (cancel_book_spec _ _ _ _ Hh Hwf Hi) as (l & Hl & Hin & ->). cbn [fst].
  destruct (b_index _ _ Hwf _ _ Hi) as (mo & Hm & Hid & _).
  rewrite (deref_Some _ _ _ Hm) in *.
  rewrite notifyOrderCallback_book. cbn [Engine.set_book order_book_].
  by apply (queue_book_without (heap s)).
Qed.

Lemma submit_queues s a :
  Inv s -> wf_args a -> fresh_id s (a_id a) ->
  let s0 := (make_shared s a).1 in
  let p := length (heap s) in
  let tr := Engine.match_trace (length (heap s0)) s0 p in
  let s2 := (submit_new s a).1 in
  forall side k,
    Book.getOrdersAtPrice (order_book_ s2) k side
    = filter (fun x => x ∉ filled_makers p tr)
             (Book.getOrdersAtPrice (order_book_ s) k side)
      ++ (if decide (side = a_side a /\ k = a_price a)
          then (if isFilled (deref (heap s2) p) then [] else [p])
          else []).
Proof.
  intros HI Hwa Hfresh s0 p tr s2 side k.
  destruct (submit_new_spec s a HI Hwa Hfresh)
    as (HI0 & Hout0 & HI1 & Hout1 & Hexit & Hev & Hlen & HI2 & Hh2 & Ht2 & Hb2).
  fold s0 p s2 in HI0, Hout0, HI1, Hout1, Hexit, Hev, Hlen, HI2, Hh2, Ht2, Hb2.
  set (s1 := (Engine.matchOrder s0 p).1) in *.
  pose proof (loop_queues (length (heap s0)) s0 p 0 HI0 Hout0 side k) as Hq.
  fold (Engine.matchOrder s0 p) in Hq. fold s1 tr in Hq.
  change (order_book_ s0) with (order_book_ s) in Hq.
  destruct (heap_evolves_deref _ _ p Hev Hlen) as ((_ & Hsp & Hpp & _) & _).
  assert (deref (heap s0) p = new_Order (a_id a) (a_side a) (a_price a) (a_quantity a)
                                        (a_timestamp a)) as Hd by apply deref_snoc.
  rewrite Hd in Hsp, Hpp. cbn [new_Order side_ price_] in Hsp, Hpp.
  rewrite Hb2, Hh2. destruct (isFilled (deref (heap s1) p)).
  - rewrite Hq. by destruct (decide _); rewrite app_nil_r.
  - rewrite addOrder_queue, Hq, Hsp, Hpp. done.
Qed.

(** X18. Queues after a submission. When a new order is submitted in a
    reachable state, every queue of the book (the orders at one price on
    one side, as [getOrdersAtPrice] returns them) is afterwards the queue
    as it was, in the same order, without the orders that the matching loop
    filled completely, followed by the incoming order when this is the level
    of its side and price and it is left with open quantity. On the
    incoming order's own side no order is removed. *)
Theorem queues_after_submission ops cb1 cb2 a :
  valid_ops (ops ++ [Submit a]) ->
  let s := run ops (Engine.init cb1 cb2) in
  let s0 := (make_shared s a).1 in
  let p := length (heap s) in
  let tr := Engine.match_trace (length (heap s0)) s0 p in
  let s2 := (submit_new s a).1 in
  let arrived side k :=
    if decide (side = a_side a /\ k = a_price a)
    then (if isFilled (deref (heap s2) p) then [] else [p])
    else [] in
  forall side k,
    Book.getOrdersAtPrice (order_book_ s2) k side
    = filter (fun x => x ∉ filled_makers p tr)
             (Book.getOrdersAtPrice (order_book_ s) k side)
      ++ arrived side k
    /\ (side = a_side a ->
        Book.getOrdersAtPrice (order_book_ s2) k side
        = Book.getOrdersAtPrice (order_book_ s) k side ++ arrived side k).
Proof.
  intros Hv s s0 p tr s2 arrived side k.
  destruct (run_fresh ops cb1 cb2 a Hv) as (HI & Hwa & Hfresh). fold s in HI, Hfresh.
  pose proof (submit_queues s a HI Hwa Hfresh side k) as Hq.
  fold s0 p tr s2 in Hq. split; [exact Hq|].
  intros ->. rewrite Hq. f_equal. apply filter_all. intros x Hx Hfm.
  destruct (make_shared_Inv s a HI Hwa Hfresh) as (HI0 & Hp0 & Hnone0 & _).
  fold s0 in HI0, Hp0, Hnone0. cbn [make_shared snd] in Hp0. fold p in Hp0.
  assert (outside s0 p) as Hout0.
  { unfold outside. by rewrite (deref_Some _ _ _ Hp0). }
  pose proof (filled_makers_side _ _ _ _ HI0 Hout0 Hfm) as Hside.
  rewrite (deref_Some _ _ _ Hp0) in Hside. cbn [new_Order side_] in Hside.
  destruct (queue_elem _ _ _ _ _ (inv_wf _ HI) Hx) as (o & Ho & Hs & _).
  assert (deref (heap s0) x = o) as Hdx.
  { unfold s0. cbn [make_shared fst Engine.set_heap heap]. by apply deref_app_l. }
  rewrite Hdx, Hs in Hside. by destruct (a_side a).
Qed.

(** X19. Cancelling a resting order. In a reachable state, cancelling an
    id that the index maps to an order returns true, takes that order, and
    no other, out of its queue and leaves the order of every queue as it
    was; the id leaves the index and the other ids stay; no order object
    and no trade is touched, so the cancelled order keeps its remaining
    quantity. *)
Theorem cancel_removes_resting_order ops cb1 cb2 i m :
  valid_ops ops ->
  let s := run ops (Engine.init cb1 cb2) in
  Book.getOrder (order_book_ s) i = Some m ->
  let r := Engine.cancelOrder s i in
  r.2 = true
  /\ heap r.1 = heap s /\ trades_ r.1 = trades_ s
  /\ Book.getOrder (order_book_ r.1) i = None
  /\ (forall j, j <> i ->
        Book.getOrder (order_book_ r.1) j = Book.getOrder (order_book_ s) j)
  /\ (forall side k,
        Book.getOrdersAtPrice (order_book_ r.1) k side
        = without m (Book.getOrdersAtPrice (order_book_ s) k side))
  /\ m ∈ Book.getOrdersAtPrice (order_book_ s) (price_ (deref (heap s) m))
                               (side_ (deref (heap s) m)).
Proof.
  intros Hv s Hi r. destruct (run_Inv ops cb1 cb2 Hv) as [HI _]. fold s in HI.
  unfold Book.getOrder in Hi.
  pose proof (inv_heap _ HI) as Hh. pose proof (inv_wf _ HI) as Hwf.
  assert (order_book_ r.1
          = (Book.cancelOrder (heap s) (order_book_ s) i).1) as Hb.
  { unfold r, Engine.cancelOrder.
    destruct (Book.cancelOrder _ _ _) as [b [|]]; cbn [fst].
    - by rewrite notifyOrderCallback_book.
    - done. }
  assert (orders_ (order_book_ r.1) = delete i (orders_ (order_book_ s))) as Ho.
  { rewrite Hb. destruct (cancel_book_spec _ _ _ _ Hh Hwf Hi) as (l & _ & _ & ->).
    cbn [fst]. apply orders_book_without. }
  split_and!.
  - unfold r, Engine.cancelOrder, Book.cancelOrder. by rewrite Hi.
  - apply cancel_heap.
  - apply cancel_trades.
  - unfold Book.getOrder. rewrite Ho. apply lookup_delete_eq.
  - intros j Hj. unfold Book.getOrder. rewrite Ho. by apply lookup_delete_ne.
  - intros side k. by apply cancel_queues.
  - destruct (cancel_book_spec _ _ _ _ Hh Hwf Hi) as (l & Hl & Hin & _).
    unfold Book.getOrdersAtPrice. by rewrite Hl.
Qed.

Lemma step_fifo s op :
  Inv s -> wf_op op ->
  match op with Submit a => fresh_id s (a_id a) | Cancel _ => True end ->
  fifo (order_book_ s) -> fifo (order_book_ (step s op)).
Proof.
  intros HI Hwf Hfresh Hf side k. destruct op as [a|i]; cbn [step].
  - rewrite (submit_queues s a HI Hwf Hfresh side k).
    apply StronglySorted_app_2.
    + intros x1 x2 H1 H2. apply list_elem_of_filter in H1 as [_ H1].
      destruct (queue_elem _ _ _ _ _ (inv_wf _ HI) H1) as (o & Ho & _).
      apply lookup_lt_Some in Ho.
      destruct (decide _); [destruct (isFilled _)|];
        try (by apply not_elem_of_nil in H2).
      apply list_elem_of_singleton in H2 as ->. exact Ho.
    + by apply StronglySorted_filter.
    + destruct (decide _); [destruct (isFilled _)|]; repeat constructor.
  - destruct (orders_ (order_book_ s) !! i) as [m|] eqn:Hi.
    + rewrite (cancel_queues s i m HI Hi). by apply StronglySorted_filter.
    + unfold Engine.cancelOrder. rewrite cancelOrder_unknown by done. apply Hf.
Qed.

Lemma run_fifo ops cb1 cb2 :
  valid_ops ops -> fifo (order_book_ (run ops (Engine.init cb1 cb2))).
Proof.
  induction ops as [|op ops IH] using rev_ind; intros Hv.
  - intros side k. unfold Book.getOrdersAtPrice. cbn.
    destruct side; cbn; rewrite lookup_empty; constructor.
  - rewrite run_snoc. pose proof Hv as Hv'.
    apply valid_ops_snoc in Hv as (Hv & Hwf & Hfresh).
    destruct (run_Inv ops cb1 cb2 Hv) as [HI Hids].
    apply step_fifo; [done|done| |by apply IH].
    destruct op as [a|i]; [|done]. apply fresh_id_ids. by rewrite Hids.
Qed.

(** X20. Queues are in order of arrival. In every reachable state each
    queue of the book ([getOrdersAtPrice] at any price and side) lists its
    orders in the order in which they were submitted: the pointers in the
    queue increase strictly, and the order behind pointer [x] is the one
    created by the [x]-th submission of the run (counting from 0). *)
Theorem queues_in_arrival_order ops cb1 cb2 :
  valid_ops ops ->
  let s := run ops (Engine.init cb1 cb2) in
  forall side k,
    StronglySorted lt (Book.getOrdersAtPrice (order_book_ s) k side)
    /\ forall x, x ∈ Book.getOrdersAtPrice (order_book_ s) k side ->
         submitted_ids ops !! x = Some (id_ (deref (heap s) x)).
Proof.
  intros Hv s side k. split; [by apply run_fifo|].
  intros x Hx. destruct (run_Inv ops cb1 cb2 Hv) as [HI Hids]. fold s in HI, Hids.
  destruct (queue_elem _ _ _ _ _ (inv_wf _ HI) Hx) as (o & Ho & _).
  rewrite <- Hids, list_lookup_fmap, Ho. cbn. by rewrite (deref_Some _ _ _ Ho).
Qed.

(** ** Equal time stamps *)

Lemma scan_first_from h o k l b bp :
  uniform h (Engine.opposing (side_ o)) k l -> compatible (side_ o) (price_ o) k ->
  exists m bp', fold_left (Engine.scan_step h o) l (Some b, bp) = (Some m, bp')
    /\ ((m = b /\ forall c, c ∈ l -> timestamp_ (deref h b) <= timestamp_ (deref h c))
        \/ exists l1 l2, l = l1 ++ m :: l2
             /\ timestamp_ (deref h m) < timestamp_ (deref h b)
             /\ forall c, c ∈ l1 -> timestamp_ (deref h m) < timestamp_ (deref h c)).
Proof.
  intros Hu Hc. revert b bp Hu. induction l as [|c l IH]; intros b bp Hu.
  - exists b, bp. split; [done|]. left. split; [done|].
    intros c Hin. by apply not_elem_of_nil in Hin.
  - cbn [fold_left]. destruct (Hu c) as (Hf & Hs & Hp); [by left|].
    rewrite (scan_step_compatible _ _ k) by done.
    assert (uniform h (Engine.opposing (side_ o)) k l) as Hu'.
    { intros x Hx. apply Hu. by right. }
    destruct (timestamp_ (deref h c) <? timestamp_ (deref h b)) eqn:Ets.
    + apply Z.ltb_lt in Ets.
      destruct (IH c k Hu') as (m & bp' & Hfold & [[-> Hall]|(l1 & l2 & -> & Hlt & Hall)]).
      * exists c, bp'. split; [done|]. right. exists [], l. split_and!; [done|done|].
        intros x Hx. by apply not_elem_of_nil in Hx.
      * exists m, bp'. split; [done|]. right. exists (c :: l1), l2.
        split_and!; [done|lia|].
        intros x Hx. apply elem_of_cons in Hx as [->|Hx]; [done|by apply Hall].
    + apply Z.ltb_ge in Ets.
      destruct (IH b k Hu') as (m & bp' & Hfold & [[-> Hall]|(l1 & l2 & -> & Hlt & Hall)]).
      * exists b, bp'. split; [done|]. left. split; [done|].
        intros x Hx. apply elem_of_cons in Hx as [->|Hx]; [done|by apply Hall].
      * exists m, bp'. split; [done|]. right. exists (c :: l1), l2.
        split_and!; [done|done|].
        intros x Hx. apply elem_of_cons in Hx as [->|Hx]; [lia|by apply Hall].
Qed.

(** On a level of the book every order in front of the selected one has a
    strictly later time stamp. *)
Lemma find_best_match_first h o k l m bp :
  uniform h (Engine.opposing (side_ o)) k l -> compatible (side_ o) (price_ o) k ->
  Engine.find_best_match h o l = (Some m, bp) ->
  exists l1 l2, l = l1 ++ m :: l2
    /\ forall c, c ∈ l1 -> timestamp_ (deref h m) < timestamp_ (deref h c).
Proof.
  intros Hu Hc. destruct l as [|c l]; [discriminate|].
  unfold Engine.find_best_match. cbn [fold_left].
  destruct (Hu c) as (Hf & Hs & Hp); [by left|].
  rewrite (scan_step_compatible _ _ k) by done.
  assert (uniform h (Engine.opposing (side_ o)) k l) as Hu'.
  { intros x Hx. apply Hu. by right. }
  destruct (scan_first_from h o k l c k Hu' Hc)
    as (m' & bp' & Hfold & [[-> Hall]|(l1 & l2 & -> & Hlt & Hall)]);
    rewrite Hfold; intros [= <- <-].
  - exists [], l. split; [done|]. intros x Hx. by apply not_elem_of_nil in Hx.
  - exists (c :: l1), l2. split; [done|].
    intros x Hx. apply elem_of_cons in Hx as [->|Hx]; [done|by apply Hall].
Qed.

Lemma pass_first s p m s' :
  Inv s -> outside s p -> fifo (order_book_ s) ->
  Engine.match_iter s p = Some (m, s') ->
  forall r,
    resting (order_book_ s) (Engine.opposing (side_ (deref (heap s) p))) r ->
    price_ (deref (heap s) r) = price_ (deref (heap s) m) ->
    timestamp_ (deref (heap s) r) = timestamp_ (deref (heap s) m) ->
    (m <= r)%nat.
Proof.
  intros HI Hout Hfifo Hit r (kr & lr & Hlr & Hinr) Hpr Htr.
  destruct (match_iter_Some _ _ _ _ Hit) as (Hpf & (bp & Hfind & _) & _).
  pose proof (inv_wf _ HI) as Hwf. pose proof (inv_open _ HI) as Hopen.
  destruct (getOrdersForMatching_spec (order_book_ s)
              (Engine.opposing (side_ (deref (heap s) p))))
    as [[_ Hnil]|(k & l & Hl & Hres & _)].
  { rewrite Hnil in Hfind. discriminate. }
  rewrite Hres in Hfind.
  pose proof (level_uniform _ _ _ _ _ Hwf Hopen Hl) as Hu.
  destruct (find_best_match_sound _ _ _ _ _ Hfind) as (Hmin & _ & _ & Hmc).
  destruct (Hu m Hmin) as (_ & _ & Hmk). rewrite Hmk in Hmc.
  destruct (find_best_match_first _ _ _ _ _ _ Hu Hmc Hfind) as (l1 & l2 & El & Hfront).
  destruct (l_members _ _ _ _ _ (b_levels _ _ Hwf _ _ _ Hlr) _ Hinr)
    as (ro & Hro & _ & Hrk & _).
  rewrite (deref_Some _ _ _ Hro) in Hpr.
  assert (lr = l) as -> by congruence.
  pose proof (Hfifo (Engine.opposing (side_ (deref (heap s) p))) k) as Hsorted.
  unfold Book.getOrdersAtPrice in Hsorted. rewrite Hl, El in Hsorted.
  rewrite El in Hinr. apply elem_of_app in Hinr as [Hin1|Hin2].
  - specialize (Hfront _ Hin1). lia.
  - apply StronglySorted_app_1_r in Hsorted.
    apply elem_of_cons in Hin2 as [->|Hin2]; [lia|].
    apply StronglySorted_cons in Hsorted as [Hall _].
    rewrite Forall_forall in Hall. specialize (Hall _ Hin2). lia.
Qed.

Lemma pass_fifo s p m s' :
  Inv s -> outside s p -> fifo (order_book_ s) ->
  Engine.match_iter s p = Some (m, s') -> fifo (order_book_ s').
Proof.
  intros HI Hout Hfifo Hit side k. rewrite (pass_queues _ _ _ _ HI Hout Hit).
  destruct (isFilled _); [|apply Hfifo]. by apply StronglySorted_filter.
Qed.

Lemma trace_first fuel s p :
  Inv s -> outside s p -> fifo (order_book_ s) ->
  Forall (fun e : State * ptr =>
            forall r,
              resting (order_book_ e.1) (Engine.opposing (side_ (deref (heap e.1) p))) r ->
              price_ (deref (heap e.1) r) = price_ (deref (heap e.1) e.2) ->
              timestamp_ (deref (heap e.1) r) = timestamp_ (deref (heap e.1) e.2) ->
              (e.2 <= r)%nat)
         (Engine.match_trace fuel s p).
Proof.
  revert s. induction fuel as [|fuel IH]; intros s HI Hout Hfifo; cbn [Engine.match_trace].
  - constructor.
  - destruct (Engine.match_iter s p) as [[m s']|] eqn:E; [|constructor].
    destruct (pass_spec _ _ _ _ HI Hout E) as (_ & HI' & Hout').
    constructor.
    + cbn [fst snd]. by apply (pass_first s p m s').
    + apply IH; [done|done|]. by apply (pass_fifo s p m s').
Qed.

(** X21. Equal time stamps. When a new order is submitted in a reachable
    state, in every pass of the matching loop the matched order was
    submitted no later than any order that rests on the opposite side at
    the same price with the same time stamp: among orders that tie on price
    and time stamp, the one submitted first is matched first. *)
Theorem equal_time_stamps_by_arrival ops cb1 cb2 a :
  valid_ops (ops ++ [Submit a]) ->
  let s := run ops (Engine.init cb1 cb2) in
  let s0 := (make_shared s a).1 in
  let p := length (heap s) in
  forall e, e ∈ Engine.match_trace (length (heap s0)) s0 p ->
    forall r,
      resting (order_book_ e.1) (Engine.opposing (a_side a)) r ->
      price_ (deref (heap e.1) r) = price_ (deref (heap e.1) e.2) ->
      timestamp_ (deref (heap e.1) r) = timestamp_ (deref (heap e.1) e.2) ->
      (e.2 <= r)%nat.
Proof.
  intros Hv s s0 p e He r Hr Hpr Htr.
  destruct (run_fresh ops cb1 cb2 a Hv) as (HI & Hwa & Hfresh). fold s in HI, Hfresh.
  apply valid_ops_snoc in Hv as (Hv & _ & _).
  pose proof (run_fifo ops cb1 cb2 Hv) as Hfifo. fold s in Hfifo.
  destruct (make_shared_Inv s a HI Hwa Hfresh) as (HI0 & Hp0 & Hnone0 & _).
  fold s0 in HI0, Hp0, Hnone0. cbn [make_shared snd] in Hp0. fold p in Hp0.
  assert (outside s0 p) as Hout0.
  { unfold outside. by rewrite (deref_Some _ _ _ Hp0). }
  pose proof (trace_first (length (heap s0)) s0 p HI0 Hout0 Hfifo) as Hall.
  pose proof (match_trace_facts (length (heap s0)) s0 p HI0 Hout0) as Hfacts.
  rewrite Forall_forall in Hall, Hfacts.
  destruct (Hfacts _ He) as (_ & _ & Hev & Hlen & _).
  destruct (heap_evolves_deref _ _ p Hev Hlen) as ((_ & Hsp & _) & _).
  rewrite (deref_Some _ _ _ Hp0) in Hsp. cbn [new_Order side_] in Hsp.
  apply (Hall _ He r); [|done|done]. by rewrite Hsp.
Qed.

(** ** [PriceLevel::removeOrder] *)

Lemma erase_first_split h i l :
  match Level.erase_first h i l with
  | None => forall x, x ∈ l -> id_ (deref h x) <> i
  | Some (p, rest) =>
      exists l1 l2, l = l1 ++ p :: l2 /\ rest = l1 ++ l2 /\ id_ (deref h p) = i
                    /\ forall x, x ∈ l1 -> id_ (deref h x) <> i
  end.
Proof.
  induction l as [|c l IH]; cbn [Level.erase_first].
  - intros x Hx. by apply not_elem_of_nil in Hx.
  - destruct (Z.eqb_spec (id_ (deref h c)) i) as [E|E].
    + exists [], l. split_and!; [done|done|done|].
      intros x Hx. by apply not_elem_of_nil in Hx.
    + destruct (Level.erase_first h i l) as [[q r]|].
      * destruct IH as (l1 & l2 & -> & -> & Hid & Hfront).
        exists (c :: l1), l2. split_and!; [done|done|done|].
        intros x Hx. apply elem_of_cons in Hx as [->|Hx]; [done|by apply Hfront].
      * intros x Hx. apply elem_of_cons in Hx as [->|Hx]; [done|by apply IH].
Qed.

(** X22. [PriceLevel::removeOrder] takes out the first match. For every
    level and id: the call returns true exactly when some order of the
    queue has that id; it then erases the first such order of the queue,
    and only that one, also when later orders carry the same id, keeps the
    others in order, and lowers the total quantity by that order's remaining
    quantity (modulo 2^64); when it returns false the level is unchanged. *)
Theorem removeOrder_first_match h l i :
  let r := Level.removeOrder h l i in
  (r.2 = true <-> exists x, x ∈ orders l /\ id_ (deref h x) = i)
  /\ (r.2 = false -> r.1 = l)
  /\ (r.2 = true ->
      exists l1 p l2,
        orders l = l1 ++ p :: l2
        /\ id_ (deref h p) = i
        /\ (forall x, x ∈ l1 -> id_ (deref h x) <> i)
        /\ r.1 = mkLevel (price l)
                         (wrap64 (total_quantity l - remaining_quantity_ (deref h p)))
                         (l1 ++ l2)).
Proof.
  intros r. unfold r, Level.removeOrder.
  pose proof (erase_first_split h i (orders l)) as Hs.
  destruct (Level.erase_first h i (orders l)) as [[p rest]|]; cbn [fst snd].
  - destruct Hs as (l1 & l2 & El & -> & Hid & Hfront). split_and!.
    + split; [|done]. intros _. exists p. split; [|done].
      rewrite El. apply elem_of_app. right. by left.
    + discriminate.
    + intros _. exists l1, p, l2. done.
  - split_and!; [|done|discriminate].
    split; [discriminate|]. intros (x & Hx & Hid). by destruct (Hs x Hx).
Qed.

(** ** The further properties on concrete runs *)

Lemma heap_u64_Forall h :
  Forall (fun o => is_u64 (remaining_quantity_ o)) h -> heap_u64 h.
Proof.
  intros Hall p o Hp. rewrite Forall_forall in Hall. apply Hall.
  by eapply list_elem_of_lookup_2.
Qed.

Lemma matchOrder_counts_trades_witness :
  let s := (make_shared (run sweep_ops (Engine.init true true)) sweep_order).1 in
  let p := 3%nat in
  heap_u64 (heap s)
  /\ let r := Engine.matchOrder s p in
     Engine.match_iter r.1 p = None
     /\ exists ts,
          trades_ r.1 = trades_ s ++ ts
          /\ r.2 = wrap64 (Z.of_nat (length ts))
          /\ (length ts <= count_open (heap s))%nat.
Proof.
  cbn zeta.
  assert (heap_u64 (heap (make_shared (run sweep_ops (Engine.init true true))
                                      sweep_order).1)) as Hu.
  { apply heap_u64_Forall. apply (bool_decide_unpack _). vm_compute. exact I. }
  split; [exact Hu|].
  exact (matchOrder_counts_trades _ 3%nat Hu).
Defined.

Lemma reduceQuantity_clamps_witness :
  let o := new_Order 1 BUY 100 10 1 in
  is_u64 (quantity_ o) /\ 0 <= remaining_quantity_ o <= quantity_ o /\ 0 <= 4
  /\ let r := reduceQuantity o 4 in
     r.2 = Z.min 4 (remaining_quantity_ o)
     /\ remaining_quantity_ r.1 = remaining_quantity_ o - r.2
     /\ 0 <= remaining_quantity_ r.1 <= remaining_quantity_ o
     /\ (remaining_quantity_ o <= 4 -> isFilled r.1 = true)
     /\ getFilledQuantity r.1 = getFilledQuantity o + r.2
     /\ same_static o r.1.
Proof.
  cbn zeta.
  assert (is_u64 (quantity_ (new_Order 1 BUY 100 10 1))) as H1
    by (apply (bool_decide_unpack _); vm_compute; exact I).
  assert (0 <= remaining_quantity_ (new_Order 1 BUY 100 10 1)
          <= quantity_ (new_Order 1 BUY 100 10 1)) as H2 by (simpl; lia).
  assert (0 <= 4) as H3 by lia.
  split; [exact H1|]. split; [exact H2|]. split; [exact H3|].
  exact (reduceQuantity_clamps (new_Order 1 BUY 100 10 1) 4 H1 H2 H3).
Defined.

Lemma filled_quantity_is_traded_witness :
  valid_ops (sweep_ops ++ [Submit sweep_order])
  /\ let s := run (sweep_ops ++ [Submit sweep_order]) (Engine.init true true) in
     forall p o, heap s !! p = Some o ->
       getFilledQuantity o = traded (trades_ s) (id_ o)
       /\ (isFilled o = true <-> traded (trades_ s) (id_ o) = quantity_ o)
       /\ (isPartiallyFilled o = true
           <-> 0 < traded (trades_ s) (id_ o) < quantity_ o).
Proof.
  assert (valid_ops (sweep_ops ++ [Submit sweep_order])) as Hv by valid_ops_tac.
  split; [exact Hv|].
  exact (filled_quantity_is_traded _ true true Hv).
Defined.

Lemma OrderComparator_order_witness :
  let a := new_Order 1 BUY 100 10 1 in
  let b := new_Order 2 BUY 101 10 2 in
  side_ a = side_ b /\ OrderComparator a b = true /\ OrderComparator b a = false.
Proof.
  cbn zeta.
  assert (side_ (new_Order 1 BUY 100 10 1) = side_ (new_Order 2 BUY 101 10 2)) as Hs
    by reflexivity.
  assert (OrderComparator (new_Order 1 BUY 100 10 1) (new_Order 2 BUY 101 10 2) = true)
    as Hc by reflexivity.
  split; [exact Hs|]. split; [exact Hc|].
  exact (proj1 (proj2 OrderComparator_order) _ _ Hs Hc).
Defined.

Lemma index_consistency_witness :
  valid_ops sweep_ops
  /\ let s := run sweep_ops (Engine.init true true) in
     let b := order_book_ s in
     forall k side, NoDup (Book.getOrdersAtPrice b k side).
Proof.
  assert (valid_ops sweep_ops) as Hv by valid_ops_tac.
  split; [exact Hv|].
  exact (proj2 (proj2 (index_consistency sweep_ops true true Hv))).
Defined.

Lemma cancel_undoes_add_witness :
  valid_ops (sweep_ops ++ [Submit sweep_order])
  /\ let s := run sweep_ops (Engine.init true true) in
     let s0 := (make_shared s sweep_order).1 in
     let p := (make_shared s sweep_order).2 in
     let b1 := (Book.addOrder (heap s0) (order_book_ s) (Some p)).1 in
     Book.getOrder b1 (a_id sweep_order) = Some p
     /\ Book.cancelOrder (heap s0) b1 (a_id sweep_order) = (order_book_ s, true).
Proof.
  assert (valid_ops (sweep_ops ++ [Submit sweep_order])) as Hv by valid_ops_tac.
  split; [exact Hv|].
  exact (cancel_undoes_add sweep_ops true true sweep_order Hv).
Defined.

Lemma empty_book_reads_zero_witness :
  valid_ops (one_bid_ops ++ [Cancel 1])
  /\ let b := order_book_ (run (one_bid_ops ++ [Cancel 1]) (Engine.init true true)) in
     Book.isEmpty b = true
     /\ Book.getBestPrices b = (0, 0) /\ Book.getSpread b = 0
     /\ Book.getBestBidQuantity b = 0 /\ Book.getBestAskQuantity b = 0.
Proof.
  assert (valid_ops (one_bid_ops ++ [Cancel 1])) as Hv by valid_ops_tac.
  split; [exact Hv|]. cbn zeta.
  assert (Book.isEmpty (order_book_ (run (one_bid_ops ++ [Cancel 1])
                                         (Engine.init true true))) = true) as He
    by (vm_compute; reflexivity).
  split; [exact He|].
  exact (proj2 (empty_book_reads_zero _ true true Hv) He).
Defined.

Lemma best_quantity_is_available_witness :
  valid_ops sweep_ops
  /\ let s := run sweep_ops (Engine.init true true) in
     let b := order_book_ s in
     Book.getBestBidQuantity b
     = wrap64 (sum_remaining (heap s) (Book.getOrdersForMatching b BUY))
     /\ Book.getBestAskQuantity b
        = wrap64 (sum_remaining (heap s) (Book.getOrdersForMatching b SELL))
     /\ (bids_ b = ∅ -> Book.getBestBidQuantity b = 0)
     /\ (asks_ b = ∅ -> Book.getBestAskQuantity b = 0).
Proof.
  assert (valid_ops sweep_ops) as Hv by valid_ops_tac.
  split; [exact Hv|].
  exact (best_quantity_is_available sweep_ops true true Hv).
Defined.

Lemma spread_of_book_witness :
  valid_ops two_sided_ops
  /\ let b := order_book_ (run two_sided_ops (Engine.init true true)) in
     bids_ b <> ∅ /\ asks_ b <> ∅ /\ Book.getBestBid b <> 0
     /\ Book.getSpread b = Book.getBestAsk b - Book.getBestBid b
     /\ 0 < Book.getSpread b.
Proof.
  assert (valid_ops two_sided_ops) as Hv by valid_ops_tac.
  split; [exact Hv|]. cbn zeta.
  assert (bids_ (order_book_ (run two_sided_ops (Engine.init true true))) <> ∅) as Hb.
  { intros E. apply (f_equal (fun m => orders <$> m !! 100)) in E.
    vm_compute in E. discriminate. }
  assert (asks_ (order_book_ (run two_sided_ops (Engine.init true true))) <> ∅) as Ha.
  { intros E. apply (f_equal (fun m => orders <$> m !! 101)) in E.
    vm_compute in E. discriminate. }
  assert (Book.getBestBid (order_book_ (run two_sided_ops (Engine.init true true))) <> 0)
    as Hn by (vm_compute; discriminate).
  split; [exact Hb|]. split; [exact Ha|]. split; [exact Hn|].
  exact (proj1 (proj2 (spread_of_book two_sided_ops true true) Hv Hb Ha) Hn).
Defined.

Lemma market_depth_lists_best_levels_witness :
  let b := order_book_ (run two_sided_ops (Engine.init true true)) in
  let d := Book.getMarketDepth b 2 in
  2%nat <> 0%nat /\ asks_ b <> ∅
  /\ head d.2 = Some (Book.getBestAsk b, Book.getBestAskQuantity b).
Proof.
  cbn zeta.
  assert (2%nat <> 0%nat) as Hl by lia.
  assert (asks_ (order_book_ (run two_sided_ops (Engine.init true true))) <> ∅) as Ha.
  { intros E. apply (f_equal (fun m => orders <$> m !! 101)) in E.
    vm_compute in E. discriminate. }
  split; [exact Hl|]. split; [exact Ha|].
  exact (proj2 (proj2 (proj2 (proj2 (proj2
           (market_depth_lists_best_levels
              (order_book_ (run two_sided_ops (Engine.init true true))) 2)))))
         Hl Ha).
Defined.

Lemma no_trade_through_witness :
  let ops := sweep_ops ++ [Submit sweep_order] in
  let s := run ops (Engine.init true true) in
  let t := mkTrade 4 1 101 3 in
  valid_ops ops /\ t ∈ trades_ s
  /\ trade_within_limits (heap s) t /\ buy_order_id t <> sell_order_id t.
Proof.
  cbn zeta.
  assert (valid_ops (sweep_ops ++ [Submit sweep_order])) as Hv by valid_ops_tac.
  assert (mkTrade 4 1 101 3
          ∈ trades_ (run (sweep_ops ++ [Submit sweep_order]) (Engine.init true true)))
    as Ht by (apply head_Some_elem_of; vm_compute; reflexivity).
  split; [exact Hv|]. split; [exact Ht|].
  exact (no_trade_through _ true true Hv _ Ht).
Defined.

Lemma clear_then_submit_witness :
  let s := run sweep_ops (Engine.init true true) in
  let a := mkArgs 9 BUY 200 5 9 in
  let c := Engine.clear s in
  a_quantity a <> 0
  /\ let r := submit_new c a in
     let p := length (heap s) in
     r.2 = true /\ trades_ r.1 = []
     /\ orders_ (order_book_ r.1) = {[a_id a := p]}
     /\ Book.getPriceLevelMap (order_book_ r.1) (a_side a)
        = {[a_price a := mkLevel (a_price a) (wrap64 (a_quantity a)) [p]]}
     /\ Book.getPriceLevelMap (order_book_ r.1) (Engine.opposing (a_side a)) = ∅.
Proof.
  cbn zeta.
  assert (a_quantity (mkArgs 9 BUY 200 5 9) <> 0) as Hq by (simpl; lia).
  split; [exact Hq|].
  exact (proj2 (proj2 (proj2 (proj2 (proj2 (proj2 (proj2
           (clear_then_submit (run sweep_ops (Engine.init true true))
                              (mkArgs 9 BUY 200 5 9)))))))) Hq).
Defined.

Lemma processBatch_counts_non_null_witness :
  let s := (make_shared (make_shared (Engine.init true true)
                                     (mkArgs 1 SELL 100 4 1)).1
                        (mkArgs 2 BUY 100 4 2)).1 in
  let orders := [Some 0%nat; Some 1%nat] in
  Forall is_Some orders
  /\ (Engine.processBatch s orders).2 = wrap64 (Z.of_nat (length orders)).
Proof.
  cbn zeta.
  assert (Forall is_Some [Some 0%nat; Some 1%nat]) as Hall
    by (apply (bool_decide_unpack _); vm_compute; exact I).
  split; [exact Hall|].
  exact (proj1 (proj2 (proj2 (processBatch_counts_non_null _ _))) Hall).
Defined.

Lemma order_callback_on_submission_witness :
  valid_ops (tie_ops ++ [Submit tie_order])
  /\ let s := run tie_ops (Engine.init true true) in
     let s0 := (make_shared s tie_order).1 in
     let p := length (heap s) in
     let tr := Engine.match_trace (length (heap s0)) s0 p in
     let s2 := (submit_new s tie_order).1 in
     order_events s2
     = order_events s
       ++ ((Some <$> filled_makers p tr)
           ++ (if isFilled (deref (heap s2) p) then [] else [Some p])).
Proof.
  assert (valid_ops (tie_ops ++ [Submit tie_order])) as Hv by valid_ops_tac.
  split; [exact Hv|].
  exact (proj1 (order_callback_on_submission tie_ops true true tie_order Hv)).
Defined.

Lemma queues_after_submission_witness :
  valid_ops (tie_ops ++ [Submit tie_order])
  /\ let s := run tie_ops (Engine.init true true) in
     let s0 := (make_shared s tie_order).1 in
     let p := length (heap s) in
     let tr := Engine.match_trace (length (heap s0)) s0 p in
     let s2 := (submit_new s tie_order).1 in
     Book.getOrdersAtPrice (order_book_ s2) 100 SELL
     = filter (fun x => x ∉ filled_makers p tr)
              (Book.getOrdersAtPrice (order_book_ s) 100 SELL)
       ++ (if decide (SELL = a_side tie_order /\ 100 = a_price tie_order)
           then (if isFilled (deref (heap s2) p) then [] else [p])
           else []).
Proof.
  assert (valid_ops (tie_ops ++ [Submit tie_order])) as Hv by valid_ops_tac.
  split; [exact Hv|].
  exact (proj1 (queues_after_submission tie_ops true true tie_order Hv SELL 100)).
Defined.

Lemma cancel_removes_resting_order_witness :
  let s := run sweep_ops (Engine.init true true) in
  valid_ops sweep_ops /\ Book.getOrder (order_book_ s) 2 = Some 1%nat
  /\ let r := Engine.cancelOrder s 2 in
     r.2 = true
     /\ heap r.1 = heap s /\ trades_ r.1 = trades_ s
     /\ Book.getOrder (order_book_ r.1) 2 = None
     /\ (forall j, j <> 2 ->
           Book.getOrder (order_book_ r.1) j = Book.getOrder (order_book_ s) j)
     /\ (forall side k,
           Book.getOrdersAtPrice (order_book_ r.1) k side
           = without 1%nat (Book.getOrdersAtPrice (order_book_ s) k side))
     /\ 1%nat ∈ Book.getOrdersAtPrice (order_book_ s) (price_ (deref (heap s) 1%nat))
                                      (side_ (deref (heap s) 1%nat)).
Proof.
  cbn zeta.
  assert (valid_ops sweep_ops) as Hv by valid_ops_tac.
  assert (Book.getOrder (order_book_ (run sweep_ops (Engine.init true true))) 2
          = Some 1%nat) as Hi by (vm_compute; reflexivity).
  split; [exact Hv|]. split; [exact Hi|].
  exact (cancel_removes_resting_order sweep_ops true true 2 1%nat Hv Hi).
Defined.

Lemma queues_in_arrival_order_witness :
  valid_ops sweep_ops
  /\ let s := run sweep_ops (Engine.init true true) in
     forall side k,
       StronglySorted lt (Book.getOrdersAtPrice (order_book_ s) k side)
       /\ forall x, x ∈ Book.getOrdersAtPrice (order_book_ s) k side ->
            submitted_ids sweep_ops !! x = Some (id_ (deref (heap s) x)).
Proof.
  assert (valid_ops sweep_ops) as Hv by valid_ops_tac.
  split; [exact Hv|].
  exact (queues_in_arrival_order sweep_ops true true Hv).
Defined.

Lemma equal_time_stamps_by_arrival_witness :
  let s := run tie_ops (Engine.init true true) in
  let s0 := (make_shared s tie_order).1 in
  let p := length (heap s) in
  let e := (s0, 0%nat) in
  valid_ops (tie_ops ++ [Submit tie_order])
  /\ e ∈ Engine.match_trace (length (heap s0)) s0 p
  /\ resting (order_book_ e.1) (Engine.opposing (a_side tie_order)) 1%nat
  /\ price_ (deref (heap e.1) 1%nat) = price_ (deref (heap e.1) e.2)
  /\ timestamp_ (deref (heap e.1) 1%nat) = timestamp_ (deref (heap e.1) e.2)
  /\ (e.2 <= 1)%nat.
Proof.
  cbn zeta.
  assert (valid_ops (tie_ops ++ [Submit tie_order])) as Hv by valid_ops_tac.
  assert (((make_shared (run tie_ops (Engine.init true true)) tie_order).1, 0%nat)
          ∈ Engine.match_trace
              (length (heap (make_shared (run tie_ops (Engine.init true true))
                                         tie_order).1))
              (make_shared (run tie_ops (Engine.init true true)) tie_order).1
              (length (heap (run tie_ops (Engine.init true true))))) as He
    by (apply head_Some_elem_of; vm_compute; reflexivity).
  assert (resting (order_book_ (make_shared (run tie_ops (Engine.init true true))
                                            tie_order).1)
                  (Engine.opposing (a_side tie_order)) 1%nat) as Hr.
  { exists 100, (mkLevel 100 10 [0%nat; 1%nat]).
    split; [vm_compute; reflexivity|]. right. left. }
  assert (price_ (deref (heap (make_shared (run tie_ops (Engine.init true true))
                                           tie_order).1) 1%nat)
          = price_ (deref (heap (make_shared (run tie_ops (Engine.init true true))
                                             tie_order).1) 0%nat)) as Hp
    by (vm_compute; reflexivity).
  assert (timestamp_ (deref (heap (make_shared (run tie_ops (Engine.init true true))
                                               tie_order).1) 1%nat)
          = timestamp_ (deref (heap (make_shared (run tie_ops (Engine.init true true))
                                                 tie_order).1) 0%nat)) as Ht
    by (vm_compute; reflexivity).
  split; [exact Hv|]. split; [exact He|]. split; [exact Hr|].
  split; [exact Hp|]. split; [exact Ht|].
  exact (equal_time_stamps_by_arrival tie_ops true true tie_order Hv _ He 1%nat Hr Hp Ht).
Defined.

Lemma removeOrder_first_match_witness :
  let h := [new_Order 1 BUY 100 3 1; new_Order 1 BUY 100 4 2] in
  let l := mkLevel 100 7 [0%nat; 1%nat] in
  let r := Level.removeOrder h l 1 in
  r.2 = true
  /\ exists l1 p l2,
       orders l = l1 ++ p :: l2
       /\ id_ (deref h p) = 1
       /\ (forall x, x ∈ l1 -> id_ (deref h x) <> 1)
       /\ r.1 = mkLevel (price l)
                        (wrap64 (total_quantity l - remaining_quantity_ (deref h p)))
                        (l1 ++ l2).
Proof.
  cbn zeta.
  assert ((Level.removeOrder [new_Order 1 BUY 100 3 1; new_Order 1 BUY 100 4 2]
                             (mkLevel 100 7 [0%nat; 1%nat]) 1).2 = true) as Hr
    by (vm_compute; reflexivity).
  split; [exact Hr|].
  exact (proj2 (proj2 (removeOrder_first_match _ _ _)) Hr).
Defined.
